(** * Synapse Relay: a shallow embedding of the relay pipeline

    The development follows the TypeScript/JavaScript sources of the relay
    node: the rule engine ([relay/rule-engine.ts]), the tumbler
    ([interlock/tumbler.js]), the wire codec ([interlock/protocol.js]), the
    store ([database/schema.ts]), the buffer manager
    ([relay/buffer-manager.ts]), the stats aggregator
    ([relay/stats-aggregator.ts]) and the delivery engine
    ([relay/engine.js]).

    Conventions.
    - JavaScript numbers that the code uses as integers (epoch milliseconds,
      counters, signal codes) are [Z]; the timestamp of a decoded
      message, which can be [NaN], is a [number].
    - A JavaScript string is a [string]: its UTF-8 bytes, so that
      [Buffer.from(s, 'utf8')] is the identity on the model.
    - A JavaScript object used as a record of JSON values is the
      association list of its own properties, in property order.  Where
      the code looks up or assigns a plain object under a key that comes
      from outside ([result[key] = value], [byGroup[groupKey]],
      [config.peer_ports[target]]), the members inherited from
      [Object.prototype] are taken into account, and what is left out
      is said at the definition; the special ordering of integer-like
      keys is not modelled.
    - A delivery callback may reject: no caller catches it.
    - Every call of [Date.now()] is a separate reading of the clock and is a
      separate argument (or a separate tick of the clock state) of the
      embedded function.
    - An [async] function runs to its end without interleaving with
      another one: the operations are sequential. *)

From Stdlib Require Import ZArith QArith List String Ascii Bool Lia Arith.
From Stdlib Require Import Permutation.
From Stdlib Require HexadecimalString HexadecimalPos.
From Stdlib Require Import DecimalString DecimalZ DecimalFacts DecimalPos.
Import ListNotations.

Local Open Scope string_scope.
Local Open Scope Z_scope.

(* ================================================================== *)
(** * Part I: definitions *)
(* ================================================================== *)

(* ------------------------------------------------------------------ *)
(** ** JSON values and JavaScript objects *)
(* ------------------------------------------------------------------ *)

Unset Elimination Schemes.

Inductive json : Type :=
| JNull
| JBool (b : bool)
| JNum (n : Z)
| JStr (s : string)
| JArr (items : list json)
| JObj (fields : list (string * json)).

Set Elimination Schemes.

(** An object is the list of its own properties, in property order. *)
Definition object : Type := list (string * json).

(** [o[k]] for an own property. *)
Fixpoint obj_get (k : string) (o : object) : option json :=
  match o with
  | [] => None
  | (k', v) :: o' => if String.eqb k' k then Some v else obj_get k o'
  end.

(** [k in o]. *)
Definition obj_has (k : string) (o : object) : bool :=
  match obj_get k o with Some _ => true | None => false end.

(** [o[k] = v] as the definition of an own property (a property of an
    object literal or of a spread, an assignment under a key that is no
    inherited accessor): an existing property keeps its place, a new one
    goes last.  For an assignment under any key see [obj_assign]. *)
Fixpoint obj_set (k : string) (v : json) (o : object) : object :=
  match o with
  | [] => [(k, v)]
  | (k', v') :: o' =>
      if String.eqb k' k then (k, v) :: o' else (k', v') :: obj_set k v o'
  end.

(** [delete o[k]]. *)
Definition obj_del (k : string) (o : object) : object :=
  filter (fun kv => negb (String.eqb (fst kv) k)) o.

(** The names every object inherits from [Object.prototype]: the
    members the language defines, the legacy accessors included. *)
Definition OBJECT_PROTOTYPE_NAMES : list string :=
  ["constructor"; "__defineGetter__"; "__defineSetter__"; "hasOwnProperty";
   "__lookupGetter__"; "__lookupSetter__"; "isPrototypeOf";
   "propertyIsEnumerable"; "toString"; "valueOf"; "__proto__";
   "toLocaleString"].

(** [name in {}]: the name of an inherited member. *)
Definition inherited (name : string) : bool :=
  existsb (String.eqb name) OBJECT_PROTOTYPE_NAMES.

(** [o[k] = v] by assignment, on an object whose prototype is
    [Object.prototype].  The key [__proto__], unless [o] has it as an
    own property, is the accessor of [Object.prototype]: its setter
    replaces the prototype of [o] when [v] is an object and does
    nothing otherwise; either way [o] gets no own property. *)
Definition obj_assign (k : string) (v : json) (o : object) : object :=
  if String.eqb k "__proto__" && negb (obj_has "__proto__" o)
  then o
  else obj_set k v o.

(** [{...a, ...b}] onto an accumulator: every property of [b] is assigned
    in order. *)
Definition obj_spread (acc b : object) : object :=
  fold_left (fun r kv => obj_set (fst kv) (snd kv) r) b acc.

(** Decimal text of an integer, as [String(n)] prints it. *)
Definition string_of_Z (n : Z) : string :=
  NilZero.string_of_int (Z.to_int n).

Fixpoint join (sep : string) (l : list string) : string :=
  match l with
  | [] => EmptyString
  | [s] => s
  | s :: l' => (s ++ sep ++ join sep l')%string
  end.

(** [String(v)], the coercion JavaScript applies to a value used as a
    property key.  In [Array.prototype.join] a [null] element prints as
    the empty string. *)
Fixpoint to_js_string (v : json) : string :=
  match v with
  | JNull => "null"
  | JBool true => "true"
  | JBool false => "false"
  | JNum n => string_of_Z n
  | JStr s => s
  | JArr l =>
      join "," (map (fun x => match x with
                              | JNull => EmptyString
                              | _ => to_js_string x
                              end) l)
  | JObj _ => "[object Object]"
  end.

(** JavaScript truthiness of a JSON value. *)
Definition truthy (v : json) : bool :=
  match v with
  | JNull => false
  | JBool b => b
  | JNum n => negb (n =? 0)
  | JStr s => negb (String.eqb s EmptyString)
  | JArr _ | JObj _ => true
  end.

(* ------------------------------------------------------------------ *)
(** ** [JSON.stringify] and [JSON.parse]

    The runtime's JSON codec, on the values of [json].  Numbers are the
    integers; a number with a fraction or an exponent is outside the
    model and is refused by the parser. *)
(* ------------------------------------------------------------------ *)

Definition dquote : ascii := "034"%char.
Definition backslash : ascii := "\"%char.

(** Lower-case hexadecimal digit of a value below 16. *)
Definition hex_digit (n : N) : ascii :=
  ascii_of_N (if (n <? 10)%N then 48 + n else 87 + n)%N.

(** The text [JSON.stringify] emits for one character of a string. *)
Definition escape_char (c : ascii) : string :=
  let n := N_of_ascii c in
  if (n =? 34)%N then String backslash (String dquote EmptyString)
  else if (n =? 92)%N then String backslash (String backslash EmptyString)
  else if (n =? 8)%N then String backslash "b"
  else if (n =? 9)%N then String backslash "t"
  else if (n =? 10)%N then String backslash "n"
  else if (n =? 12)%N then String backslash "f"
  else if (n =? 13)%N then String backslash "r"
  else if (n <? 32)%N then
    String backslash
      (String "u" (String "0" (String "0"
         (String (hex_digit (n / 16)) (String (hex_digit (n mod 16))
            EmptyString)))))
  else String c EmptyString.

Fixpoint escape (s : string) : string :=
  match s with
  | EmptyString => EmptyString
  | String c s' => (escape_char c ++ escape s')%string
  end.

(** A quoted string literal. *)
Definition quote (s : string) : string :=
  String dquote (escape s ++ String dquote EmptyString).

(** [JSON.stringify(v)], without indentation. *)
Fixpoint stringify (v : json) : string :=
  match v with
  | JNull => "null"
  | JBool true => "true"
  | JBool false => "false"
  | JNum n => string_of_Z n
  | JStr s => quote s
  | JArr l =>
      let fix items (l : list json) : string :=
        match l with
        | [] => EmptyString
        | [x] => stringify x
        | x :: l' => (stringify x ++ String "," (items l'))%string
        end in
      String "[" (items l ++ "]")
  | JObj f =>
      let fix members (f : list (string * json)) : string :=
        match f with
        | [] => EmptyString
        | [(k, x)] => (quote k ++ String ":" (stringify x))%string
        | (k, x) :: f' =>
            (quote k ++ String ":" (stringify x) ++ String "," (members f'))%string
        end in
      String "{" (members f ++ "}")
  end.

Fixpoint stringify_items (l : list json) : string :=
  match l with
  | [] => EmptyString
  | [x] => stringify x
  | x :: l' => (stringify x ++ String "," (stringify_items l'))%string
  end.

Fixpoint stringify_members (f : list (string * json)) : string :=
  match f with
  | [] => EmptyString
  | [(k, x)] => (quote k ++ String ":" (stringify x))%string
  | (k, x) :: f' =>
      (quote k ++ String ":" (stringify x) ++ String "," (stringify_members f'))%string
  end.

Definition is_ws (c : ascii) : bool :=
  match c with
  | " " | "009" | "010" | "013" => true
  | _ => false
  end%char.

Fixpoint skip_ws (s : string) : string :=
  match s with
  | String c s' => if is_ws c then skip_ws s' else s
  | EmptyString => s
  end.

Definition is_digit (c : ascii) : bool :=
  ((48 <=? N_of_ascii c) && (N_of_ascii c <=? 57))%N.

(** The longest prefix of digits, and what follows it. *)
Fixpoint span_digits (s : string) : string * string :=
  match s with
  | String c s' =>
      if is_digit c
      then let (ds, rest) := span_digits s' in (String c ds, rest)
      else (EmptyString, s)
  | EmptyString => (EmptyString, EmptyString)
  end.

(** The digits of an integer literal: no superfluous leading zero, and
    neither a fraction nor an exponent after them. *)
Definition parse_digits (negative : bool) (s : string) : option (Z * string) :=
  let (ds, rest) := span_digits s in
  match ds with
  | EmptyString => None
  | String "0" (String _ _) => None
  | _ =>
      match rest with
      | String "." _ | String "e" _ | String "E" _ => None
      | _ =>
          match NilEmpty.uint_of_string ds with
          | Some u =>
              let n := Z.of_uint u in
              Some (if negative then - n else n, rest)
          | None => None
          end
      end
  end.

(** An integer literal: an optional minus sign, then the digits. *)
Definition parse_number (s : string) : option (Z * string) :=
  match s with
  | String "-" t => parse_digits true t
  | _ => parse_digits false s
  end.

Definition hex_value (c : ascii) : option N :=
  let n := N_of_ascii c in
  if ((48 <=? n) && (n <=? 57))%N then Some (n - 48)%N
  else if ((97 <=? n) && (n <=? 102))%N then Some (n - 87)%N
  else if ((65 <=? n) && (n <=? 70))%N then Some (n - 55)%N
  else None.

(** UTF-8 bytes of a code unit given as [\uXXXX]. *)
Definition utf8_encode (n : N) : string :=
  if (n <? 128)%N then String (ascii_of_N n) EmptyString
  else if (n <? 2048)%N then
    String (ascii_of_N (192 + n / 64))
      (String (ascii_of_N (128 + n mod 64)) EmptyString)
  else
    String (ascii_of_N (224 + n / 4096))
      (String (ascii_of_N (128 + (n / 64) mod 64))
         (String (ascii_of_N (128 + n mod 64)) EmptyString)).

Definition hex4 (a b c d : ascii) : option N :=
  match hex_value a, hex_value b, hex_value c, hex_value d with
  | Some x, Some y, Some z, Some w => Some (((x * 16 + y) * 16 + z) * 16 + w)%N
  | _, _, _, _ => None
  end.

Definition prepend (p : string) (r : option (string * string))
  : option (string * string) :=
  match r with
  | Some (body, rest) => Some ((p ++ body)%string, rest)
  | None => None
  end.

(** The body of a string literal after its opening quote, up to and
    including the closing quote. *)
Fixpoint parse_string_body (s : string) : option (string * string) :=
  match s with
  | EmptyString => None
  | String c rest =>
      if Ascii.eqb c dquote then Some (EmptyString, rest)
      else if Ascii.eqb c backslash then
        match rest with
        | String e rest1 =>
            if Ascii.eqb e dquote
            then prepend (String dquote EmptyString) (parse_string_body rest1)
            else if Ascii.eqb e backslash
            then prepend (String backslash EmptyString) (parse_string_body rest1)
            else
              match e with
              | "/" => prepend "/" (parse_string_body rest1)
              | "b" => prepend (String "008" EmptyString) (parse_string_body rest1)
              | "f" => prepend (String "012" EmptyString) (parse_string_body rest1)
              | "n" => prepend (String "010" EmptyString) (parse_string_body rest1)
              | "r" => prepend (String "013" EmptyString) (parse_string_body rest1)
              | "t" => prepend (String "009" EmptyString) (parse_string_body rest1)
              | "u" =>
                  match rest1 with
                  | String h1 (String h2 (String h3 (String h4 rest2))) =>
                      match hex4 h1 h2 h3 h4 with
                      | Some n => prepend (utf8_encode n) (parse_string_body rest2)
                      | None => None
                      end
                  | _ => None
                  end
              | _ => None
              end%char
        | EmptyString => None
        end
      else if (N_of_ascii c <? 32)%N then None
      else prepend (String c EmptyString) (parse_string_body rest)
  end.

(** Recursive descent with fuel; every call consumes one unit. *)
Fixpoint parse_value (fuel : nat) (s : string) : option (json * string) :=
  match fuel with
  | O => None
  | S fuel' =>
      match skip_ws s with
      | String "n" (String "u" (String "l" (String "l" rest))) =>
          Some (JNull, rest)
      | String "t" (String "r" (String "u" (String "e" rest))) =>
          Some (JBool true, rest)
      | String "f" (String "a" (String "l" (String "s" (String "e" rest)))) =>
          Some (JBool false, rest)
      | String "[" rest =>
          match skip_ws rest with
          | String "]" rest' => Some (JArr [], rest')
          | _ =>
              match parse_elements fuel' rest with
              | Some (l, rest') => Some (JArr l, rest')
              | None => None
              end
          end
      | String "{" rest =>
          match skip_ws rest with
          | String "}" rest' => Some (JObj [], rest')
          | _ =>
              match parse_members fuel' rest with
              | Some (f, rest') => Some (JObj (obj_spread [] f), rest')
              | None => None
              end
          end
      | String c rest =>
          if Ascii.eqb c dquote then
            match parse_string_body rest with
            | Some (str, rest') => Some (JStr str, rest')
            | None => None
            end
          else
            match parse_number (String c rest) with
            | Some (n, rest') => Some (JNum n, rest')
            | None => None
            end
      | EmptyString => None
      end
  end

with parse_elements (fuel : nat) (s : string) : option (list json * string) :=
  match fuel with
  | O => None
  | S fuel' =>
      match parse_value fuel' s with
      | Some (x, rest) =>
          match skip_ws rest with
          | String "," rest' =>
              match parse_elements fuel' rest' with
              | Some (l, rest'') => Some (x :: l, rest'')
              | None => None
              end
          | String "]" rest' => Some ([x], rest')
          | _ => None
          end
      | None => None
      end
  end

with parse_members (fuel : nat) (s : string)
  : option (list (string * json) * string) :=
  match fuel with
  | O => None
  | S fuel' =>
      match skip_ws s with
      | String c rest =>
          if Ascii.eqb c dquote then
            match parse_string_body rest with
            | Some (k, rest1) =>
                match skip_ws rest1 with
                | String ":" rest2 =>
                    match parse_value fuel' rest2 with
                    | Some (x, rest3) =>
                        match skip_ws rest3 with
                        | String "," rest4 =>
                            match parse_members fuel' rest4 with
                            | Some (f, rest5) => Some ((k, x) :: f, rest5)
                            | None => None
                            end
                        | String "}" rest4 => Some ([(k, x)], rest4)
                        | _ => None
                        end
                    | None => None
                    end
                | _ => None
                end
            | None => None
            end
          else None
      | EmptyString => None
      end
  end.

(** [JSON.parse(text)]; [None] stands for the [SyntaxError]. *)
Definition JSON_parse (text : string) : option json :=
  match parse_value (String.length text) text with
  | Some (v, rest) =>
      match skip_ws rest with
      | EmptyString => Some v
      | _ => None
      end
  | None => None
  end.

(** What may follow a value inside a JSON text. *)
Definition delimited (rest : string) : Prop :=
  match rest with
  | EmptyString => True
  | String c _ => c = ","%char \/ c = "]"%char \/ c = "}"%char
  end.

(** The characters a serialized value can start with. *)
Definition value_head (c : ascii) : bool :=
  is_digit c ||
  match c with
  | "n" | "t" | "f" | "034" | "[" | "{" | "-" => true
  | _ => false
  end%char.

(** The values [JSON.stringify] and [JSON.parse] take to each other: the
    keys of every object are distinct, as they are in a JavaScript
    object. *)
Fixpoint wf_json (v : json) : Prop :=
  match v with
  | JArr l =>
      (fix all (l : list json) : Prop :=
         match l with
         | [] => True
         | x :: l' => wf_json x /\ all l'
         end) l
  | JObj f =>
      NoDup (map fst f) /\
      (fix all (f : list (string * json)) : Prop :=
         match f with
         | [] => True
         | (_, x) :: f' => wf_json x /\ all f'
         end) f
  | _ => True
  end.

(** The parser reads back the text of [v], whatever delimiter follows,
    given fuel for the length of that text. *)
Definition parses (v : json) : Prop :=
  wf_json v ->
  forall fuel rest,
    delimited rest ->
    (String.length (stringify v) <= fuel)%nat ->
    parse_value fuel (stringify v ++ rest) = Some (v, rest).

(* ------------------------------------------------------------------ *)
(** ** Rule engine: [applyTransform] (relay/rule-engine.ts) *)
(* ------------------------------------------------------------------ *)

(** [typeof value === 'object' && value !== null && 'rename' in value]:
    the value of the [rename] property when the test succeeds.  An array
    has no such property. *)
Definition rename_of (value : json) : option json :=
  match value with
  | JObj f => obj_get "rename" f
  | _ => None
  end.

(** One iteration of the loop over [Object.entries(transform)], on the
    own properties of [result].  The set and the move are assignments
    ([result[key] = ...]), so the key [__proto__] goes to the accessor
    unless [result] owns it.  In the rename branch [renameFrom in result]
    is taken for an own property: the step is exact unless [renameFrom]
    names a member that [result] only inherits, from [Object.prototype]
    or from a prototype that an earlier entry [__proto__] has installed;
    the value copied then is no JSON value. *)
Definition transform_step (result : object) (entry : string * json) : object :=
  let (key, value) := entry in
  match value with
  | JNull => obj_del key result
  | _ =>
      match rename_of value with
      | Some from =>
          let renameFrom := to_js_string from in
          match obj_get renameFrom result with
          | Some moved => obj_del renameFrom (obj_assign key moved result)
          | None => result
          end
      | None => obj_assign key value result
      end
  end.

(** [applyTransform(payload, transform)]: [result = {...payload}], then
    the entries of [transform] in enumeration order. *)
Definition applyTransform (payload transform : object) : object :=
  fold_left transform_step transform payload.

(** A transform spec without rename entries. *)
Definition no_rename (transform : object) : Prop :=
  Forall (fun entry => rename_of (snd entry) = None) transform.

(** The value the last entry for key [k] of a spec carries, if any. *)
Fixpoint last_entry (k : string) (transform : object) : option json :=
  match transform with
  | [] => None
  | (k', v) :: rest =>
      match last_entry k rest with
      | Some w => Some w
      | None => if String.eqb k' k then Some v else None
      end
  end.

(** What a set-or-delete entry leaves under its key. *)
Definition entry_outcome (v : json) : option json :=
  match v with JNull => None | _ => Some v end.

(** What a set-or-delete entry makes of the own property [__proto__],
    [current] being its value before: the entry deletes it, or
    overwrites it when it is there. *)
Definition proto_step (current : option json) (entry : string * json)
  : option json :=
  if String.eqb (fst entry) "__proto__" then
    match snd entry, current with
    | JNull, _ => None
    | v, Some _ => Some v
    | _, None => None
    end
  else current.

(** The key [k] can be set by assignment on [p]: it is not [__proto__],
    or [p] owns a property of that name. *)
Definition assignable (k : string) (p : object) : Prop :=
  k <> "__proto__" \/ obj_has "__proto__" p = true.

(** [Object.entries(array)]: the elements under their decimal indices. *)
Fixpoint array_entries (i : Z) (l : list json) : object :=
  match l with
  | [] => []
  | x :: l' => (string_of_Z i, x) :: array_entries (i + 1) l'
  end.

(* ------------------------------------------------------------------ *)
(** ** Hexadecimal text and letter case *)
(* ------------------------------------------------------------------ *)

(** [n.toString(16)] for an integer: lower-case digits, a minus sign
    for a negative number. *)
Definition toString16 (n : Z) : string :=
  HexadecimalString.NilZero.string_of_int (Z.to_hex_int n).

(** The value of the hexadecimal digits [s] starts with, on top of the
    digits already read. *)
Fixpoint hex_prefix (acc : Z) (s : string) : Z :=
  match s with
  | String c rest =>
      match hex_value c with
      | Some d => hex_prefix (acc * 16 + Z.of_N d) rest
      | None => acc
      end
  | EmptyString => acc
  end.

(** [Number.MAX_SAFE_INTEGER]: up to it every integer is a number of
    JavaScript. *)
Definition MAX_SAFE_INTEGER : Z := 9007199254740991.

(** [parseInt("0x" + s, 16)]: the prefix [0x] is dropped, then the
    longest run of hexadecimal digits is read; [None] is [NaN], when [s]
    does not start with a digit.  The result is the one of JavaScript
    while it is at most [MAX_SAFE_INTEGER]. *)
Definition parseInt16 (s : string) : option Z :=
  match s with
  | String c rest =>
      match hex_value c with
      | Some d => Some (hex_prefix (Z.of_N d) rest)
      | None => None
      end
  | EmptyString => None
  end.

(** Upper case of an ASCII letter. *)
Definition upper_ascii (c : ascii) : ascii :=
  let n := N_of_ascii c in
  if ((97 <=? n) && (n <=? 122))%N then ascii_of_N (n - 32) else c.

Fixpoint upper_text (s : string) : string :=
  match s with
  | String c rest => String (upper_ascii c) (upper_text rest)
  | EmptyString => EmptyString
  end.

(** Text made of ASCII characters only. *)
Fixpoint ascii_text (s : string) : bool :=
  match s with
  | String c rest => (N_of_ascii c <? 128)%N && ascii_text rest
  | EmptyString => true
  end.

(** What is known of [String.prototype.toUpperCase]: on ASCII text it
    maps the letters a-z to A-Z and leaves every other character. *)
Definition upper_on_ascii (toUpperCase : string -> string) : Prop :=
  forall s, ascii_text s = true -> toUpperCase s = upper_text s.

(* ------------------------------------------------------------------ *)
(** ** Wire codec (interlock/protocol.js) *)
(* ------------------------------------------------------------------ *)

(** A Node [Buffer]: its bytes. *)
Definition Buffer : Type := string.

Definition byte (z : Z) : ascii := ascii_of_N (Z.to_N (Z.land z 255)).
Definition byte_value (c : ascii) : Z := Z.of_N (N_of_ascii c).

(** [buf.writeUInt16BE(value)]: the two bytes written, or [None] for the
    [RangeError] on a value outside [0, 65535]. *)
Definition writeUInt16BE (value : Z) : option Buffer :=
  if (0 <=? value) && (value <=? 65535)
  then Some (String (byte (Z.shiftr value 8))
               (String (byte value) EmptyString))
  else None.

Definition writeUInt32BE (value : Z) : option Buffer :=
  if (0 <=? value) && (value <=? 4294967295)
  then Some (String (byte (Z.shiftr value 24))
               (String (byte (Z.shiftr value 16))
                  (String (byte (Z.shiftr value 8))
                     (String (byte value) EmptyString))))
  else None.

(** [buf.readUInt16BE(offset)]; [None] for the [RangeError] past the end. *)
Definition readUInt16BE (buffer : Buffer) (offset : nat) : option Z :=
  match String.get offset buffer, String.get (offset + 1) buffer with
  | Some a, Some b => Some (byte_value a * 256 + byte_value b)
  | _, _ => None
  end.

Definition readUInt32BE (buffer : Buffer) (offset : nat) : option Z :=
  match String.get offset buffer, String.get (offset + 1) buffer,
        String.get (offset + 2) buffer, String.get (offset + 3) buffer with
  | Some a, Some b, Some c, Some d =>
      Some (byte_value a * 16777216 + byte_value b * 65536
            + byte_value c * 256 + byte_value d)
  | _, _, _, _ => None
  end.

(** A number of JavaScript where it need not be an integer: the
    timestamp of a decoded message.  The binary decoder reads an
    unsigned integer; the text decoder takes [Math.floor] of a quotient,
    which is an integer, an infinity, or [NaN] when the timestamp of the
    frame is not numeric ([parseInt] of a text without digits, a
    property [ts] that is a text or an object). *)
Inductive number : Type :=
| Finite (n : Z)
| NaN
| Infinite (negative : bool).

Module Protocol.

Definition PROTOCOL_VERSION : Z := 256.

Record InterLockMessage : Type := {
  signalType : Z;
  version : Z;
  timestamp : number;
  payload : object
}.

(** [encodeMessage(signalType, sender, payload)] at clock reading [now];
    [None] when one of the header writes throws. *)
Definition encodeMessage (now : Z) (signalType : Z) (sender : string)
           (payload : object) : option Buffer :=
  let fullPayload :=
    stringify (JObj (obj_spread [("sender", JStr sender)] payload)) in
  let payloadBuffer : Buffer := fullPayload in
  match writeUInt16BE signalType,
        writeUInt16BE PROTOCOL_VERSION,
        writeUInt32BE (Z.of_nat (String.length payloadBuffer)),
        writeUInt32BE (now / 1000) with
  | Some h0, Some h2, Some h4, Some h8 =>
      Some (h0 ++ h2 ++ h4 ++ h8 ++ payloadBuffer)%string
  | _, _, _, _ => None
  end.

(** [a || b || 'unknown'] on two properties that may be absent. *)
Definition sender_fallback (f : object) : json :=
  match obj_get "serverId" f with
  | Some v => if truthy v then v else
      match obj_get "source" f with
      | Some w => if truthy w then w else JStr "unknown"
      | None => JStr "unknown"
      end
  | None =>
      match obj_get "source" f with
      | Some w => if truthy w then w else JStr "unknown"
      | None => JStr "unknown"
      end
  end.

(** [if (!payload.sender) payload.sender = ...] on the parsed value, seen
    through its properties.  Reading a property of [null], and creating
    one on a number, a boolean or a string in a module (strict mode),
    throw a [TypeError]; an array carries no [sender], [serverId] or
    [source] of its own. *)
Definition ensure_sender (parsed : json) : option object :=
  match parsed with
  | JObj f =>
      match obj_get "sender" f with
      | Some v =>
          if truthy v then Some f
          else Some (obj_set "sender" (sender_fallback f) f)
      | None => Some (obj_set "sender" (sender_fallback f) f)
      end
  | JArr l => Some (array_entries 0 l ++ [("sender", JStr "unknown")])%list
  | JNull | JBool _ | JNum _ | JStr _ => None
  end.

(** [decodeBinaryMessage(buffer)]; [None] is the [null] result, returned
    directly or from the [catch]. *)
Definition decodeBinaryMessage (buffer : Buffer) : option InterLockMessage :=
  match readUInt16BE buffer 0, readUInt16BE buffer 2,
        readUInt32BE buffer 4, readUInt32BE buffer 8 with
  | Some signalType, Some version, Some payloadLength, Some timestamp =>
      if (signalType =? 0) || (signalType >? 255) then None
      else if payloadLength >? Z.of_nat (String.length buffer) - 12 then None
      else
        let payloadStr := substring 12 (Z.to_nat payloadLength) buffer in
        match JSON_parse payloadStr with
        | Some parsed =>
            match ensure_sender parsed with
            | Some payload =>
                Some {| signalType := signalType;
                        version := version;
                        timestamp := Finite timestamp;
                        payload := payload |}
            | None => None
            end
        | None => None
        end
  | _, _, _, _ => None
  end.

(** [decodeMessage(buffer)]: binary first, the legacy text decoder as
    the fallback.  The text decoder is a parameter here. *)
Definition decodeMessage
           (decodeTextMessage : Buffer -> option InterLockMessage)
           (buffer : Buffer) : option InterLockMessage :=
  if (String.length buffer <? 2)%nat then None
  else
    match (if (12 <=? String.length buffer)%nat
           then decodeBinaryMessage buffer else None) with
    | Some binaryResult => Some binaryResult
    | None => decodeTextMessage buffer
    end.

(** The round trip of one message: encoding succeeds, decoding the
    frame succeeds, the signal type comes back, and the decoded payload
    holds the sender and every entry of the original payload. *)
Definition round_trip (now : Z) (signalType : Z) (sender : string)
           (payload : object) : Prop :=
  exists buffer message,
    encodeMessage now signalType sender payload = Some buffer /\
    decodeBinaryMessage buffer = Some message /\
    Protocol.signalType message = signalType /\
    obj_get "sender" (Protocol.payload message) = Some (JStr sender) /\
    forall k v, obj_get k payload = Some v ->
                obj_get k (Protocol.payload message) = Some v.

(** The table [SIGNAL_NAMES]. *)
Definition SIGNAL_NAMES : list (Z * string) :=
  [(1, "DOCK_REQUEST"); (2, "DOCK_APPROVED"); (3, "DOCK_REJECTED");
   (4, "HEARTBEAT"); (5, "UNDOCK");
   (80, "RELAY_REQUEST"); (81, "RELAY_RESPONSE"); (82, "RELAY_FAILED");
   (83, "BUFFER_FLUSH"); (84, "BUFFER_RETRY");
   (241, "PING"); (242, "PONG"); (240, "ERROR"); (255, "SHUTDOWN")].

Fixpoint name_of (signalType : Z) (names : list (Z * string)) : option string :=
  match names with
  | [] => None
  | (code, name) :: names' =>
      if code =? signalType then Some name else name_of signalType names'
  end.

(** [getSignalName(signalType)] for an integer signal type; every name
    of the table is a non-empty text. *)
Definition getSignalName (toUpperCase : string -> string) (signalType : Z)
  : string :=
  match name_of signalType SIGNAL_NAMES with
  | Some name => name
  | None => ("UNKNOWN_0x" ++ toUpperCase (toString16 signalType))%string
  end.

(** The table [mapping] of [mapTypeStringToNumber]. *)
Definition TYPE_CODES : list (string * Z) :=
  [("HEARTBEAT", 4); ("DOCK_REQUEST", 1); ("DOCK_APPROVED", 2);
   ("DOCK_REJECTED", 3); ("UNDOCK", 5);
   ("RELAY_REQUEST", 80); ("RELAY_RESPONSE", 81); ("RELAY_FAILED", 82);
   ("PING", 241); ("PONG", 242); ("ERROR", 240); ("SHUTDOWN", 255)].

Fixpoint code_of (name : string) (codes : list (string * Z)) : option Z :=
  match codes with
  | [] => None
  | (name', code) :: codes' =>
      if String.eqb name' name then Some code else code_of name codes'
  end.

(** [mapTypeStringToNumber(typeStr)]: every code of the table is
    truthy.  The properties that a plain object inherits all have a
    lower-case letter in their name, which no upper-cased text has. *)
Definition mapTypeStringToNumber (toUpperCase : string -> string)
           (typeStr : string) : Z :=
  match code_of (toUpperCase typeStr) TYPE_CODES with
  | Some code => code
  | None => 0
  end.

(** [encodeTextMessage(type, sender, payload)] at clock reading [now]:
    the text [TYPE:SENDER:PAYLOAD:TIMESTAMP]. *)
Definition encodeTextMessage (now : Z) (type sender : string) (payload : json)
  : Buffer :=
  (type ++ ":" ++ sender ++ ":" ++ stringify payload ++ ":"
        ++ string_of_Z now)%string.

End Protocol.

(* ------------------------------------------------------------------ *)
(** ** Tumbler (interlock/tumbler.js) *)
(* ------------------------------------------------------------------ *)

Module Tumbler.

Record TumblerConfig : Type := {
  allowedPeers : list string;
  allowedSignals : list Z
}.

(** [allowedPeers.includes(sender)] for the value found under [sender]. *)
Definition includes_sender (peers : list string) (sender : json) : bool :=
  match sender with
  | JStr s => existsb (String.eqb s) peers
  | _ => false
  end.

Definition includes_signal (signals : list Z) (signalType : Z) : bool :=
  existsb (Z.eqb signalType) signals.

(** [message.timestamp * 1000]. *)
Definition times_1000 (x : number) : number :=
  match x with
  | Finite n => Finite (n * 1000)
  | NaN => NaN
  | Infinite negative => Infinite negative
  end.

(** [Date.now() - messageTime]. *)
Definition age_at (now : Z) (messageTime : number) : number :=
  match messageTime with
  | Finite t => Finite (now - t)
  | NaN => NaN
  | Infinite negative => Infinite (negb negative)
  end.

(** [x > bound] and [x < bound] for an integer [bound]: a comparison
    with [NaN] is false. *)
Definition greater (x : number) (bound : Z) : bool :=
  match x with
  | Finite n => n >? bound
  | NaN => false
  | Infinite negative => negb negative
  end.

Definition less (x : number) (bound : Z) : bool :=
  match x with
  | Finite n => n <? bound
  | NaN => false
  | Infinite negative => negative
  end.

(** [validateMessage(message)] at clock reading [now].  The body of the
    sender test is commented out in the source: both of its branches
    go on to the signal and freshness tests. *)
Definition validateMessage (config : TumblerConfig) (now : Z)
           (message : Protocol.InterLockMessage) : bool :=
  let sender := obj_get "sender" (Protocol.payload message) in
  let unknown_sender :=
    negb (Nat.eqb (List.length (allowedPeers config)) 0)
    && match sender with
       | Some v => truthy v && negb (includes_sender (allowedPeers config) v)
       | None => false
       end in
  let checks :=
    if negb (Nat.eqb (List.length (allowedSignals config)) 0)
       && negb (includes_signal (allowedSignals config)
                                (Protocol.signalType message))
    then false
    else
      let messageTime := times_1000 (Protocol.timestamp message) in
      let age := age_at now messageTime in
      if greater age (5 * 60 * 1000) || less age (-60000)
      then false else true in
  if unknown_sender then checks else checks.

(** The number [initTumbler] makes of one entry of [signals]: a text
    that starts with [0x] goes through [parseInt(s, 16)], [None] being
    [NaN]; a number is kept; anything else counts as 0. *)
Definition signal_number (s : json) : option Z :=
  match s with
  | JStr (String "0" (String "x" digits)) => parseInt16 digits
  | JNum n => Some n
  | _ => Some 0
  end.

(** [initTumbler(peers, signals)]: the configuration it installs. *)
Definition initTumbler (peers : list string) (signals : list json)
  : TumblerConfig :=
  {| allowedPeers := peers;
     allowedSignals :=
       flat_map (fun s => match signal_number s with
                          | Some n => if n >? 0 then [n] else []
                          | None => []
                          end) signals |}.

End Tumbler.

(* ------------------------------------------------------------------ *)
(** ** Rows of the store (types.ts) *)
(* ------------------------------------------------------------------ *)

Inductive SignalPriority : Type := low | normal | high | urgent.

Inductive BufferStatus : Type := pending | delivered | expired | failed.

(** The text stored in the [priority TEXT] column. *)
Definition priority_text (p : SignalPriority) : string :=
  match p with
  | low => "low"
  | normal => "normal"
  | high => "high"
  | urgent => "urgent"
  end.

Definition status_eq_dec (a b : BufferStatus) : {a = b} + {a <> b}.
Proof. decide equality. Defined.

Definition status_eqb (a b : BufferStatus) : bool :=
  match a, b with
  | pending, pending | delivered, delivered
  | expired, expired | failed, failed => true
  | _, _ => false
  end.

Module DbSignalBuffer.
Record t : Type := mk {
  id : string;
  signal_type : Z;
  source_server : string;
  target_server : string;
  payload : string;
  priority : SignalPriority;
  buffered_at : Z;
  retry_count : Z;
  last_retry_at : option Z;
  max_retries : Z;
  expires_at : option Z;
  status : BufferStatus
}.

Definition set_status (s : BufferStatus) (b : t) : t :=
  mk (id b) (signal_type b) (source_server b) (target_server b) (payload b)
     (priority b) (buffered_at b) (retry_count b) (last_retry_at b)
     (max_retries b) (expires_at b) s.

Definition bump_retry (now : Z) (b : t) : t :=
  mk (id b) (signal_type b) (source_server b) (target_server b) (payload b)
     (priority b) (buffered_at b) (retry_count b + 1) (Some now)
     (max_retries b) (expires_at b) (status b).
End DbSignalBuffer.

Module DbSignalRelay.
Record t : Type := mk {
  id : string;
  signal_type : Z;
  source_server : string;
  target_servers : string;
  payload : string;
  priority : SignalPriority;
  relayed_at : Z;
  success : Z;
  targets_reached : option string;
  targets_failed : option string;
  latency_ms : option Z;
  error_message : option string
}.
End DbSignalRelay.

Module DbRelayRule.
Record t : Type := mk {
  id : Z;
  signal_pattern : Z;
  source_filter : option string;
  relay_to : string;
  transform : option string;
  priority : Z;
  enabled : Z;
  created_at : Z;
  updated_at : option Z;
  match_count : Z
}.

Definition bump_match (r : t) : t :=
  mk (id r) (signal_pattern r) (source_filter r) (relay_to r) (transform r)
     (priority r) (enabled r) (created_at r) (updated_at r)
     (match_count r + 1).
End DbRelayRule.

Module DbRelayStats.
Record t : Type := mk {
  id : Z;
  period_start : Z;
  signal_type : option Z;
  source_server : option string;
  target_server : option string;
  total_relayed : Z;
  success_count : Z;
  failure_count : Z;
  avg_latency_ms : option Q;
  max_latency_ms : option Z;
  buffered_count : Z
}.
End DbRelayStats.

(* ------------------------------------------------------------------ *)
(** ** The store (database/schema.ts)

    A table is the list of its rows in insertion order.  Every statement
    is a function of the table; a statement that reads [Date.now()]
    takes the reading as an argument. *)
(* ------------------------------------------------------------------ *)

(** [ORDER BY]: a stable insertion sort; rows that compare equal stay in
    table order. *)
Fixpoint insert_sorted {A : Type} (before : A -> A -> bool) (x : A)
         (l : list A) : list A :=
  match l with
  | [] => [x]
  | y :: l' =>
      if before x y then x :: y :: l' else y :: insert_sorted before x l'
  end.

Definition order_by {A : Type} (before : A -> A -> bool) (l : list A)
  : list A :=
  fold_right (insert_sorted before) [] l.

Module Schema.

Definition buffer_table : Type := list DbSignalBuffer.t.

Definition has_id (id : string) (b : DbSignalBuffer.t) : bool :=
  String.eqb (DbSignalBuffer.id b) id.

(** [insertBufferedSignal]; [None] is the constraint error on a primary
    key that is already present. *)
Definition insertBufferedSignal (buffer : DbSignalBuffer.t)
           (table : buffer_table) : option buffer_table :=
  if existsb (has_id (DbSignalBuffer.id buffer)) table then None
  else Some (table ++ [buffer])%list.

Definition getBufferedSignal (id : string) (table : buffer_table)
  : option DbSignalBuffer.t :=
  find (has_id id) table.

(** [ORDER BY buffered_at ASC]. *)
Definition by_buffered_at (a b : DbSignalBuffer.t) : bool :=
  DbSignalBuffer.buffered_at a <=? DbSignalBuffer.buffered_at b.

(** [getPendingBufferedSignals(targetServer?)]: the target filter applies
    to a non-empty target only. *)
Definition getPendingBufferedSignals (targetServer : option string)
           (table : buffer_table) : list DbSignalBuffer.t :=
  let by_target (b : DbSignalBuffer.t) :=
    match targetServer with
    | Some target =>
        if String.eqb target EmptyString then true
        else String.eqb (DbSignalBuffer.target_server b) target
    | None => true
    end in
  order_by by_buffered_at
    (filter (fun b => status_eqb (DbSignalBuffer.status b) pending
                      && by_target b) table).

(** [ORDER BY priority DESC, buffered_at ASC] on the [TEXT] column
    [priority]: the texts are compared byte by byte. *)
Definition by_priority_desc_buffered_at (a b : DbSignalBuffer.t) : bool :=
  let pa := priority_text (DbSignalBuffer.priority a) in
  let pb := priority_text (DbSignalBuffer.priority b) in
  if String.eqb pa pb then by_buffered_at a b else String.ltb pb pa.

(** The [WHERE] clause of [getRetryableBufferedSignals]. *)
Definition retryable (retryAfter now : Z) (b : DbSignalBuffer.t) : bool :=
  status_eqb (DbSignalBuffer.status b) pending
  && match DbSignalBuffer.last_retry_at b with
     | None => true
     | Some t => t <? retryAfter
     end
  && (DbSignalBuffer.retry_count b <? DbSignalBuffer.max_retries b)
  && match DbSignalBuffer.expires_at b with
     | None => true
     | Some e => e >? now
     end.

Definition getRetryableBufferedSignals (retryAfter now : Z)
           (table : buffer_table) : list DbSignalBuffer.t :=
  order_by by_priority_desc_buffered_at (filter (retryable retryAfter now) table).

Definition updateBufferedSignalStatus (id : string) (status : BufferStatus)
           (table : buffer_table) : bool * buffer_table :=
  (existsb (has_id id) table,
   map (fun b => if has_id id b then DbSignalBuffer.set_status status b else b)
       table).

Definition incrementBufferRetryCount (id : string) (now : Z)
           (table : buffer_table) : buffer_table :=
  map (fun b => if has_id id b then DbSignalBuffer.bump_retry now b else b)
      table.

Definition deleteBufferedSignal (id : string) (table : buffer_table)
  : bool * buffer_table :=
  (existsb (has_id id) table, filter (fun b => negb (has_id id b)) table).

Definition deleteBufferedSignalsByTarget (targetServer : string)
           (table : buffer_table) : Z * buffer_table :=
  let hit (b : DbSignalBuffer.t) :=
    String.eqb (DbSignalBuffer.target_server b) targetServer in
  (Z.of_nat (List.length (filter hit table)),
   filter (fun b => negb (hit b)) table).

Record BufferStats : Type := {
  stats_pending : Z;
  stats_delivered : Z;
  stats_expired : Z;
  stats_failed : Z
}.

Definition count_status (s : BufferStatus) (table : buffer_table) : Z :=
  Z.of_nat (List.length
              (filter (fun b => status_eqb (DbSignalBuffer.status b) s) table)).

Definition getBufferStats (table : buffer_table) : BufferStats :=
  {| stats_pending := count_status pending table;
     stats_delivered := count_status delivered table;
     stats_expired := count_status expired table;
     stats_failed := count_status failed table |}.

(** The [WHERE] clause of [expireOldBufferedSignals]. *)
Definition overdue (now : Z) (b : DbSignalBuffer.t) : bool :=
  status_eqb (DbSignalBuffer.status b) pending
  && match DbSignalBuffer.expires_at b with
     | None => false
     | Some e => e <? now
     end.

Definition expireOldBufferedSignals (now : Z) (table : buffer_table)
  : Z * buffer_table :=
  (Z.of_nat (List.length (filter (overdue now) table)),
   map (fun b => if overdue now b
                 then DbSignalBuffer.set_status expired b else b) table).

(** The table [relay_rules] with the counter that [AUTOINCREMENT] keeps
    for it (its row of [sqlite_sequence]): the largest id ever given. *)
Record rules_db : Type := {
  rules : list DbRelayRule.t;
  rules_sequence : Z
}.

(** The largest row id SQLite can give. *)
Definition MAX_ROWID : Z := 9223372036854775807.




Definition getRelayRule (id : Z) (db : rules_db) : option DbRelayRule.t :=
  find (fun r => DbRelayRule.id r =? id) (rules db).

(** [getAllRelayRules()]: [ORDER BY priority DESC]. *)
Definition getAllRelayRules (db : rules_db) : list DbRelayRule.t :=
  order_by (fun a b => DbRelayRule.priority b <=? DbRelayRule.priority a)
           (rules db).

(** The [Partial<DbRelayRule>] that [updateRelayRule] reads: [None] is
    [undefined]; for the two nullable columns, [Some None] is [null]. *)
Record RuleUpdates : Type := {
  set_signal_pattern : option Z;
  set_source_filter : option (option string);
  set_relay_to : option string;
  set_transform : option (option string);
  set_priority : option Z;
  set_enabled : option Z
}.

Definition updated_rule (updates : RuleUpdates) (now : Z) (r : DbRelayRule.t)
  : DbRelayRule.t :=
  let or_keep {A : Type} (new : option A) (old : A) : A :=
    match new with Some x => x | None => old end in
  DbRelayRule.mk (DbRelayRule.id r)
    (or_keep (set_signal_pattern updates) (DbRelayRule.signal_pattern r))
    (or_keep (set_source_filter updates) (DbRelayRule.source_filter r))
    (or_keep (set_relay_to updates) (DbRelayRule.relay_to r))
    (or_keep (set_transform updates) (DbRelayRule.transform r))
    (or_keep (set_priority updates) (DbRelayRule.priority r))
    (or_keep (set_enabled updates) (DbRelayRule.enabled r))
    (DbRelayRule.created_at r) (Some now) (DbRelayRule.match_count r).

(** [updateRelayRule(id, updates)] at clock reading [now]: the [SET]
    clause always ends with [updated_at = ?]. *)
Definition updateRelayRule (id : Z) (updates : RuleUpdates) (now : Z)
           (db : rules_db) : bool * rules_db :=
  (existsb (fun r => DbRelayRule.id r =? id) (rules db),
   {| rules := map (fun r => if DbRelayRule.id r =? id
                             then updated_rule updates now r else r)
                   (rules db);
      rules_sequence := rules_sequence db |}).


(** [getSignalRelayHistory(since, limit)]: [WHERE relayed_at >= ? ORDER
    BY relayed_at DESC LIMIT ?]; a negative limit is no limit. *)
Definition getSignalRelayHistory (since limit : Z)
           (table : list DbSignalRelay.t) : list DbSignalRelay.t :=
  let rows :=
    order_by (fun a b => DbSignalRelay.relayed_at b <=? DbSignalRelay.relayed_at a)
             (filter (fun r => DbSignalRelay.relayed_at r >=? since) table) in
  if limit <? 0 then rows else firstn (Z.to_nat limit) rows.

(** The table [relay_stats] with its [AUTOINCREMENT] counter. *)
Record stats_db : Type := {
  stats : list DbRelayStats.t;
  stats_sequence : Z
}.

Definition largest_stats_id (table : list DbRelayStats.t) : Z :=
  fold_right Z.max 0 (map DbRelayStats.id table).

Definition with_stats_id (id : Z) (r : DbRelayStats.t) : DbRelayStats.t :=
  DbRelayStats.mk id (DbRelayStats.period_start r) (DbRelayStats.signal_type r)
                  (DbRelayStats.source_server r) (DbRelayStats.target_server r)
                  (DbRelayStats.total_relayed r) (DbRelayStats.success_count r)
                  (DbRelayStats.failure_count r) (DbRelayStats.avg_latency_ms r)
                  (DbRelayStats.max_latency_ms r) (DbRelayStats.buffered_count r).

(** [insertRelayStats(stats)], the id of [stats] being left out; [None]
    is the error SQLite raises when row ids are exhausted. *)
Definition insertRelayStats (row : DbRelayStats.t) (db : stats_db)
  : option (Z * stats_db) :=
  let id := Z.max (stats_sequence db) (largest_stats_id (stats db)) + 1 in
  if id >? MAX_ROWID then None
  else Some (id, {| stats := (stats db ++ [with_stats_id id row])%list;
                    stats_sequence := id |}).

End Schema.

(* ------------------------------------------------------------------ *)
(** ** The process: clock, identifiers, socket, and the state they and
    the store make up *)
(* ------------------------------------------------------------------ *)

(** What the environment decides: the successive readings of
    [Date.now()], the successive results of [uuidv4()], whether the n-th
    [udpSocket.send] reports success, and the verdict of a regular
    expression on a string ([None] when the pattern does not compile);
    and the library function [new Date(ms).toISOString()]. *)
Record Runtime : Type := {
  clock : nat -> Z;
  uuid : nat -> string;
  send_ok : nat -> bool;
  regex_test : string -> string -> option bool;
  toISOString : Z -> string
}.

Record World : Type := mkWorld {
  signal_relays : list DbSignalRelay.t;
  relay_rules : list DbRelayRule.t;
  signal_buffer : list DbSignalBuffer.t;
  relay_stats : list DbRelayStats.t;
  clock_reads : nat;
  uuid_draws : nat;
  send_calls : nat;
  wire : list (Z * Buffer)
}.

Definition set_signal_buffer (table : list DbSignalBuffer.t) (w : World)
  : World :=
  mkWorld (signal_relays w) (relay_rules w) table (relay_stats w)
          (clock_reads w)
          (uuid_draws w) (send_calls w) (wire w).

Definition set_signal_relays (table : list DbSignalRelay.t) (w : World)
  : World :=
  mkWorld table (relay_rules w) (signal_buffer w) (relay_stats w) (clock_reads w)
          (uuid_draws w) (send_calls w) (wire w).

Definition set_relay_rules (table : list DbRelayRule.t) (w : World) : World :=
  mkWorld (signal_relays w) table (signal_buffer w) (relay_stats w) (clock_reads w)
          (uuid_draws w) (send_calls w) (wire w).

(** A computation: a result, or [None] for a thrown exception, and the
    state it leaves. *)
Definition M (A : Type) : Type := World -> option A * World.

Definition ret {A : Type} (a : A) : M A := fun w => (Some a, w).

Definition throw {A : Type} : M A := fun w => (None, w).

Definition bind {A B : Type} (m : M A) (k : A -> M B) : M B :=
  fun w =>
    match m w with
    | (Some a, w') => k a w'
    | (None, w') => (None, w')
    end.

Notation "x <- m ;; k" := (bind m (fun x => k))
  (at level 61, m at next level, right associativity).
Notation "m ;;; k" := (bind m (fun _ => k))
  (at level 61, right associativity).

(** [Date.now()]. *)
Definition now (rt : Runtime) : M Z :=
  fun w =>
    (Some (clock rt (clock_reads w)),
     mkWorld (signal_relays w) (relay_rules w) (signal_buffer w)
             (relay_stats w) (S (clock_reads w)) (uuid_draws w) (send_calls w) (wire w)).

(** [uuidv4()]. *)
Definition uuidv4 (rt : Runtime) : M string :=
  fun w =>
    (Some (uuid rt (uuid_draws w)),
     mkWorld (signal_relays w) (relay_rules w) (signal_buffer w)
             (relay_stats w) (clock_reads w) (S (uuid_draws w)) (send_calls w) (wire w)).

(** [udpSocket.send(message, port, 'localhost', callback)] for a port
    that the socket accepts (see [Engine.valid_port]): the datagram goes
    on the wire log, the callback receives the verdict. *)
Definition udp_send (rt : Runtime) (message : Buffer) (port : Z) : M bool :=
  fun w =>
    (Some (send_ok rt (send_calls w)),
     mkWorld (signal_relays w) (relay_rules w) (signal_buffer w)
             (relay_stats w) (clock_reads w) (uuid_draws w) (S (send_calls w))
             (wire w ++ [(port, message)])%list).

Definition read_buffer {A : Type} (q : list DbSignalBuffer.t -> A) : M A :=
  fun w => (Some (q (signal_buffer w)), w).

Definition write_buffer (f : list DbSignalBuffer.t -> list DbSignalBuffer.t)
  : M unit :=
  fun w => (Some tt, set_signal_buffer (f (signal_buffer w)) w).

(** A statement that returns a value and a new table. *)
Definition run_buffer {A : Type}
           (f : list DbSignalBuffer.t -> A * list DbSignalBuffer.t) : M A :=
  fun w =>
    let (a, table) := f (signal_buffer w) in
    (Some a, set_signal_buffer table w).

(** [for (const x of l) { acc = body(acc, x) }]. *)
Fixpoint for_each {A S : Type} (l : list A) (acc : S)
         (body : S -> A -> M S) : M S :=
  match l with
  | [] => ret acc
  | x :: l' => acc' <- body acc x ;; for_each l' acc' body
  end.

(** [a[i]] for a possibly negative index; [None] is [undefined]. *)
Definition js_index {A : Type} (l : list A) (i : Z) : option A :=
  if i <? 0 then None else nth_error l (Z.to_nat i).

(** [new Date(ms).toISOString()]: [None] is the [RangeError] outside
    the range of time values, 100 000 000 days either side of the
    epoch. *)
Definition MAX_TIME_VALUE : Z := 8640000000000000.

Definition Date_toISOString (rt : Runtime) (ms : Z) : option string :=
  if (- MAX_TIME_VALUE <=? ms) && (ms <=? MAX_TIME_VALUE)
  then Some (toISOString rt ms)
  else None.

(** A value, or the exception that [None] stands for. *)
Definition lift {A : Type} (o : option A) : M A :=
  match o with
  | Some a => ret a
  | None => throw
  end.

(** [l.map(f)] for a callback that may throw. *)
Definition map_M {A B : Type} (f : A -> M B) (l : list A) : M (list B) :=
  for_each l [] (fun done x => y <- f x ;; ret (done ++ [y])%list).

(** The same for a callback without effect, [None] being its exception. *)
Fixpoint map_option {A B : Type} (f : A -> option B) (l : list A)
  : option (list B) :=
  match l with
  | [] => Some []
  | x :: l' =>
      match f x with
      | Some y =>
          match map_option f l' with
          | Some ys => Some (y :: ys)
          | None => None
          end
      | None => None
      end
  end.

(** [cleanupOldData(retentionDays)] of the database: three [DELETE]
    statements with one cutoff; a pending row of the buffer stays
    whatever its age. *)
Definition cleanupOldData (rt : Runtime) (retentionDays : Z) : M unit :=
  t <- now rt ;;
  let cutoff := t - retentionDays * 24 * 60 * 60 * 1000 in
  fun w =>
    (Some tt,
     mkWorld
       (filter (fun r => negb (DbSignalRelay.relayed_at r <? cutoff))
               (signal_relays w))
       (relay_rules w)
       (filter (fun b =>
                  negb (negb (status_eqb (DbSignalBuffer.status b) pending)
                        && (DbSignalBuffer.buffered_at b <? cutoff)))
               (signal_buffer w))
       (filter (fun s => negb (DbRelayStats.period_start s <? cutoff))
               (relay_stats w))
       (clock_reads w) (uuid_draws w) (send_calls w) (wire w)).

(* ------------------------------------------------------------------ *)
(** ** Buffer manager (relay/buffer-manager.ts) *)
(* ------------------------------------------------------------------ *)

Module BufferManager.

Definition RETRY_INTERVALS : list Z := [1000; 5000; 15000].
Definition DEFAULT_TTL_HOURS : Z := 24.
Definition MAX_RETRIES : Z := 3.

(** The module variable [deliveryCallback]: [None] until
    [setDeliveryCallback] installs one.  The outcome of the callback is
    given per row handed to it: [Some success] is the value its promise
    resolves to, [None] a promise that rejects (or a callback that
    throws).  No loop catches a rejection: [await deliveryCallback(buffer)]
    passes it on to the caller. *)
Definition DeliveryCallback : Type :=
  option (DbSignalBuffer.t -> option bool).

(** [bufferSignal(signalType, sourceServer, targetServer, payload,
    priority = 'normal', ttlHours = DEFAULT_TTL_HOURS)]. *)
Definition bufferSignal (rt : Runtime) (signalType : Z)
           (sourceServer targetServer : string) (payload : object)
           (priority : option SignalPriority) (ttlHours : option Z)
  : M string :=
  let priority := match priority with Some p => p | None => normal end in
  let ttlHours :=
    match ttlHours with Some h => h | None => DEFAULT_TTL_HOURS end in
  bufferId <- uuidv4 rt ;;
  buffered_at <- now rt ;;
  expiry_base <- now rt ;;
  let buffer :=
    DbSignalBuffer.mk bufferId signalType sourceServer targetServer
      (stringify (JObj payload)) priority buffered_at 0 None MAX_RETRIES
      (Some (expiry_base + ttlHours * 60 * 60 * 1000)) pending in
  inserted <- read_buffer (Schema.insertBufferedSignal buffer) ;;
  match inserted with
  | Some table => write_buffer (fun _ => table) ;;; ret bufferId
  | None => throw
  end.

Record ProcessResult : Type := {
  retried : Z;
  delivered_count : Z;
  failed_count : Z;
  expired_count : Z
}.

(** [buffer.last_retry_at || buffer.buffered_at]. *)
Definition lastRetry (buffer : DbSignalBuffer.t) : Z :=
  match DbSignalBuffer.last_retry_at buffer with
  | Some t => if t =? 0 then DbSignalBuffer.buffered_at buffer else t
  | None => DbSignalBuffer.buffered_at buffer
  end.

Definition retryInterval (buffer : DbSignalBuffer.t) : option Z :=
  js_index RETRY_INTERVALS
    (Z.min (DbSignalBuffer.retry_count buffer)
           (Z.of_nat (List.length RETRY_INTERVALS) - 1)).

(** [Date.now() - lastRetry < retryInterval]; a comparison with
    [undefined] is false. *)
Definition too_early (t : Z) (buffer : DbSignalBuffer.t) : bool :=
  match retryInterval buffer with
  | Some interval => t - lastRetry buffer <? interval
  | None => false
  end.

(** The body of the loop of [processBuffer]; the counters are
    [(retried, delivered, failed)], the last two written [nDelivered]
    and [nFailed] here. *)
Definition process_one (rt : Runtime) (deliveryCallback : DeliveryCallback)
           (counters : Z * Z * Z) (buffer : DbSignalBuffer.t)
  : M (Z * Z * Z) :=
  let '(retried, nDelivered, nFailed) := counters in
  t <- now rt ;;
  if too_early t buffer then ret counters
  else
    let retried := retried + 1 in
    match deliveryCallback with
    | None => ret (retried, nDelivered, nFailed)
    | Some callback =>
        match callback buffer with
        | Some true =>
            run_buffer (Schema.updateBufferedSignalStatus
                          (DbSignalBuffer.id buffer) delivered) ;;;
            ret (retried, nDelivered + 1, nFailed)
        | Some false =>
            t' <- now rt ;;
            write_buffer (Schema.incrementBufferRetryCount
                            (DbSignalBuffer.id buffer) t') ;;;
            if DbSignalBuffer.retry_count buffer + 1
               >=? DbSignalBuffer.max_retries buffer
            then
              run_buffer (Schema.updateBufferedSignalStatus
                            (DbSignalBuffer.id buffer) failed) ;;;
              ret (retried, nDelivered, nFailed + 1)
            else ret (retried, nDelivered, nFailed)
        | None => throw
        end
    end.

(** [processBuffer()]. *)
Definition processBuffer (rt : Runtime) (deliveryCallback : DeliveryCallback)
  : M ProcessResult :=
  t0 <- now rt ;;
  expired <- run_buffer (Schema.expireOldBufferedSignals t0) ;;
  t1 <- now rt ;;
  let minRetryTime :=
    t1 - match js_index RETRY_INTERVALS 0 with Some i => i | None => 0 end in
  t2 <- now rt ;;
  pending <- read_buffer (Schema.getRetryableBufferedSignals minRetryTime t2) ;;
  counters <- for_each pending (0, 0, 0) (process_one rt deliveryCallback) ;;
  let '(retried, nDelivered, nFailed) := counters in
  ret {| retried := retried; delivered_count := nDelivered;
         failed_count := nFailed; expired_count := expired |}.

(** The body of the loop of [retryBufferedSignals]; the counters are
    [(attempted, delivered, failed)]. *)
Definition retry_one (rt : Runtime) (deliveryCallback : DeliveryCallback)
           (counters : Z * Z * Z) (id : string) : M (Z * Z * Z) :=
  let '(attempted, nDelivered, nFailed) := counters in
  found <- read_buffer (Schema.getBufferedSignal id) ;;
  match found with
  | None => ret counters
  | Some buffer =>
      if negb (status_eqb (DbSignalBuffer.status buffer) pending)
      then ret counters
      else
        let attempted := attempted + 1 in
        match deliveryCallback with
        | None => ret (attempted, nDelivered, nFailed)
        | Some callback =>
            match callback buffer with
            | Some true =>
                run_buffer (Schema.updateBufferedSignalStatus id delivered) ;;;
                ret (attempted, nDelivered + 1, nFailed)
            | Some false =>
                t <- now rt ;;
                write_buffer (Schema.incrementBufferRetryCount id t) ;;;
                ret (attempted, nDelivered, nFailed + 1)
            | None => throw
            end
        end
  end.

(** [retryBufferedSignals(bufferIds)]. *)
Definition retryBufferedSignals (rt : Runtime)
           (deliveryCallback : DeliveryCallback) (bufferIds : list string)
  : M (Z * Z * Z) :=
  for_each bufferIds (0, 0, 0) (retry_one rt deliveryCallback).

Record ClearOptions : Type := {
  bufferIds : option (list string);
  targetServer : option string;
  signalType : option Z;
  maxAgeHours : option Z
}.

(** [clearBufferedSignals(options)]. *)
Definition clearBufferedSignals (options : ClearOptions) : M Z :=
  match bufferIds options with
  | Some (id0 :: ids) =>
      for_each (id0 :: ids) 0
        (fun cleared id =>
           removed <- run_buffer (Schema.deleteBufferedSignal id) ;;
           ret (if removed : bool then cleared + 1 else cleared))
  | _ =>
      match targetServer options with
      | Some target =>
          if String.eqb target EmptyString then ret 0
          else run_buffer (Schema.deleteBufferedSignalsByTarget target)
      | None => ret 0
      end
  end.

(** The body of the loop of [flushBuffer]; the counters are
    [(flushed, delivered, failed)]. *)
Definition flush_one (deliveryCallback : DeliveryCallback)
           (counters : Z * Z * Z) (buffer : DbSignalBuffer.t)
  : M (Z * Z * Z) :=
  let '(flushed, nDelivered, nFailed) := counters in
  let flushed := flushed + 1 in
  match deliveryCallback with
  | None => ret (flushed, nDelivered, nFailed)
  | Some callback =>
      match callback buffer with
      | Some true =>
          run_buffer (Schema.updateBufferedSignalStatus
                        (DbSignalBuffer.id buffer) delivered) ;;;
          ret (flushed, nDelivered + 1, nFailed)
      | Some false =>
          run_buffer (Schema.updateBufferedSignalStatus
                        (DbSignalBuffer.id buffer) failed) ;;;
          ret (flushed, nDelivered, nFailed + 1)
      | None => throw
      end
  end.

(** [flushBuffer(targetServer?)]. *)
Definition flushBuffer (deliveryCallback : DeliveryCallback)
           (targetServer : option string) : M (Z * Z * Z) :=
  pending <- read_buffer (Schema.getPendingBufferedSignals targetServer) ;;
  for_each pending (0, 0, 0) (flush_one deliveryCallback).

Definition getBufferStats : M Schema.BufferStats :=
  read_buffer Schema.getBufferStats.

(** An element of the list [getPendingBuffers] returns. *)
Record BufferItem : Type := {
  item_id : string;
  item_signal_type : Z;
  item_source_server : string;
  item_target_server : string;
  item_payload : json;
  item_priority : SignalPriority;
  item_buffered_at : string;
  item_retry_count : Z;
  item_status : BufferStatus
}.

(** The callback of [buffers.map] in [getPendingBuffers]: [JSON.parse]
    throws on a payload that is not JSON text. *)
Definition toBufferItem (rt : Runtime) (b : DbSignalBuffer.t) : M BufferItem :=
  match JSON_parse (DbSignalBuffer.payload b) with
  | Some parsed =>
      buffered_at <- lift (Date_toISOString rt (DbSignalBuffer.buffered_at b)) ;;
      ret {| item_id := DbSignalBuffer.id b;
             item_signal_type := DbSignalBuffer.signal_type b;
             item_source_server := DbSignalBuffer.source_server b;
             item_target_server := DbSignalBuffer.target_server b;
             item_payload := parsed;
             item_priority := DbSignalBuffer.priority b;
             item_buffered_at := buffered_at;
             item_retry_count := DbSignalBuffer.retry_count b;
             item_status := DbSignalBuffer.status b |}
  | None => throw
  end.

(** [getPendingBuffers(targetServer?)]. *)
Definition getPendingBuffers (rt : Runtime) (targetServer : option string)
  : M (list BufferItem) :=
  buffers <- read_buffer (Schema.getPendingBufferedSignals targetServer) ;;
  map_M (toBufferItem rt) buffers.

End BufferManager.

(* ------------------------------------------------------------------ *)
(** ** Tool [buffer_signals] (tools/buffer-signals.js)

    The input is the value the schema has validated. *)
(* ------------------------------------------------------------------ *)

Module BufferSignals.

Inductive Action : Type := list_action | retry | clear | flush.

Record Input : Type := {
  action : Action;
  target_server : option string;
  signal_type : option Z;
  max_age_hours : option Z;
  buffer_ids : option (list string)
}.

Record Output : Type := {
  out_action : Action;
  affected_count : Z;
  buffer_items : option (list BufferManager.BufferItem)
}.

(** [handleBufferSignals(args)] after validation.  [Date_getTime] is
    [new Date(text).getTime()], [None] standing for [NaN]. *)
Definition handleBufferSignals (rt : Runtime)
           (Date_getTime : string -> option Z)
           (deliveryCallback : BufferManager.DeliveryCallback)
           (input : Input) : M Output :=
  match action input with
  | list_action =>
      items <- BufferManager.getPendingBuffers rt (target_server input) ;;
      let filtered :=
        match signal_type input with
        | Some st =>
            filter (fun i => BufferManager.item_signal_type i =? st) items
        | None => items
        end in
      filtered <-
        match max_age_hours input with
        | Some hours =>
            t <- now rt ;;
            let cutoff := t - hours * 60 * 60 * 1000 in
            ret (filter (fun i =>
                           match Date_getTime
                                   (BufferManager.item_buffered_at i) with
                           | Some ms => ms >=? cutoff
                           | None => false
                           end) filtered)
        | None => ret filtered
        end ;;
      ret {| out_action := list_action;
             affected_count := Z.of_nat (List.length filtered);
             buffer_items := Some filtered |}
  | retry =>
      match buffer_ids input with
      | Some (id0 :: ids) =>
          result <- BufferManager.retryBufferedSignals
                      rt deliveryCallback (id0 :: ids) ;;
          let '(_, nDelivered, _) := result in
          ret {| out_action := retry;
                 affected_count := nDelivered;
                 buffer_items := None |}
      | _ => throw
      end
  | clear =>
      cleared <- BufferManager.clearBufferedSignals
                   {| BufferManager.bufferIds := buffer_ids input;
                      BufferManager.targetServer := target_server input;
                      BufferManager.signalType := signal_type input;
                      BufferManager.maxAgeHours := max_age_hours input |} ;;
      ret {| out_action := clear;
             affected_count := cleared;
             buffer_items := None |}
  | flush =>
      result <- BufferManager.flushBuffer deliveryCallback
                  (target_server input) ;;
      let '(_, nDelivered, _) := result in
      ret {| out_action := flush;
             affected_count := nDelivered;
             buffer_items := None |}
  end.

End BufferSignals.

(* ------------------------------------------------------------------ *)
(** ** Stats aggregator: the query (relay/stats-aggregator.ts)

    Rates and averages are rationals here; the source computes them in
    floating point. *)
(* ------------------------------------------------------------------ *)

Module StatsAggregator.

Inductive GroupByOption : Type :=
| by_signal_type | by_source | by_target | by_hour | by_day.

Record GroupStats : Type := {
  count : Z;
  group_success_rate : Q;
  avg_latency : Q
}.

(** The [buffer_stats] field of the result, as its type declares it. *)
Record BufferStatsView : Type := {
  pending : Z;
  delivered : Z;
  expired : Z
}.

Record Statistics : Type := {
  total_relayed : Z;
  success_rate : Q;
  avg_latency_ms : Q;
  by_group : list (string * GroupStats);
  buffer_stats : BufferStatsView
}.

(** [getRelayStats(since, until?)]: [until] applies when it is given and
    not zero; [ORDER BY period_start DESC]. *)
Definition getRelayStats (since : Z) (until : option Z)
           (table : list DbRelayStats.t) : list DbRelayStats.t :=
  let in_window (r : DbRelayStats.t) :=
    (DbRelayStats.period_start r >=? since)
    && match until with
       | Some u => if u =? 0 then true else DbRelayStats.period_start r <=? u
       | None => true
       end in
  order_by (fun a b => DbRelayStats.period_start b <=? DbRelayStats.period_start a)
           (filter in_window table).

(** [x || 'unknown'] on a nullable text. *)
Definition or_unknown (x : option string) : string :=
  match x with
  | Some s => if String.eqb s EmptyString then "unknown" else s
  | None => "unknown"
  end.

(** The [switch (groupBy)]. *)
Definition groupKey (rt : Runtime) (groupBy : option GroupByOption)
           (stat : DbRelayStats.t) : option string :=
  match groupBy with
  | Some by_signal_type =>
      Some match DbRelayStats.signal_type stat with
           | Some n => ("signal_" ++ string_of_Z n)%string
           | None => "unknown"
           end
  | Some by_source => Some (or_unknown (DbRelayStats.source_server stat))
  | Some by_target => Some (or_unknown (DbRelayStats.target_server stat))
  | Some by_hour =>
      Some (substring 0 13 (toISOString rt (DbRelayStats.period_start stat)))
  | Some by_day =>
      Some (substring 0 10 (toISOString rt (DbRelayStats.period_start stat)))
  | None => None
  end.

(** One bucket of [byGroup]: [{count, success, latencies}]. *)
Definition bucket : Type := (Z * Z * list Q)%type.

Fixpoint bucket_get (k : string) (g : list (string * bucket)) : option bucket :=
  match g with
  | [] => None
  | (k', b) :: g' => if String.eqb k' k then Some b else bucket_get k g'
  end.

Fixpoint bucket_set (k : string) (b : bucket) (g : list (string * bucket))
  : list (string * bucket) :=
  match g with
  | [] => [(k, b)]
  | (k', b') :: g' =>
      if String.eqb k' k then (k, b) :: g' else (k', b') :: bucket_set k b g'
  end.

(** The group of [key] created if need be, then updated, for a key
    that names no inherited member (see [accumulate]). *)
Definition add_to_group (key : string) (stat : DbRelayStats.t)
           (g : list (string * bucket)) : list (string * bucket) :=
  let '(count, success, latencies) :=
    match bucket_get key g with
    | Some b => b
    | None => (0, 0, [])
    end in
  bucket_set key
    (count + DbRelayStats.total_relayed stat,
     success + DbRelayStats.success_count stat,
     match DbRelayStats.avg_latency_ms stat with
     | Some a => (latencies ++ [a])%list
     | None => latencies
     end) g.

Definition Qsum (l : list Q) : Q := fold_left Qplus l (0 # 1)%Q.

Definition rate (success total : Z) : Q :=
  if total >? 0 then (inject_Z success / inject_Z total * inject_Z 100)%Q
  else (0 # 1)%Q.

Definition group_output (b : bucket) : GroupStats :=
  let '(count, success, latencies) := b in
  {| count := count;
     group_success_rate := rate success count;
     avg_latency :=
       match latencies with
       | [] => (0 # 1)%Q
       | _ => (Qsum latencies / inject_Z (Z.of_nat (List.length latencies)))%Q
       end |}.

(** The accumulators of the loop over the stats rows. *)
Record totals : Type := {
  totalRelayed : Z;
  totalSuccess : Z;
  totalLatency : Q;
  latencyCount : Z;
  byGroup : list (string * bucket)
}.

(** The body of the loop over the statistics rows.  [byGroup] is a
    plain object: under the name of a member it inherits from
    [Object.prototype], [byGroup[groupKey]] is that member, which is
    truthy, so no group is created and the counts are added to the
    member instead.  For such a row with a latency the source then
    throws a [TypeError] (the member has no [latencies]); that
    exception is outside this model, which is exact for every other
    row. *)
Definition accumulate (rt : Runtime) (groupBy : option GroupByOption)
           (acc : totals) (stat : DbRelayStats.t) : totals :=
  let with_latency (a : Q) :=
    ((totalLatency acc + a * inject_Z (DbRelayStats.total_relayed stat))%Q,
     latencyCount acc + DbRelayStats.total_relayed stat) in
  let (latency, samples) :=
    match DbRelayStats.avg_latency_ms stat with
    | Some a => with_latency a
    | None => (totalLatency acc, latencyCount acc)
    end in
  {| totalRelayed := totalRelayed acc + DbRelayStats.total_relayed stat;
     totalSuccess := totalSuccess acc + DbRelayStats.success_count stat;
     totalLatency := latency;
     latencyCount := samples;
     byGroup :=
       match groupKey rt groupBy stat with
       | Some key =>
           if String.eqb key EmptyString then byGroup acc
           else if inherited key then byGroup acc
           else add_to_group key stat (byGroup acc)
       | None => byGroup acc
       end |}.

(** [getRelayStatistics(since, until?, groupBy?, includeFailures = true)]
    on the tables of the store. *)
Definition getRelayStatistics (rt : Runtime) (since : Z) (until : option Z)
           (groupBy : option GroupByOption) (includeFailures : bool)
           (w : World) : Statistics :=
  let stats := getRelayStats since until (relay_stats w) in
  let bufferStats := Schema.getBufferStats (signal_buffer w) in
  let acc :=
    fold_left (accumulate rt groupBy) stats
      {| totalRelayed := 0; totalSuccess := 0; totalLatency := (0 # 1)%Q;
         latencyCount := 0; byGroup := [] |} in
  {| total_relayed := totalRelayed acc;
     success_rate := rate (totalSuccess acc) (totalRelayed acc);
     avg_latency_ms :=
       if latencyCount acc >? 0
       then (totalLatency acc / inject_Z (latencyCount acc))%Q
       else (0 # 1)%Q;
     by_group := map (fun kb => (fst kb, group_output (snd kb))) (byGroup acc);
     buffer_stats :=
       {| pending := Schema.stats_pending bufferStats;
          delivered := Schema.stats_delivered bufferStats;
          expired := Schema.stats_expired bufferStats |} |}.

(** "The result reports the count of failed rows": something computed
    from the result alone is that count, whatever the store holds. *)
Definition reports_failed_count (rt : Runtime) : Prop :=
  exists read : Statistics -> Z,
    forall since until groupBy includeFailures w,
      read (getRelayStatistics rt since until groupBy includeFailures w)
      = Schema.stats_failed (Schema.getBufferStats (signal_buffer w)).

(** *** The hourly aggregation *)

(** [for (const x of value)] on a parsed JSON value: an array yields its
    elements, a text its code points ([code_points] is the iteration of
    a text); [None] is the [TypeError] for a value that is not
    iterable. *)
Definition iterate (code_points : string -> list string) (value : json)
  : option (list json) :=
  match value with
  | JArr l => Some l
  | JStr s => Some (map JStr (code_points s))
  | JNull | JBool _ | JNum _ | JObj _ => None
  end.

(** The comparison of [Array.prototype.includes] between two values that
    come from two calls of [JSON.parse]: two arrays or two objects are
    never the same object. *)
Definition same_value (a b : json) : bool :=
  match a, b with
  | JNull, JNull => true
  | JBool x, JBool y => Bool.eqb x y
  | JNum x, JNum y => x =? y
  | JStr x, JStr y => String.eqb x y
  | _, _ => false
  end.

(** [container.includes(target)]: on an array, membership; on a text,
    the search for [String(target)]; [None] is the [TypeError] for a
    value without a method [includes]. *)
Definition includes (container target : json) : option bool :=
  match container with
  | JArr l => Some (existsb (same_value target) l)
  | JStr s =>
      Some match index 0 (to_js_string target) s with
           | Some _ => true
           | None => false
           end
  | JNull | JBool _ | JNum _ | JObj _ => None
  end.

(** A value of the map [aggregations]. *)
Record Aggregation : Type := {
  agg_signal_type : Z;
  agg_source_server : string;
  agg_target_server : json;
  agg_total_relayed : Z;
  agg_success_count : Z;
  agg_failure_count : Z;
  agg_latencies : list Z;
  agg_buffered_count : Z
}.

(** The map [aggregations]: its entries in insertion order. *)
Definition Aggregations : Type := list (string * Aggregation).

Fixpoint agg_get (k : string) (m : Aggregations) : option Aggregation :=
  match m with
  | [] => None
  | (k', a) :: m' => if String.eqb k' k then Some a else agg_get k m'
  end.

Fixpoint agg_set (k : string) (a : Aggregation) (m : Aggregations)
  : Aggregations :=
  match m with
  | [] => [(k, a)]
  | (k', a') :: m' =>
      if String.eqb k' k then (k, a) :: m' else (k', a') :: agg_set k a m'
  end.

(** [relay.targets_reached ? JSON.parse(relay.targets_reached) : []], and
    the same for [targets_failed]; [None] is the [SyntaxError]. *)
Definition parse_or_empty (text : option string) : option json :=
  match text with
  | Some t => if String.eqb t EmptyString then Some (JArr []) else JSON_parse t
  | None => Some (JArr [])
  end.

(** The body of the loop over the targets of one relay. *)
Definition count_target (relay : DbSignalRelay.t) (reachedList failedList : json)
           (aggregations : Aggregations) (target : json)
  : option Aggregations :=
  let key :=
    (string_of_Z (DbSignalRelay.signal_type relay) ++ ":"
       ++ DbSignalRelay.source_server relay ++ ":" ++ to_js_string target)%string in
  let agg :=
    match agg_get key aggregations with
    | Some a => a
    | None =>
        {| agg_signal_type := DbSignalRelay.signal_type relay;
           agg_source_server := DbSignalRelay.source_server relay;
           agg_target_server := target;
           agg_total_relayed := 0;
           agg_success_count := 0;
           agg_failure_count := 0;
           agg_latencies := [];
           agg_buffered_count := 0 |}
    end in
  match includes reachedList target with
  | Some is_reached =>
      match includes failedList target with
      | Some is_failed =>
          Some (agg_set key
                  {| agg_signal_type := agg_signal_type agg;
                     agg_source_server := agg_source_server agg;
                     agg_target_server := agg_target_server agg;
                     agg_total_relayed := agg_total_relayed agg + 1;
                     agg_success_count :=
                       if is_reached : bool then agg_success_count agg + 1
                       else agg_success_count agg;
                     agg_failure_count :=
                       if is_failed : bool then agg_failure_count agg + 1
                       else agg_failure_count agg;
                     agg_latencies :=
                       match DbSignalRelay.latency_ms relay with
                       | Some ms => (agg_latencies agg ++ [ms])%list
                       | None => agg_latencies agg
                       end;
                     agg_buffered_count := agg_buffered_count agg |}
                  aggregations)
      | None => None
      end
  | None => None
  end.

(** A loop whose body may throw. *)
Fixpoint fold_option {A S : Type} (body : S -> A -> option S) (l : list A)
         (acc : S) : option S :=
  match l with
  | [] => Some acc
  | x :: l' =>
      match body acc x with
      | Some acc' => fold_option body l' acc'
      | None => None
      end
  end.

(** The body of the loop over the relays. *)
Definition count_relay (code_points : string -> list string)
           (aggregations : Aggregations) (relay : DbSignalRelay.t)
  : option Aggregations :=
  match JSON_parse (DbSignalRelay.target_servers relay) with
  | Some targets =>
      match parse_or_empty (DbSignalRelay.targets_reached relay) with
      | Some reachedList =>
          match parse_or_empty (DbSignalRelay.targets_failed relay) with
          | Some failedList =>
              match iterate code_points targets with
              | Some l =>
                  fold_option (count_target relay reachedList failedList) l aggregations
              | None => None
              end
          | None => None
          end
      | None => None
      end
  | None => None
  end.

(** What the statement of [insertRelayStats] stores in the [TEXT] column
    [target_server] for a JSON value: a number is stored as text,
    [number_text] being the text SQLite makes of a number bound to a
    column of [TEXT] affinity; [None] is the [TypeError] of the binding
    for a boolean, an array or an object. *)
Definition bind_text (number_text : Z -> string) (value : json)
  : option (option string) :=
  match value with
  | JStr s => Some (Some s)
  | JNum n => Some (Some (number_text n))
  | JNull => Some None
  | JBool _ | JArr _ | JObj _ => None
  end.

(** The row [aggregateHourlyStats] stores for one value of the map, its
    id left at 0. *)
Definition stats_row (periodStart : Z) (agg : Aggregation)
           (target_server : option string) : DbRelayStats.t :=
  DbRelayStats.mk 0 periodStart (Some (agg_signal_type agg))
    (Some (agg_source_server agg)) target_server
    (agg_total_relayed agg) (agg_success_count agg) (agg_failure_count agg)
    match agg_latencies agg with
    | [] => None
    | _ =>
        Some (inject_Z (fold_left Z.add (agg_latencies agg) 0%Z)
              / inject_Z (Z.of_nat (List.length (agg_latencies agg))))%Q
    end
    match agg_latencies agg with
    | [] => None
    | ms :: more => Some (fold_left Z.max more ms)
    end
    (agg_buffered_count agg).

(** The loop that stores the aggregations: the rows stored before an
    exception stay. *)
Fixpoint store_aggregations (number_text : Z -> string) (periodStart : Z)
         (aggs : list Aggregation) (db : Schema.stats_db)
  : option unit * Schema.stats_db :=
  match aggs with
  | [] => (Some tt, db)
  | agg :: aggs' =>
      match bind_text number_text (agg_target_server agg) with
      | Some target_server =>
          match Schema.insertRelayStats
                  (stats_row periodStart agg target_server) db with
          | Some (_, db') => store_aggregations number_text periodStart aggs' db'
          | None => (None, db)
          end
      | None => (None, db)
      end
  end.

(** The start of the period [aggregateHourlyStats] stores its rows
    under, for a clock reading [now]. *)
Definition periodStart_at (now : Z) : Z :=
  let hourAgo := now - 60 * 60 * 1000 in
  hourAgo / (60 * 60 * 1000) * (60 * 60 * 1000).

(** [aggregateHourlyStats()] at clock reading [now], on the relay
    history and the statistics table; [None] is an exception. *)
Definition aggregateHourlyStats (code_points : string -> list string)
           (number_text : Z -> string) (now : Z)
           (relays : list DbSignalRelay.t) (db : Schema.stats_db)
  : option unit * Schema.stats_db :=
  let periodStart := periodStart_at now in
  match Schema.getSignalRelayHistory periodStart 10000 relays with
  | [] => (Some tt, db)
  | history =>
      match fold_option (count_relay code_points) history [] with
      | Some aggregations =>
          store_aggregations number_text periodStart (map snd aggregations) db
      | None => (None, db)
      end
  end.

(** [cleanupOldStats(retentionDays)]. *)
Definition cleanupOldStats (rt : Runtime) (retentionDays : Z) : M unit :=
  cleanupOldData rt retentionDays.

End StatsAggregator.

(* ------------------------------------------------------------------ *)
(** ** Rule engine: [matchRules] (relay/rule-engine.ts) *)
(* ------------------------------------------------------------------ *)

Module RuleEngine.

(** [getEnabledRelayRules()]: [WHERE enabled = 1 ORDER BY priority DESC]. *)
Definition getEnabledRelayRules (table : list DbRelayRule.t)
  : list DbRelayRule.t :=
  order_by (fun a b => DbRelayRule.priority b <=? DbRelayRule.priority a)
           (filter (fun r => DbRelayRule.enabled r =? 1) table).

Definition incrementRuleMatchCount (id : Z) : M unit :=
  fun w =>
    (Some tt,
     set_relay_rules
       (map (fun r => if DbRelayRule.id r =? id
                      then DbRelayRule.bump_match r else r)
            (relay_rules w)) w).

(** The predicate of the [filter] of [matchRules], with its side effect.
    A pattern that does not compile is caught and the filter skipped. *)
Definition rule_matches (rt : Runtime) (signalType : Z)
           (sourceServer : string) (rule : DbRelayRule.t) : M bool :=
  if negb (DbRelayRule.signal_pattern rule =? signalType) then ret false
  else
    let rejected :=
      match DbRelayRule.source_filter rule with
      | Some pattern =>
          if String.eqb pattern EmptyString then false
          else match regex_test rt pattern sourceServer with
               | Some verdict => negb verdict
               | None => false
               end
      | None => false
      end in
    if rejected then ret false
    else incrementRuleMatchCount (DbRelayRule.id rule) ;;; ret true.

(** [matchRules(signalType, sourceServer)]. *)
Definition matchRules (rt : Runtime) (signalType : Z) (sourceServer : string)
  : M (list DbRelayRule.t) :=
  fun w =>
    for_each (getEnabledRelayRules (relay_rules w)) []
      (fun kept rule =>
         hit <- rule_matches rt signalType sourceServer rule ;;
         ret (if hit : bool then (kept ++ [rule])%list else kept)) w.

(** [Object.entries(value)] for a parsed JSON value; [None] is the
    [TypeError] on [null].  A string yields its characters under their
    indices. *)
Definition entries (value : json) : option object :=
  match value with
  | JObj f => Some f
  | JArr l => Some (array_entries 0 l)
  | JStr s =>
      Some (array_entries 0
              (map (fun c => JStr (String c EmptyString))
                   (list_ascii_of_string s)))
  | JBool _ | JNum _ => Some []
  | JNull => None
  end.



(** The [updates] of [updateRule]; for [sourceFilter] and [transform],
    [Some None] is [null]. *)
Record UpdateOptions : Type := {
  new_signalPattern : option Z;
  new_sourceFilter : option (option string);
  new_relayTo : option (list string);
  new_transform : option (option object);
  new_priority : option Z;
  new_enabled : option bool
}.

(** [updateRule(ruleId, updates)] at clock reading [now]. *)
Definition updateRule (now : Z) (ruleId : Z) (updates : UpdateOptions)
           (db : Schema.rules_db) : bool * Schema.rules_db :=
  Schema.updateRelayRule ruleId
    {| Schema.set_signal_pattern := new_signalPattern updates;
       Schema.set_source_filter := new_sourceFilter updates;
       Schema.set_relay_to :=
         match new_relayTo updates with
         | Some relayTo => Some (stringify (JArr (map JStr relayTo)))
         | None => None
         end;
       Schema.set_transform :=
         match new_transform updates with
         | Some (Some t) => Some (Some (stringify (JObj t)))
         | Some None => Some None
         | None => None
         end;
       Schema.set_priority := new_priority updates;
       Schema.set_enabled :=
         match new_enabled updates with
         | Some true => Some 1
         | Some false => Some 0
         | None => None
         end |} now db.


(** A rule as [listRules] and [getRule] return it. *)
Record RelayRule : Type := {
  rule_id : Z;
  rule_signal_pattern : Z;
  rule_source_filter : option string;
  rule_relay_to : json;
  rule_transform : option json;
  rule_priority : Z;
  rule_enabled : bool;
  rule_created_at : string;
  rule_updated_at : option string;
  rule_match_count : Z
}.

(** The object [listRules] and [getRule] build from a row; [None] is
    the exception of [JSON.parse] or of [toISOString]. *)
Definition toRelayRule (rt : Runtime) (r : DbRelayRule.t) : option RelayRule :=
  match JSON_parse (DbRelayRule.relay_to r) with
  | Some relay_to =>
      match
        match DbRelayRule.transform r with
        | Some text =>
            if String.eqb text EmptyString then Some None
            else match JSON_parse text with
                 | Some t => Some (Some t)
                 | None => None
                 end
        | None => Some None
        end
      with
      | Some transform =>
          match Date_toISOString rt (DbRelayRule.created_at r) with
          | Some created_at =>
              match
                match DbRelayRule.updated_at r with
                | Some t =>
                    if t =? 0 then Some None
                    else match Date_toISOString rt t with
                         | Some text => Some (Some text)
                         | None => None
                         end
                | None => Some None
                end
              with
              | Some updated_at =>
                  Some {| rule_id := DbRelayRule.id r;
                          rule_signal_pattern := DbRelayRule.signal_pattern r;
                          rule_source_filter := DbRelayRule.source_filter r;
                          rule_relay_to := relay_to;
                          rule_transform := transform;
                          rule_priority := DbRelayRule.priority r;
                          rule_enabled := DbRelayRule.enabled r =? 1;
                          rule_created_at := created_at;
                          rule_updated_at := updated_at;
                          rule_match_count := DbRelayRule.match_count r |}
              | None => None
              end
          | None => None
          end
      | None => None
      end
  | None => None
  end.

(** [listRules()]; [None] is an exception. *)
Definition listRules (rt : Runtime) (db : Schema.rules_db)
  : option (list RelayRule) :=
  map_option (toRelayRule rt) (Schema.getAllRelayRules db).


End RuleEngine.

(* ------------------------------------------------------------------ *)
(** ** Delivery engine (relay/engine.js) *)
(* ------------------------------------------------------------------ *)

Module Engine.

Record BufferConfig : Type := {
  max_size : Z;
  ttl_hours : Z;
  retry_intervals_ms : list Z
}.

Record InterlockConfig : Type := {
  port : Z;
  peers : list string;
  peer_ports : list (string * Z);
  signals_incoming : list string;
  signals_outgoing : list string;
  buffer_config : BufferConfig;
  stats_aggregation_interval_ms : Z
}.

(** The module variables [config] and [udpSocket], set together by
    [initRelayEngine]. *)
Record EngineState : Type := {
  config : option InterlockConfig;
  udpSocket : bool
}.

Record RelayRequest : Type := {
  signal_type : Z;
  source_server : string;
  target_servers : list string;
  payload : object;
  priority : SignalPriority;
  buffer_if_offline : bool
}.

Record RelayResult : Type := {
  relay_id : string;
  relayed : bool;
  targets_reached : list string;
  targets_failed : list string;
  targets_buffered : list string;
  latency_ms : Z
}.

(** The port [peer_ports] holds under the key [target]. *)
Fixpoint port_of (target : string) (ports : list (string * Z)) : option Z :=
  match ports with
  | [] => None
  | (name, p) :: ports' =>
      if String.eqb name target then Some p else port_of target ports'
  end.

(** [encodeRelayMessage(signalType, sender, payload, priority)]. *)
Definition encodeRelayMessage (rt : Runtime) (signalType : Z)
           (sender : string) (payload : object) (priority : SignalPriority)
  : M Buffer :=
  timestamp <- now rt ;;
  ret (stringify
         (JObj [("type", JNum signalType);
                ("sender", JStr sender);
                ("payload", JObj payload);
                ("priority", JStr (priority_text priority));
                ("timestamp", JNum timestamp)])).

(** What [udpSocket.send] requires of its port: an integer from 1 to
    65535.  On anything else it throws before it sends. *)
Definition valid_port (p : Z) : bool := (1 <=? p) && (p <=? 65535).

(** [sendToTarget(target, signalType, payload, priority)]: what
    [relaySignal] reads off the settled promise,
    [result.status === 'fulfilled' && result.value].  It is [false] when
    the promise resolves to [false] and when it rejects.  It rejects
    when [udpSocket.send] throws in the executor, after the message is
    built: for a port of [peer_ports] that is no port number, and for a
    target that is no key of [peer_ports] but the name of a member
    inherited from [Object.prototype], which [config.peer_ports[target]]
    finds and which is truthy. *)
Definition sendToTarget (rt : Runtime) (engine : EngineState)
           (target : string) (signalType : Z) (payload : object)
           (priority : SignalPriority) : M bool :=
  match config engine with
  | None => ret false
  | Some cfg =>
      if negb (udpSocket engine) then ret false
      else
        match port_of target (peer_ports cfg) with
        | None =>
            if inherited target then
              encodeRelayMessage rt signalType "synapse-relay"
                                 payload priority ;;;
              ret false
            else ret false
        | Some targetPort =>
            if targetPort =? 0 then ret false
            else
              message <- encodeRelayMessage rt signalType "synapse-relay"
                           payload priority ;;
              if valid_port targetPort then udp_send rt message targetPort
              else ret false
        end
  end.

(** The loop over the matched rules that rewrites the payload. *)
Definition apply_rules (rules : list DbRelayRule.t) (payload : object)
  : M object :=
  for_each rules payload
    (fun payload rule =>
       match DbRelayRule.transform rule with
       | Some text =>
           if String.eqb text EmptyString then ret payload
           else
             match JSON_parse text with
             | Some parsed =>
                 match RuleEngine.entries parsed with
                 | Some transform => ret (applyTransform payload transform)
                 | None => throw
                 end
             | None => throw
             end
       | None => ret payload
       end).

(** The three lists [relaySignal] fills in [results.forEach]. *)
Record Outcome : Type := {
  targetsReached : list string;
  targetsFailed : list string;
  targetsBuffered : list string
}.

(** One iteration of [results.forEach] for a target and the value its
    send settled with. *)
Definition classify (rt : Runtime) (request : RelayRequest) (payload : object)
           (acc : Outcome) (settled : string * bool) : M Outcome :=
  let (target, ok) := settled in
  if ok then
    ret {| targetsReached := (targetsReached acc ++ [target])%list;
           targetsFailed := targetsFailed acc;
           targetsBuffered := targetsBuffered acc |}
  else
    let acc :=
      {| targetsReached := targetsReached acc;
         targetsFailed := (targetsFailed acc ++ [target])%list;
         targetsBuffered := targetsBuffered acc |} in
    if buffer_if_offline request then
      BufferManager.bufferSignal rt (signal_type request)
        (source_server request) target payload (Some (priority request))
        None ;;;
      ret {| targetsReached := targetsReached acc;
             targetsFailed := targetsFailed acc;
             targetsBuffered := (targetsBuffered acc ++ [target])%list |}
    else ret acc.

(** [insertSignalRelay]; [None] is the constraint error on a primary key
    that is already present. *)
Definition insertSignalRelay (relay : DbSignalRelay.t) : M unit :=
  fun w =>
    if existsb (fun r => String.eqb (DbSignalRelay.id r) (DbSignalRelay.id relay))
               (signal_relays w)
    then (None, w)
    else (Some tt, set_signal_relays (signal_relays w ++ [relay])%list w).

Definition json_names (l : list string) : string :=
  stringify (JArr (map JStr l)).

(** [relaySignal(request)]. *)
Definition relaySignal (rt : Runtime) (engine : EngineState)
           (request : RelayRequest) : M RelayResult :=
  startTime <- now rt ;;
  relayId <- uuidv4 rt ;;
  rules <- RuleEngine.matchRules rt (signal_type request)
             (source_server request) ;;
  payload <- apply_rules rules (payload request) ;;
  results <- for_each (target_servers request) []
               (fun settled target =>
                  ok <- sendToTarget rt engine target (signal_type request)
                          payload (priority request) ;;
                  ret (settled ++ [(target, ok)])%list) ;;
  outcome <- for_each results
               {| targetsReached := []; targetsFailed := [];
                  targetsBuffered := [] |}
               (classify rt request payload) ;;
  finished <- now rt ;;
  let latencyMs := finished - startTime in
  relayed_at <- now rt ;;
  let reached_any :=
    negb (Nat.eqb (List.length (targetsReached outcome)) 0) in
  insertSignalRelay
    (DbSignalRelay.mk relayId (signal_type request) (source_server request)
       (json_names (target_servers request)) (stringify (JObj payload))
       (priority request) relayed_at (if reached_any then 1 else 0)
       (Some (json_names (targetsReached outcome)))
       (Some (json_names (targetsFailed outcome)))
       (Some latencyMs) None) ;;;
  ret {| relay_id := relayId;
         relayed := reached_any;
         targets_reached := targetsReached outcome;
         targets_failed := targetsFailed outcome;
         targets_buffered := targetsBuffered outcome;
         latency_ms := latencyMs |}.

(** [getRelayEngineStatus()]. *)
Record EngineStatus : Type := {
  initialized : bool;
  peers_count : Z
}.

Definition getRelayEngineStatus (engine : EngineState) : EngineStatus :=
  {| initialized :=
       match config engine with
       | Some _ => udpSocket engine
       | None => false
       end;
     peers_count :=
       match config engine with
       | Some cfg => Z.of_nat (List.length (map fst (peer_ports cfg)))
       | None => 0
       end |}.

(** [multicastSignal(signalType, sourceServer, payload, priority =
    'normal', excludeTargets = [])]; [Object.keys(config.peer_ports)] is
    the list of the keys of [peer_ports]. *)
Definition multicastSignal (rt : Runtime) (engine : EngineState)
           (signalType : Z) (sourceServer : string) (payload : object)
           (priority : option SignalPriority)
           (excludeTargets : option (list string)) : M RelayResult :=
  let priority := match priority with Some p => p | None => normal end in
  let excludeTargets :=
    match excludeTargets with Some l => l | None => [] end in
  match config engine with
  | None =>
      relayId <- uuidv4 rt ;;
      ret {| relay_id := relayId;
             relayed := false;
             targets_reached := [];
             targets_failed := [];
             targets_buffered := [];
             latency_ms := 0 |}
  | Some cfg =>
      let targets :=
        filter (fun t => negb (existsb (String.eqb t) excludeTargets))
               (map fst (peer_ports cfg)) in
      relaySignal rt engine
        {| signal_type := signalType;
           source_server := sourceServer;
           target_servers := targets;
           payload := payload;
           priority := priority;
           buffer_if_offline := true |}
  end.

End Engine.

(* ------------------------------------------------------------------ *)
(** ** What a computation adds to a log or a table *)
(* ------------------------------------------------------------------ *)

(** Whatever the outcome, the computation only appends to the projected
    list, and what it appends satisfies [P]. *)
Definition extends {A X : Type} (proj : World -> list X) (P : X -> Prop)
           (m : M A) : Prop :=
  forall w, exists new,
      proj (snd (m w)) = (proj w ++ new)%list /\ Forall P new.

(** A datagram of the shape [encodeRelayMessage] produces for a relay of
    the given signal type and priority. *)
Definition relay_datagram (signalType : Z) (priority : SignalPriority)
           (sent : Z * Buffer) : Prop :=
  exists payload timestamp,
    snd sent =
    stringify
      (JObj [("type", JNum signalType);
             ("sender", JStr "synapse-relay");
             ("payload", JObj payload);
             ("priority", JStr (priority_text priority));
             ("timestamp", JNum timestamp)]).

(** A buffer row as the delivery engine creates it: the retry budget and
    the time to live are the constants of the buffer manager, and the
    expiry is counted from the clock reading that follows the one stored
    in [buffered_at]. *)
Definition buffered_by_engine (rt : Runtime) (row : DbSignalBuffer.t) : Prop :=
  DbSignalBuffer.max_retries row = 3 /\
  DbSignalBuffer.retry_count row = 0 /\
  DbSignalBuffer.status row = pending /\
  DbSignalBuffer.last_retry_at row = None /\
  exists n, DbSignalBuffer.buffered_at row = clock rt n /\
            DbSignalBuffer.expires_at row
            = Some (clock rt (S n) + 24 * 3600000).

(** The targets whose send settled with success, and the others, in the
    order of the sends. *)
Definition reached_of (results : list (string * bool)) : list string :=
  map fst (filter snd results).

Definition failed_of (results : list (string * bool)) : list string :=
  map fst (filter (fun r => negb (snd r)) results).

(* ------------------------------------------------------------------ *)
(** ** Invariants of the buffer table *)
(* ------------------------------------------------------------------ *)

(** The primary keys of a table. *)
Definition ids (table : list DbSignalBuffer.t) : list string :=
  map DbSignalBuffer.id table.

(** A row within its retry budget. *)
Definition bounded (b : DbSignalBuffer.t) : Prop :=
  0 <= DbSignalBuffer.retry_count b <= DbSignalBuffer.max_retries b.

(** A statement that rewrites the rows of one id, keeping every id. *)
Definition rewrite_id (i : string) (f : DbSignalBuffer.t -> DbSignalBuffer.t)
           (table : list DbSignalBuffer.t) : list DbSignalBuffer.t :=
  map (fun b => if Schema.has_id i b then f b else b) table.

(** A row that is delivered, failed or expired. *)
Definition terminal (b : DbSignalBuffer.t) : Prop :=
  DbSignalBuffer.status b <> pending.

(** From a state that satisfies [P] the computation ends, with a result
    or with an exception, in a state that satisfies [Q]. *)
Definition hoare {A} (P : World -> Prop) (m : M A) (Q : World -> Prop) : Prop :=
  forall w, P w -> Q (snd (m w)).

(** A property of the buffer table, as a property of the state. *)
Definition on_buffer (T : list DbSignalBuffer.t -> Prop) : World -> Prop :=
  fun w => T (signal_buffer w).

(** The table keeps its ids distinct and still holds the row [b]. *)
Definition holds (b : DbSignalBuffer.t) (table : list DbSignalBuffer.t) : Prop :=
  NoDup (ids table) /\ In b table.

(** Distinct ids, and every row within its retry budget. *)
Definition store_ok (table : list DbSignalBuffer.t) : Prop :=
  NoDup (ids table) /\ Forall bounded table.

(** The invariant of a loop over selected rows [l]: the store is in
    order, the selected rows are distinct rows of the table as they were
    selected, and each has retries left. *)
Definition selected_ok (l table : list DbSignalBuffer.t) : Prop :=
  store_ok table /\ NoDup (ids l) /\
  forall y, In y l ->
            In y table /\
            DbSignalBuffer.retry_count y < DbSignalBuffer.max_retries y.

(* ------------------------------------------------------------------ *)
(** ** A concrete environment for the examples *)
(* ------------------------------------------------------------------ *)

(** A clock that advances by one millisecond per reading, identifiers
    [id-0], [id-1], ..., and a socket whose sends all fail. *)
Definition example_runtime : Runtime :=
  {| clock := fun n => 1700000000000 + Z.of_nat n;
     uuid := fun n => ("id-" ++ string_of_Z (Z.of_nat n))%string;
     send_ok := fun _ => false;
     regex_test := fun _ _ => Some true;
     toISOString := fun _ => "1970-01-01T00:00:00.000Z" |}.

Definition empty_world : World := mkWorld [] [] [] [] 0 0 0 [].

(** A callback under which every delivery fails. *)
Definition never_delivers : BufferManager.DeliveryCallback :=
  Some (fun _ => Some false).

(** Buffer one signal, then retry it by hand four times, every delivery
    failing. *)
Definition four_manual_retries : M (Z * Z * Z) :=
  id <- BufferManager.bufferSignal example_runtime 80 "source" "B"
          [("x", JNum 1)] None None ;;
  BufferManager.retryBufferedSignals example_runtime never_delivers [id] ;;;
  BufferManager.retryBufferedSignals example_runtime never_delivers [id] ;;;
  BufferManager.retryBufferedSignals example_runtime never_delivers [id] ;;;
  BufferManager.retryBufferedSignals example_runtime never_delivers [id].

(** A pending row that has never been retried and never expires. *)
Definition fresh_row (id : string) (signal_type : Z) (target : string)
           (priority : SignalPriority) (buffered_at : Z) : DbSignalBuffer.t :=
  DbSignalBuffer.mk id signal_type "source" target "{}" priority buffered_at
                    0 None 3 None pending.

(** A configuration whose [buffer_config] differs from the defaults. *)
Definition example_config : Engine.InterlockConfig :=
  {| Engine.port := 3025;
     Engine.peers := ["A"; "B"];
     Engine.peer_ports := [("A", 4001); ("B", 4002)];
     Engine.signals_incoming := [];
     Engine.signals_outgoing := [];
     Engine.buffer_config :=
       {| Engine.max_size := 10; Engine.ttl_hours := 1;
          Engine.retry_intervals_ms := [10; 20] |};
     Engine.stats_aggregation_interval_ms := 3600000 |}.

Definition example_engine : Engine.EngineState :=
  {| Engine.config := Some example_config; Engine.udpSocket := true |}.

(** The same environment with a socket whose first send succeeds and
    whose later sends fail. *)
Definition first_send_succeeds : Runtime :=
  {| clock := clock example_runtime;
     uuid := uuid example_runtime;
     send_ok := fun n => Nat.eqb n 0;
     regex_test := regex_test example_runtime;
     toISOString := toISOString example_runtime |}.

Definition example_request (targets : list string) : Engine.RelayRequest :=
  {| Engine.signal_type := 80;
     Engine.source_server := "synapse-relay";
     Engine.target_servers := targets;
     Engine.payload := [("x", JNum 1)];
     Engine.priority := normal;
     Engine.buffer_if_offline := true |}.

(** A configuration with another [buffer_config]. *)
Definition with_buffer_config (bc : Engine.BufferConfig)
           (cfg : Engine.InterlockConfig) : Engine.InterlockConfig :=
  {| Engine.port := Engine.port cfg;
     Engine.peers := Engine.peers cfg;
     Engine.peer_ports := Engine.peer_ports cfg;
     Engine.signals_incoming := Engine.signals_incoming cfg;
     Engine.signals_outgoing := Engine.signals_outgoing cfg;
     Engine.buffer_config := bc;
     Engine.stats_aggregation_interval_ms :=
       Engine.stats_aggregation_interval_ms cfg |}.

(* ------------------------------------------------------------------ *)
(** ** Selections of the buffer table *)
(* ------------------------------------------------------------------ *)

(** The [WHERE] clause of [getPendingBufferedSignals(targetServer)]. *)
Definition pending_for (targetServer : option string) (b : DbSignalBuffer.t)
  : bool :=
  status_eqb (DbSignalBuffer.status b) pending
  && match targetServer with
     | Some target =>
         if String.eqb target EmptyString then true
         else String.eqb (DbSignalBuffer.target_server b) target
     | None => true
     end.

(** What [flushBuffer] writes in place of a row it selected: the verdict
    of the delivery callback decides between [delivered] and [failed]. *)
Definition flushed_row (verdict : DbSignalBuffer.t -> bool)
           (b : DbSignalBuffer.t) : DbSignalBuffer.t :=
  DbSignalBuffer.set_status (if verdict b then delivered else failed) b.

(** The callback resolves, to [verdict b], for every row [b] of a
    selection. *)
Definition resolves_on (callback : DbSignalBuffer.t -> option bool)
           (verdict : DbSignalBuffer.t -> bool)
           (selection : list DbSignalBuffer.t) : Prop :=
  Forall (fun b => callback b = Some (verdict b)) selection.

(** A delivery callback that never rejects. *)
Definition never_rejects (cb : BufferManager.DeliveryCallback) : Prop :=
  match cb with
  | Some callback => forall b, callback b <> None
  | None => True
  end.

(** A row [getPendingBuffers] can turn into an item: its payload is JSON
    text and its [buffered_at] is a time value. *)
Definition listable (b : DbSignalBuffer.t) : Prop :=
  JSON_parse (DbSignalBuffer.payload b) <> None /\
  - MAX_TIME_VALUE <= DbSignalBuffer.buffered_at b <= MAX_TIME_VALUE.

(** A store with three pending rows, and a request to list the rows of
    signal type 80 buffered for peer B. *)
Definition three_pending_rows : World :=
  mkWorld [] [] [fresh_row "id-0" 80 "A" normal 1000;
                 fresh_row "id-1" 80 "B" high 2000;
                 fresh_row "id-2" 81 "B" low 3000] [] 0 0 0 [].

Definition list_type_80_for_B : BufferSignals.Input :=
  {| BufferSignals.action := BufferSignals.list_action;
     BufferSignals.target_server := Some "B";
     BufferSignals.signal_type := Some 80;
     BufferSignals.max_age_hours := None;
     BufferSignals.buffer_ids := None |}.

(* ------------------------------------------------------------------ *)
(** ** Where the delivery engine sends *)
(* ------------------------------------------------------------------ *)

(** The port [sendToTarget] sends the datagram for [target] to; [None]
    when nothing is sent: the engine is not initialised, or the target
    is no key of [peer_ports], or its port is not from 1 to 65535. *)
Definition send_port (engine : Engine.EngineState) (target : string)
  : option Z :=
  match Engine.config engine with
  | Some cfg =>
      if Engine.udpSocket engine then
        match Engine.port_of target (Engine.peer_ports cfg) with
        | Some p => if (1 <=? p) && (p <=? 65535) then Some p else None
        | None => None
        end
      else None
  | None => None
  end.

(** The ports of the targets that have one, in the order of the targets. *)
Definition ports_of (engine : Engine.EngineState) (targets : list string)
  : list Z :=
  flat_map (fun t => match send_port engine t with
                     | Some p => [p]
                     | None => []
                     end) targets.

(** A buffer row that holds a request for later delivery: its signal
    type, source and priority, the given payload text, no retry yet. *)
Definition buffers_request (request : Engine.RelayRequest)
           (payload_text : string) (row : DbSignalBuffer.t) : Prop :=
  DbSignalBuffer.signal_type row = Engine.signal_type request /\
  DbSignalBuffer.source_server row = Engine.source_server request /\
  DbSignalBuffer.payload row = payload_text /\
  DbSignalBuffer.priority row = Engine.priority request /\
  DbSignalBuffer.retry_count row = 0 /\
  DbSignalBuffer.status row = pending.

(* ------------------------------------------------------------------ *)
(** ** What [matchRules] tests *)
(* ------------------------------------------------------------------ *)

(** The test [matchRules] applies to an enabled rule, without the
    counting: the signal pattern is the signal type, and the source
    filter, when there is one, matches the source or does not compile. *)
Definition rule_accepts (rt : Runtime) (signalType : Z) (sourceServer : string)
           (rule : DbRelayRule.t) : bool :=
  (DbRelayRule.signal_pattern rule =? signalType)
  && match DbRelayRule.source_filter rule with
     | Some pattern =>
         if String.eqb pattern EmptyString then true
         else match regex_test rt pattern sourceServer with
              | Some verdict => verdict
              | None => true
              end
     | None => true
     end.

(** The primary keys of the rules table. *)
Definition rule_ids (table : list DbRelayRule.t) : list Z :=
  map DbRelayRule.id table.

(** A rule that relays signal [signal_pattern] to [relay_to]. *)
Definition example_rule (id signal_pattern : Z) (source_filter : option string)
           (priority enabled : Z) : DbRelayRule.t :=
  DbRelayRule.mk id signal_pattern source_filter "[]" None priority enabled
                 1000 None 0.

(* ------------------------------------------------------------------ *)
(** ** A frame for the examples *)
(* ------------------------------------------------------------------ *)

(** The frame of signal 0x50 from [synapse-relay] with payload [{x: 1}],
    encoded at 1700000000000 ms. *)
Definition example_frame : Buffer :=
  match Protocol.encodeMessage 1700000000000 80 "synapse-relay"
                               [("x", JNum 1)] with
  | Some buffer => buffer
  | None => EmptyString
  end.

(* ------------------------------------------------------------------ *)
(** ** Hexadecimal numerals *)
(* ------------------------------------------------------------------ *)

(** The digits of a hexadecimal numeral, in lower or in upper case. *)
Definition hex_numeral (upper : bool) (d : Hexadecimal.uint) : string :=
  if upper then upper_text (HexadecimalString.NilEmpty.string_of_uint d)
  else HexadecimalString.NilEmpty.string_of_uint d.

(* ------------------------------------------------------------------ *)
(** ** The rules table *)
(* ------------------------------------------------------------------ *)



Definition no_updates : RuleEngine.UpdateOptions :=
  {| RuleEngine.new_signalPattern := None;
     RuleEngine.new_sourceFilter := None;
     RuleEngine.new_relayTo := None;
     RuleEngine.new_transform := None;
     RuleEngine.new_priority := None;
     RuleEngine.new_enabled := None |}.


(* ------------------------------------------------------------------ *)
(** ** The rows of the hourly aggregation *)
(* ------------------------------------------------------------------ *)

(** A statistics row as the hourly aggregation stores it for the period
    that starts at [periodStart]. *)
Definition hourly_row (periodStart : Z) (row : DbRelayStats.t) : Prop :=
  DbRelayStats.period_start row = periodStart /\
  DbRelayStats.buffered_count row = 0 /\
  1 <= DbRelayStats.total_relayed row /\
  0 <= DbRelayStats.success_count row <= DbRelayStats.total_relayed row /\
  0 <= DbRelayStats.failure_count row <= DbRelayStats.total_relayed row.

(** The targets the aggregation goes through for one relay. *)
Definition targets_of (code_points : string -> list string)
           (relay : DbSignalRelay.t) : list json :=
  match JSON_parse (DbSignalRelay.target_servers relay) with
  | Some targets =>
      match StatsAggregator.iterate code_points targets with
      | Some l => l
      | None => []
      end
  | None => []
  end.


(** The id a table would give to its next row. *)
Definition next_stats_id (db : Schema.stats_db) : Z :=
  Z.max (Schema.stats_sequence db) (Schema.largest_stats_id (Schema.stats db)) + 1.

(** A relay record as [relaySignal] writes it, and an empty statistics
    table. *)
Definition example_relay (id : string) (relayed_at : Z) : DbSignalRelay.t :=
  DbSignalRelay.mk id 80 "source" (stringify (JArr [JStr "A"; JStr "B"]))
                   "{}" normal relayed_at 1
                   (Some (stringify (JArr [JStr "A"])))
                   (Some (stringify (JArr [JStr "B"]))) (Some 5) None.

Definition no_stats : Schema.stats_db :=
  {| Schema.stats := []; Schema.stats_sequence := 0 |}.

(** The bytes of a text, one by one: the iteration of an ASCII text. *)
Definition bytes_of (s : string) : list string :=
  map (fun c => String c EmptyString) (list_ascii_of_string s).

(** An aggregation whose counts are consistent. *)
Definition counted (a : StatsAggregator.Aggregation) : Prop :=
  1 <= StatsAggregator.agg_total_relayed a /\
  0 <= StatsAggregator.agg_success_count a
  <= StatsAggregator.agg_total_relayed a /\
  0 <= StatsAggregator.agg_failure_count a
  <= StatsAggregator.agg_total_relayed a /\
  StatsAggregator.agg_buffered_count a = 0.

(** The sum of the totals of a map of aggregations. *)
Definition sum_totals (m : StatsAggregator.Aggregations) : Z :=
  fold_right Z.add 0 (map (fun ka => StatsAggregator.agg_total_relayed (snd ka)) m).

(* ------------------------------------------------------------------ *)
(** ** Sums over the statistics *)
(* ------------------------------------------------------------------ *)

(** The sum of the counts of the groups of a result. *)
Definition sum_group_counts (groups : list (string * StatsAggregator.GroupStats))
  : Z :=
  fold_right Z.add 0 (map (fun kg => StatsAggregator.count (snd kg)) groups).

(** A grouping by a column of the statistics table. *)
Definition by_column (groupBy : StatsAggregator.GroupByOption) : Prop :=
  groupBy = StatsAggregator.by_signal_type \/
  groupBy = StatsAggregator.by_source \/
  groupBy = StatsAggregator.by_target.

(** No row has a group key that names a member of [Object.prototype]. *)
Definition plain_group_keys (rt : Runtime)
           (groupBy : StatsAggregator.GroupByOption)
           (rows : list DbRelayStats.t) : Prop :=
  Forall (fun stat =>
            forall key,
              StatsAggregator.groupKey rt (Some groupBy) stat = Some key ->
              inherited key = false) rows.

(** A statistics table with two rows. *)
Definition two_stats_rows : World :=
  mkWorld []
    []
    []
    [DbRelayStats.mk 1 1000 (Some 80) (Some "source") (Some "A") 3 2 1
                     None None 0;
     DbRelayStats.mk 2 2000 (Some 81) (Some "source") (Some "B") 5 5 0
                     None None 0]
    0 0 0 [].

(** The sum of the counts of the buckets of [byGroup]. *)
Definition sum_bucket_counts (g : list (string * StatsAggregator.bucket)) : Z :=
  fold_right Z.add 0 (map (fun kb => fst (fst (snd kb))) g).

(** A store with a delivered row beside a pending one. *)
Definition delivered_row : DbSignalBuffer.t :=
  DbSignalBuffer.mk "id-9" 80 "source" "A" "{}" normal 500
                    1 (Some 900) 3 None delivered.

Definition settled_and_pending_rows : World :=
  mkWorld [] [] [delivered_row; fresh_row "id-0" 80 "A" normal 1000] []
          0 0 0 [].

(** The cutoff [cleanupOldData] computes in state [w]. *)
Definition cleanup_cutoff (rt : Runtime) (retentionDays : Z) (w : World) : Z :=
  clock rt (clock_reads w) - retentionDays * 24 * 60 * 60 * 1000.

(** A store at clock reading 1700000000000: statistics rows of twelve
    days and of an hour ago, and two buffered rows of twelve days ago,
    one pending and one delivered. *)
Definition old_and_recent_rows : World :=
  mkWorld []
    []
    [fresh_row "id-0" 80 "A" normal 1699000000000;
     DbSignalBuffer.mk "id-1" 80 "source" "A" "{}" normal 1699000000000
                       1 (Some 1699000001000) 3 None delivered]
    [DbRelayStats.mk 1 1699000000000 (Some 80) (Some "source") (Some "A") 3 2 1
                     None None 0;
     DbRelayStats.mk 2 1699999200000 (Some 81) (Some "source") (Some "B") 5 5 0
                     None None 0]
    0 0 0 [].

(* ================================================================== *)
(** * Part II: theorems *)
(* ================================================================== *)

(* ------------------------------------------------------------------ *)
(** ** Objects *)
(* ------------------------------------------------------------------ *)

Lemma obj_get_set_same k v o : obj_get k (obj_set k v o) = Some v.
Proof.
  induction o as [|[k' v'] o IH]; simpl.
  - now rewrite String.eqb_refl.
  - destruct (String.eqb k' k) eqn:E; simpl.
    + now rewrite String.eqb_refl.
    + now rewrite E.
Qed.

Lemma obj_get_set_other k k' v o :
  k' <> k -> obj_get k' (obj_set k v o) = obj_get k' o.
Proof.
  intros Hne.
  induction o as [|[k0 v0] o IH]; simpl.
  - destruct (String.eqb_spec k k'); congruence.
  - destruct (String.eqb_spec k0 k) as [->|Hk]; simpl.
    + destruct (String.eqb_spec k k'); congruence.
    + destruct (String.eqb_spec k0 k'); auto.
Qed.

Lemma obj_get_del_same k o : obj_get k (obj_del k o) = None.
Proof.
  unfold obj_del.
  induction o as [|[k' v'] o IH]; simpl; auto.
  destruct (String.eqb k' k) eqn:E; simpl; auto.
  now rewrite E.
Qed.

Lemma obj_get_del_other k k' o :
  k' <> k -> obj_get k' (obj_del k o) = obj_get k' o.
Proof.
  intros Hne. unfold obj_del.
  induction o as [|[k0 v0] o IH]; simpl; auto.
  destruct (String.eqb_spec k0 k) as [->|Hk]; simpl.
  - destruct (String.eqb_spec k k'); congruence.
  - destruct (String.eqb_spec k0 k'); auto.
Qed.

(* ------------------------------------------------------------------ *)
(** ** The JSON codec is a round trip *)
(* ------------------------------------------------------------------ *)

Lemma append_assoc (a b c : string) : (a ++ b) ++ c = a ++ (b ++ c).
Proof. induction a; simpl; congruence. Qed.

Lemma append_nil_r (a : string) : a ++ EmptyString = a.
Proof. induction a; simpl; congruence. Qed.

Lemma length_append (a b : string) :
  String.length (a ++ b) = (String.length a + String.length b)%nat.
Proof. induction a; simpl; congruence. Qed.

Lemma parse_escape_char c tail :
  parse_string_body (escape_char c ++ tail) =
  prepend (String c EmptyString) (parse_string_body tail).
Proof.
  destruct c as [[|] [|] [|] [|] [|] [|] [|] [|]]; reflexivity.
Qed.

Lemma parse_string_body_escape s rest :
  parse_string_body (escape s ++ String dquote rest) = Some (s, rest).
Proof.
  induction s as [|c s IH]; cbn [escape].
  - reflexivity.
  - rewrite append_assoc, parse_escape_char, IH. reflexivity.
Qed.

Lemma parse_quote s rest fuel :
  parse_value (S fuel) (quote s ++ rest) = Some (JStr s, rest).
Proof.
  unfold quote. cbn [append]. rewrite append_assoc. cbn [append].
  cbn -[parse_string_body]. 
  now rewrite parse_string_body_escape.
Qed.


Lemma span_digits_uint d rest :
  delimited rest ->
  span_digits (NilEmpty.string_of_uint d ++ rest) =
  (NilEmpty.string_of_uint d, rest).
Proof.
  intros Hrest.
  induction d; cbn [NilEmpty.string_of_uint append span_digits];
    try (change (is_digit _) with true; cbv iota; now rewrite IHd).
  destruct rest as [|c rest]; [reflexivity|].
  destruct Hrest as [->|[->| ->]]; reflexivity.
Qed.

Lemma to_uint_head p :
  match Pos.to_uint p with
  | Decimal.Nil | Decimal.D0 _ => False
  | _ => True
  end.
Proof.
  pose proof (Unsigned.to_of (Pos.to_uint p)) as H.
  rewrite Unsigned.of_to in H. cbn [N.to_uint] in H.
  pose proof (Unsigned.to_uint_nonnil p) as Hnil.
  pose proof (Unsigned.to_uint_nonzero p) as Hzero.
  destruct (Pos.to_uint p) as [|u|u|u|u|u|u|u|u|u|u]; auto.
  unfold Decimal.unorm in H. cbn [Decimal.nzhead] in H.
  destruct (Decimal.nzhead u) eqn:E; try discriminate.
  - apply Hzero. exact H.
  - inversion H; subst. eapply nzhead_nonzero. exact E.
Qed.

Lemma parse_digits_uint negative d rest :
  match d with
  | Decimal.Nil => False
  | Decimal.D0 d' => d' = Decimal.Nil
  | _ => True
  end ->
  delimited rest ->
  parse_digits negative (NilEmpty.string_of_uint d ++ rest) =
  Some (if negative then (- Z.of_uint d)%Z else Z.of_uint d, rest).
Proof.
  intros Hd Hrest. unfold parse_digits.
  rewrite (span_digits_uint _ _ Hrest).
  pose proof (NilEmpty.usu d) as Hu.
  assert (Hend : forall (X : option (Z * string)),
     match rest with
      | String "." _ | String "e" _ | String "E" _ => None
      | _ => X end = X).
  { intros X. destruct rest as [|c rest]; [reflexivity|].
    destruct Hrest as [->|[->| ->]]; reflexivity. }
  destruct d; try contradiction; try subst d;
    cbn [NilEmpty.string_of_uint] in *; rewrite Hend, Hu; reflexivity.
Qed.

Lemma parse_number_uint d rest :
  match d with
  | Decimal.Nil => False
  | Decimal.D0 d' => d' = Decimal.Nil
  | _ => True
  end ->
  delimited rest ->
  parse_number (NilEmpty.string_of_uint d ++ rest) = Some (Z.of_uint d, rest).
Proof.
  intros Hd Hrest.
  rewrite <- (parse_digits_uint false d rest Hd Hrest).
  destruct d; try contradiction; reflexivity.
Qed.

Lemma parse_number_Z n rest :
  delimited rest ->
  parse_number (string_of_Z n ++ rest) = Some (n, rest).
Proof.
  intros Hrest. unfold string_of_Z, Z.to_int.
  destruct n as [|p|p].
  - apply (parse_number_uint Decimal.zero rest); auto.
  - unfold NilZero.string_of_int, NilZero.string_of_uint.
    pose proof (to_uint_head p) as Hh.
    pose proof (Unsigned.of_to p) as Hof.
    assert (Hz : Z.of_uint (Pos.to_uint p) = Z.pos p).
    { unfold Z.of_uint. now rewrite Hof. }
    rewrite <- Hz.
    destruct (Pos.to_uint p) eqn:E; try contradiction;
      apply parse_number_uint; auto.
  - unfold NilZero.string_of_int, NilZero.string_of_uint.
    pose proof (to_uint_head p) as Hh.
    pose proof (Unsigned.of_to p) as Hof.
    assert (Hz : (- Z.of_uint (Pos.to_uint p))%Z = Z.neg p).
    { unfold Z.of_uint. now rewrite Hof. }
    rewrite <- Hz.
    destruct (Pos.to_uint p) eqn:E; try contradiction;
      cbn [append parse_number];
      apply (parse_digits_uint true); auto.
Qed.


Lemma json_induction (P : json -> Prop) :
  P JNull ->
  (forall b, P (JBool b)) ->
  (forall n, P (JNum n)) ->
  (forall s, P (JStr s)) ->
  (forall l, Forall P l -> P (JArr l)) ->
  (forall f, Forall (fun kv => P (snd kv)) f -> P (JObj f)) ->
  forall v, P v.
Proof.
  intros Hnull Hbool Hnum Hstr Harr Hobj.
  fix IH 1. intros [| b | n | s | l | f].
  - exact Hnull.
  - apply Hbool.
  - apply Hnum.
  - apply Hstr.
  - apply Harr. induction l as [|x l IHl]; constructor; [apply IH | exact IHl].
  - apply Hobj. induction f as [|[k x] f IHf]; constructor; [apply IH | exact IHf].
Qed.

Lemma stringify_arr l :
  stringify (JArr l) = String "[" (stringify_items l ++ "]").
Proof.
  reflexivity.
Qed.

Lemma stringify_obj f :
  stringify (JObj f) = String "{" (stringify_members f ++ "}").
Proof.
  reflexivity.
Qed.

Lemma wf_arr l : wf_json (JArr l) <-> Forall wf_json l.
Proof.
  cbn [wf_json]. induction l as [|x l IH].
  - split; constructor.
  - split.
    + intros [Hx Hl]. constructor; [exact Hx | now apply IH].
    + intros H. inversion H; subst. split; [assumption | now apply IH].
Qed.

Lemma wf_obj f :
  wf_json (JObj f) <->
  NoDup (map fst f) /\ Forall (fun kv => wf_json (snd kv)) f.
Proof.
  cbn [wf_json]. apply and_iff_compat_l.
  induction f as [|[k x] f IH].
  - split; constructor.
  - split.
    + intros [Hx Hl]. constructor; [exact Hx | now apply IH].
    + intros H. inversion H; subst. split; [assumption | now apply IH].
Qed.


Lemma string_of_Z_head n :
  exists c r, string_of_Z n = String c r /\
              (is_digit c || Ascii.eqb c "-")%bool = true.
Proof.
  unfold string_of_Z, Z.to_int, NilZero.string_of_int, NilZero.string_of_uint.
  destruct n as [|p|p].
  - eexists _, _; split; reflexivity.
  - pose proof (to_uint_head p) as Hh.
    destruct (Pos.to_uint p); try contradiction;
      eexists _, _; split; reflexivity.
  - eexists _, _; split; reflexivity.
Qed.

Lemma stringify_head v :
  exists c r, stringify v = String c r /\ value_head c = true.
Proof.
  destruct v as [|[|]|n|s|l|f]; try (eexists _, _; split; reflexivity).
  destruct (string_of_Z_head n) as (c & r & E & Hc).
  exists c, r. split; [exact E|].
  unfold value_head.
  apply orb_true_iff in Hc. destruct Hc as [Hc|Hc].
  - now rewrite Hc.
  - apply Ascii.eqb_eq in Hc. now subst c.
Qed.

Lemma value_head_skip c r :
  value_head c = true -> skip_ws (String c r) = String c r.
Proof.
  destruct c as [[|] [|] [|] [|] [|] [|] [|] [|]];
    try discriminate; reflexivity.
Qed.

Lemma parse_value_arr fuel c r :
  value_head c = true ->
  parse_value (S fuel) (String "[" (String c r)) =
  match parse_elements fuel (String c r) with
  | Some (l, rest') => Some (JArr l, rest')
  | None => None
  end.
Proof.
  destruct c as [[|] [|] [|] [|] [|] [|] [|] [|]];
    try discriminate; reflexivity.
Qed.

Lemma parse_value_number fuel c r :
  (is_digit c || Ascii.eqb c "-")%bool = true ->
  parse_value (S fuel) (String c r) =
  match parse_number (String c r) with
  | Some (n, rest') => Some (JNum n, rest')
  | None => None
  end.
Proof.
  destruct c as [[|] [|] [|] [|] [|] [|] [|] [|]];
    try discriminate; reflexivity.
Qed.

Lemma stringify_length_pos v : (1 <= String.length (stringify v))%nat.
Proof.
  destruct (stringify_head v) as (c & r & E & _). rewrite E. simpl. lia.
Qed.

Lemma delimited_comma r : delimited (String "," r).
Proof. simpl; auto. Qed.
Lemma delimited_bracket r : delimited (String "]" r).
Proof. simpl; auto. Qed.
Lemma delimited_brace r : delimited (String "}" r).
Proof. simpl; auto. Qed.

Lemma parse_elements_stringify l :
  Forall parses l -> Forall wf_json l -> l <> [] ->
  forall fuel rest,
    (String.length (stringify_items l) + 1 <= fuel)%nat ->
    parse_elements fuel (stringify_items l ++ String "]" rest) = Some (l, rest).
Proof.
  induction 1 as [|x l Hx Hl IH]; [congruence|].
  intros Hwf _ fuel rest Hfuel.
  inversion Hwf as [|? ? Hwx Hwl]; subst.
  destruct fuel as [|fuel]; [lia|].
  destruct l as [|y l].
  - cbn [stringify_items] in *. cbn [parse_elements].
    rewrite (Hx Hwx fuel _ (delimited_bracket _)) by lia.
    reflexivity.
  - change (stringify_items (x :: y :: l))
      with (stringify x ++ String "," (stringify_items (y :: l))) in *.
    rewrite length_append in Hfuel. cbn [String.length] in Hfuel.
    pose proof (stringify_length_pos x).
    rewrite append_assoc. cbn [append parse_elements].
    rewrite (Hx Hwx fuel _ (delimited_comma _)) by lia.
    cbn [skip_ws is_ws]. cbv iota.
    rewrite IH; auto; [congruence | lia].
Qed.

Lemma quote_length k : (2 <= String.length (quote k))%nat.
Proof. unfold quote. cbn [String.length]. rewrite length_append. simpl. lia. Qed.

Lemma parse_member_key k tail :
  parse_string_body (escape k ++ String dquote tail) = Some (k, tail).
Proof. apply parse_string_body_escape. Qed.

Lemma parse_members_stringify f :
  Forall (fun kv => parses (snd kv)) f ->
  Forall (fun kv => wf_json (snd kv)) f -> f <> [] ->
  forall fuel rest,
    (String.length (stringify_members f) + 1 <= fuel)%nat ->
    parse_members fuel (stringify_members f ++ String "}" rest) = Some (f, rest).
Proof.
  induction 1 as [|[k x] f Hx Hf IH]; [congruence|].
  intros Hwf _ fuel rest Hfuel.
  inversion Hwf as [|? ? Hwx Hwf']; subst. cbn [snd] in *.
  destruct fuel as [|fuel]; [lia|].
  pose proof (quote_length k). pose proof (stringify_length_pos x).
  destruct f as [|y f].
  - cbn [stringify_members] in *.
    rewrite length_append in Hfuel. cbn [String.length] in Hfuel.
    unfold quote. cbn [append]. rewrite !append_assoc. cbn [append].
    cbn [parse_members skip_ws is_ws dquote]. cbv iota.
    change (Ascii.eqb "034" dquote) with true. cbv iota.
    change "034"%char with dquote.
    rewrite parse_member_key.
    cbn [skip_ws is_ws]. cbv iota.
    rewrite (Hx Hwx fuel _ (delimited_brace _)) by lia.
    reflexivity.
  - change (stringify_members ((k, x) :: y :: f))
      with (quote k ++ String ":" (stringify x) ++
            String "," (stringify_members (y :: f))) in *.
    rewrite !length_append in Hfuel. cbn [String.length] in Hfuel.
    rewrite ?length_append in Hfuel. cbn [String.length] in Hfuel.
    unfold quote. cbn [append]. rewrite !append_assoc. cbn [append].
    rewrite !append_assoc. cbn [append].
    cbn [parse_members skip_ws is_ws dquote]. cbv iota.
    change (Ascii.eqb "034" dquote) with true. cbv iota.
    change "034"%char with dquote.
    rewrite parse_member_key.
    cbn [skip_ws is_ws]. cbv iota.
    rewrite (Hx Hwx fuel _ (delimited_comma _)) by lia.
    cbn [skip_ws is_ws]. cbv iota.
    rewrite IH; auto; [congruence | lia].
Qed.

Lemma obj_set_fresh k v o :
  ~ In k (map fst o) -> obj_set k v o = (o ++ [(k, v)])%list.
Proof.
  induction o as [|[k' v'] o IH]; intros Hnot; simpl in *; [reflexivity|].
  destruct (String.eqb_spec k' k) as [->|Hne].
  - exfalso. auto.
  - f_equal. apply IH. intuition.
Qed.

Lemma obj_spread_nodup f : forall acc,
  NoDup (map fst (acc ++ f)%list) -> obj_spread acc f = (acc ++ f)%list.
Proof.
  unfold obj_spread.
  induction f as [|[k v] f IH]; intros acc Hnd; cbn [fold_left fst snd].
  - now rewrite List.app_nil_r.
  - rewrite obj_set_fresh.
    + rewrite IH; rewrite <- List.app_assoc; [reflexivity | exact Hnd].
    + rewrite map_app in Hnd. cbn [map fst] in Hnd.
      apply NoDup_remove_2 in Hnd. intros Hin. apply Hnd.
      apply in_or_app. now left.
Qed.

Lemma parse_stringify v : parses v.
Proof.
  induction v as [|b|n|s|l IHl|f IHf] using json_induction;
    intros Hwf fuel rest Hrest Hfuel;
    (destruct fuel as [|fuel];
     [pose proof (stringify_length_pos JNull);
      match type of Hfuel with
      | (String.length (stringify ?v) <= _)%nat =>
          pose proof (stringify_length_pos v)
      end; lia|]).
  - reflexivity.
  - destruct b; reflexivity.
  - destruct (string_of_Z_head n) as (c & r & E & Hc).
    cbn [stringify]. pose proof (parse_number_Z n rest Hrest) as Hn.
    rewrite E in *. cbn [append] in *.
    rewrite (parse_value_number _ _ _ Hc), Hn. reflexivity.
  - apply parse_quote.
  - rewrite stringify_arr in *. cbn [append].
    destruct l as [|x l]; [reflexivity|].
    apply wf_arr in Hwf.
    cbn [String.length] in Hfuel. rewrite length_append in Hfuel.
    cbn [String.length] in Hfuel.
    rewrite append_assoc. cbn [append].
    destruct (stringify_head x) as (c & r & E & Hc).
    assert (Hopen : exists r', stringify_items (x :: l) ++ String "]" rest
                               = String c r').
    { destruct l; cbn [stringify_items]; rewrite E; cbn [append]; eauto. }
    destruct Hopen as (r' & Hopen).
    rewrite Hopen, (parse_value_arr _ _ _ Hc), <- Hopen.
    rewrite parse_elements_stringify; auto; [congruence | lia].
  - rewrite stringify_obj in *. cbn [append].
    destruct f as [|[k x] f]; [reflexivity|].
    apply wf_obj in Hwf. destruct Hwf as [Hnd Hwf].
    cbn [String.length] in Hfuel. rewrite length_append in Hfuel.
    cbn [String.length] in Hfuel.
    rewrite append_assoc. cbn [append].
    assert (Hopen : exists r', stringify_members ((k, x) :: f) ++ String "}" rest
                               = String dquote r').
    { destruct f as [|[k' x'] f]; cbn [stringify_members]; unfold quote;
        cbn [append]; eauto. }
    destruct Hopen as (r' & Hopen).
    rewrite Hopen.
    change (parse_value (S fuel) (String "{" (String dquote r')))
      with (match parse_members fuel (String dquote r') with
            | Some (f, rest') => Some (JObj (obj_spread [] f), rest')
            | None => None
            end).
    rewrite <- Hopen.
    rewrite parse_members_stringify; auto; [|congruence|lia].
    rewrite (obj_spread_nodup _ []); [reflexivity | exact Hnd].
Qed.

Theorem JSON_parse_stringify v :
  wf_json v -> JSON_parse (stringify v) = Some v.
Proof.
  intros Hwf. unfold JSON_parse.
  rewrite <- (append_nil_r (stringify v)) at 2.
  rewrite (parse_stringify v Hwf); simpl; auto.
Qed.

(* ------------------------------------------------------------------ *)
(** ** Rule engine *)
(* ------------------------------------------------------------------ *)

Lemma transform_step_plain r k v :
  rename_of v = None ->
  transform_step r (k, v) =
  match v with JNull => obj_del k r | _ => obj_assign k v r end.
Proof.
  intros H. unfold transform_step. rewrite H. now destruct v.
Qed.

Lemma obj_assign_set k v o : assignable k o -> obj_assign k v o = obj_set k v o.
Proof.
  intros [Hk|Hown]; unfold obj_assign.
  - destruct (String.eqb_spec k "__proto__"); [contradiction|reflexivity].
  - rewrite Hown, andb_false_r. reflexivity.
Qed.

Lemma obj_get_assign_other k k' v o :
  k' <> k -> obj_get k' (obj_assign k v o) = obj_get k' o.
Proof.
  intros Hne. unfold obj_assign.
  destruct (_ && _); [reflexivity|now apply obj_get_set_other].
Qed.

(** Under a key other than [__proto__], a set-or-delete entry decides
    alone. *)
Lemma transform_step_get r k v k' :
  rename_of v = None -> k' <> "__proto__" ->
  obj_get k' (transform_step r (k, v)) =
  if String.eqb k k' then entry_outcome v else obj_get k' r.
Proof.
  intros H Hk'. rewrite (transform_step_plain _ _ _ H).
  destruct (String.eqb_spec k k') as [<-|Hne].
  - destruct v; cbn [entry_outcome];
      rewrite ?obj_assign_set by (left; exact Hk');
      auto using obj_get_set_same, obj_get_del_same.
  - assert (k' <> k) by congruence.
    destruct v; auto using obj_get_assign_other, obj_get_del_other.
Qed.

(** Under the key [__proto__]. *)
Lemma transform_step_get_proto r k v :
  rename_of v = None ->
  obj_get "__proto__" (transform_step r (k, v))
  = proto_step (obj_get "__proto__" r) (k, v).
Proof.
  intros H. rewrite (transform_step_plain _ _ _ H).
  unfold proto_step. cbn [fst snd].
  destruct (String.eqb_spec k "__proto__") as [->|Hne].
  - destruct v; try apply obj_get_del_same;
      unfold obj_assign, obj_has; rewrite String.eqb_refl;
      (destruct (obj_get "__proto__" r) eqn:E; cbn [negb andb];
       [apply obj_get_set_same|exact E]).
  - assert ("__proto__" <> k) by congruence.
    destruct v; auto using obj_get_assign_other, obj_get_del_other.
Qed.

(** Without renames the outcome under a key other than [__proto__] is
    decided by the last entry for that key alone. *)
Lemma applyTransform_get s : forall p k,
  no_rename s -> k <> "__proto__" ->
  obj_get k (applyTransform p s) =
  match last_entry k s with
  | Some v => entry_outcome v
  | None => obj_get k p
  end.
Proof.
  unfold applyTransform.
  induction s as [|[k0 v0] s IH]; intros p k Hs Hk;
    cbn [fold_left last_entry]; auto.
  inversion Hs as [|? ? Hv Hrest]; subst. cbn [snd] in Hv.
  rewrite (IH _ _ Hrest Hk).
  destruct (last_entry k s); auto.
  rewrite (transform_step_get _ _ _ _ Hv Hk).
  now destruct (String.eqb k0 k).
Qed.

(** Without renames the own property [__proto__] goes through the
    entries one by one. *)
Lemma applyTransform_get_proto s : forall p,
  no_rename s ->
  obj_get "__proto__" (applyTransform p s)
  = fold_left proto_step s (obj_get "__proto__" p).
Proof.
  unfold applyTransform.
  induction s as [|[k0 v0] s IH]; intros p Hs; cbn [fold_left]; auto.
  inversion Hs as [|? ? Hv Hrest]; subst. cbn [snd] in Hv.
  rewrite (IH _ Hrest). f_equal. now apply transform_step_get_proto.
Qed.

Lemma proto_steps_absent s : fold_left proto_step s None = None.
Proof.
  induction s as [|[k v] s IH]; cbn [fold_left]; [reflexivity|].
  replace (proto_step None (k, v)) with (@None json); [exact IH|].
  unfold proto_step. cbn [fst snd].
  destruct (String.eqb k "__proto__"); [|reflexivity]. now destruct v.
Qed.

Lemma proto_step_present z k v :
  proto_step (Some z) (k, v)
  = if String.eqb k "__proto__" then entry_outcome v else Some z.
Proof.
  unfold proto_step. cbn [fst snd].
  destruct (String.eqb k "__proto__"); [|reflexivity]. now destruct v.
Qed.

(** From a property that is there, the entries end without it, or with
    a value that they reproduce. *)
Lemma proto_steps_present s : forall x,
  fold_left proto_step s (Some x) = None \/
  exists y, fold_left proto_step s (Some x) = Some y /\
            forall z, fold_left proto_step s (Some z) = Some y
                      \/ (y = x /\ fold_left proto_step s (Some z) = Some z).
Proof.
  induction s as [|[k v] s IH]; intros x; cbn [fold_left].
  - right. exists x. split; [reflexivity|]. intros z. right. now split.
  - destruct (String.eqb k "__proto__") eqn:Ek.
    + assert (Hstep : forall z, proto_step (Some z) (k, v) = entry_outcome v)
        by (intros z; now rewrite proto_step_present, Ek).
      destruct (entry_outcome v) as [v'|] eqn:Ev.
      * destruct (IH v') as [Hnone|(y & Hy & _)].
        -- left. now rewrite Hstep.
        -- right. exists y. split; [now rewrite Hstep|].
           intros z. left. now rewrite Hstep.
      * left. rewrite Hstep. apply proto_steps_absent.
    + assert (Hstep : forall z, proto_step (Some z) (k, v) = Some z)
        by (intros z; now rewrite proto_step_present, Ek).
      destruct (IH x) as [Hnone|(y & Hy & Hz)].
      * left. now rewrite Hstep.
      * right. exists y. split; [now rewrite Hstep|].
        intros z. rewrite Hstep. apply Hz.
Qed.

Lemma proto_steps_twice s st :
  fold_left proto_step s (fold_left proto_step s st)
  = fold_left proto_step s st.
Proof.
  destruct st as [x|]; [|now rewrite !proto_steps_absent].
  destruct (proto_steps_present s x) as [Hnone|(y & Hy & Hz)].
  - rewrite Hnone. apply proto_steps_absent.
  - rewrite Hy. destruct (Hz y) as [H|[_ H]]; exact H.
Qed.

(** C7 (amended). [applyTransform(p, {}) = p]; a one-entry spec [{k: v}]
    whose value is neither [null] nor an object with a property
    [rename], and whose key can be set by assignment (it is not
    [__proto__], or [p] owns a property of that name), sets key [k] to
    [v] and leaves every other key as it was; [{k: null}] removes key
    [k] and leaves every other key as it was; and for a spec without an
    object with a property [rename] among its values, applying the
    transform twice gives the same object (key by key) as applying it
    once. *)
Theorem applyTransform_laws :
  (forall p, applyTransform p [] = p) /\
  (forall p k v,
      v <> JNull -> rename_of v = None -> assignable k p ->
      obj_get k (applyTransform p [(k, v)]) = Some v /\
      forall k', k' <> k ->
                 obj_get k' (applyTransform p [(k, v)]) = obj_get k' p) /\
  (forall p k,
      obj_get k (applyTransform p [(k, JNull)]) = None /\
      forall k', k' <> k ->
                 obj_get k' (applyTransform p [(k, JNull)]) = obj_get k' p) /\
  (forall p s,
      no_rename s ->
      forall k, obj_get k (applyTransform (applyTransform p s) s) =
                obj_get k (applyTransform p s)).
Proof.
  split; [reflexivity|].
  split; [|split].
  - intros p k v Hnull Hren Hk.
    unfold applyTransform; cbn [fold_left].
    rewrite (transform_step_plain _ _ _ Hren).
    split.
    + destruct v; try congruence; rewrite obj_assign_set by exact Hk;
        apply obj_get_set_same.
    + intros k' Hne.
      destruct v; try congruence; now apply obj_get_assign_other.
  - intros p k. split.
    + apply obj_get_del_same.
    + intros k' Hne. now apply obj_get_del_other.
  - intros p s Hs k.
    destruct (String.eqb_spec k "__proto__") as [->|Hk].
    + rewrite !(applyTransform_get_proto s) by assumption.
      apply proto_steps_twice.
    + rewrite !(applyTransform_get s) by assumption.
      now destruct (last_entry k s).
Qed.

(** C7 as stated fails.  An object with a property [rename] that is
    not a text is a value to set by the words of the claim, but the
    code takes it for a rename: [{k: {rename: 5}}] sets nothing, and
    with [{x: {rename: true}, true: 5}], which has no rename entry in
    the sense of the claim, the second application gives another object
    than the first.  And an assignment to the key [__proto__] reaches
    the accessor of [Object.prototype]: [{__proto__: "x"}] sets no
    key. *)
Theorem applyTransform_laws_counterexample :
  ~ (forall p k v,
        v <> JNull -> (forall name, rename_of v <> Some (JStr name)) ->
        obj_get k (applyTransform p [(k, v)]) = Some v) /\
  applyTransform [("a", JNum 1)] [("k", JObj [("rename", JNum 5)])]
  = [("a", JNum 1)] /\
  applyTransform [("a", JNum 1)] [("__proto__", JStr "x")] = [("a", JNum 1)] /\
  applyTransform [("true", JNum 1)]
                 [("x", JObj [("rename", JBool true)]); ("true", JNum 5)]
  = [("x", JNum 1); ("true", JNum 5)] /\
  applyTransform [("x", JNum 1); ("true", JNum 5)]
                 [("x", JObj [("rename", JBool true)]); ("true", JNum 5)]
  = [("x", JNum 5); ("true", JNum 5)].
Proof.
  split; [|repeat split].
  intros H.
  assert (E : obj_get "k" (applyTransform [("a", JNum 1)]
                             [("k", JObj [("rename", JNum 5)])])
              = Some (JObj [("rename", JNum 5)])).
  { apply H; [discriminate|]. intros name. discriminate. }
  discriminate E.
Qed.

Lemma applyTransform_laws_witness :
  applyTransform [("a", JNum 1)] [] = [("a", JNum 1)] /\
  obj_get "b" (applyTransform [("a", JNum 1)] [("b", JStr "x")])
  = Some (JStr "x") /\
  obj_get "a" (applyTransform [("a", JNum 1)] [("b", JStr "x")])
  = Some (JNum 1) /\
  obj_get "a" (applyTransform [("a", JNum 1); ("c", JBool true)]
                              [("a", JNull)]) = None /\
  obj_get "a" (applyTransform
                 (applyTransform [("a", JNum 1)]
                                 [("a", JNull); ("b", JNum 2)])
                 [("a", JNull); ("b", JNum 2)])
  = obj_get "a" (applyTransform [("a", JNum 1)]
                                [("a", JNull); ("b", JNum 2)]).
Proof.
  destruct applyTransform_laws as (Hid & Hset & Hdel & Hidem).
  split; [apply Hid|].
  split; [apply (Hset [("a", JNum 1)] "b" (JStr "x"));
          [discriminate|reflexivity|left; discriminate]|].
  split.
  { destruct (Hset [("a", JNum 1)] "b" (JStr "x")) as [_ Hother];
      [discriminate|reflexivity|left; discriminate|].
    apply (Hother "a"). discriminate. }
  split; [apply (Hdel [("a", JNum 1); ("c", JBool true)] "a")|].
  apply Hidem.
  repeat constructor.
Defined.

(* ------------------------------------------------------------------ *)
(** ** Wire codec *)
(* ------------------------------------------------------------------ *)

Lemma byte_value_byte z : byte_value (byte z) = z mod 256.
Proof.
  unfold byte_value, byte.
  change 255 with (Z.ones 8). rewrite Z.land_ones by lia.
  change (2 ^ 8) with 256.
  pose proof (Z.mod_pos_bound z 256 ltac:(lia)).
  rewrite N_ascii_embedding.
  - apply Z2N.id. lia.
  - apply N2Z.inj_lt. rewrite Z2N.id by lia. simpl. lia.
Qed.

Lemma be16 value :
  0 <= value <= 65535 ->
  byte_value (byte (Z.shiftr value 8)) * 256 + byte_value (byte value) = value.
Proof.
  intros Hv. rewrite !byte_value_byte.
  rewrite Z.shiftr_div_pow2 by lia. change (2 ^ 8) with 256.
  rewrite (Z.mod_small (value / 256))
    by (split; [apply Z.div_pos|apply Z.div_lt_upper_bound]; lia).
  pose proof (Z.div_mod value 256 ltac:(lia)). lia.
Qed.

Lemma be32 value :
  0 <= value <= 4294967295 ->
  byte_value (byte (Z.shiftr value 24)) * 16777216
  + byte_value (byte (Z.shiftr value 16)) * 65536
  + byte_value (byte (Z.shiftr value 8)) * 256
  + byte_value (byte value) = value.
Proof.
  intros Hv. rewrite !byte_value_byte.
  rewrite !Z.shiftr_div_pow2 by lia.
  change (2 ^ 8) with 256. change (2 ^ 16) with 65536.
  change (2 ^ 24) with 16777216.
  pose proof (Z.div_mod value 256 ltac:(lia)).
  pose proof (Z.mod_pos_bound value 256 ltac:(lia)).
  pose proof (Z.div_mod (value / 256) 256 ltac:(lia)).
  pose proof (Z.mod_pos_bound (value / 256) 256 ltac:(lia)).
  pose proof (Z.div_mod (value / 256 / 256) 256 ltac:(lia)).
  pose proof (Z.mod_pos_bound (value / 256 / 256) 256 ltac:(lia)).
  rewrite Z.div_div in * by lia.
  change (256 * 256) with 65536 in *.
  rewrite Z.div_div in * by lia.
  change (65536 * 256) with 16777216 in *.
  assert (0 <= value / 16777216 < 256).
  { split; [apply Z.div_pos|apply Z.div_lt_upper_bound]; lia. }
  rewrite (Z.mod_small (value / 16777216)) by lia.
  lia.
Qed.

Lemma substring_all (p : string) : substring 0 (String.length p) p = p.
Proof. induction p; simpl; congruence. Qed.

Lemma obj_get_None_notin k o :
  obj_get k o = None -> ~ In k (map fst o).
Proof.
  induction o as [|[k' v] o IH]; simpl; auto.
  destruct (String.eqb_spec k' k); [discriminate|].
  intros H [E|Hin]; [congruence | now apply IH].
Qed.

(** The frame [encodeMessage] builds, read back field by field. *)
Lemma decode_frame t v len ts (p : string) :
  0 <= t <= 65535 -> 0 <= v <= 65535 ->
  len = Z.of_nat (String.length p) -> 0 <= len <= 4294967295 ->
  0 <= ts <= 4294967295 ->
  exists h0 h2 h4 h8,
    writeUInt16BE t = Some h0 /\ writeUInt16BE v = Some h2 /\
    writeUInt32BE len = Some h4 /\ writeUInt32BE ts = Some h8 /\
    let buffer := (h0 ++ h2 ++ h4 ++ h8 ++ p)%string in
    readUInt16BE buffer 0 = Some t /\ readUInt16BE buffer 2 = Some v /\
    readUInt32BE buffer 4 = Some len /\ readUInt32BE buffer 8 = Some ts /\
    Z.of_nat (String.length buffer) = len + 12 /\
    substring 12 (Z.to_nat len) buffer = p.
Proof.
  intros Ht Hv Hlen Hl Hts.
  unfold writeUInt16BE, writeUInt32BE.
  replace ((0 <=? t) && (t <=? 65535)) with true
    by (symmetry; apply andb_true_iff; split; apply Z.leb_le; lia).
  replace ((0 <=? v) && (v <=? 65535)) with true
    by (symmetry; apply andb_true_iff; split; apply Z.leb_le; lia).
  replace ((0 <=? len) && (len <=? 4294967295)) with true
    by (symmetry; apply andb_true_iff; split; apply Z.leb_le; lia).
  replace ((0 <=? ts) && (ts <=? 4294967295)) with true
    by (symmetry; apply andb_true_iff; split; apply Z.leb_le; lia).
  do 4 eexists. do 4 (split; [reflexivity|]).
  cbv zeta. cbn [append].
  unfold readUInt16BE, readUInt32BE. cbn [String.get Nat.add].
  rewrite !be16, !be32 by assumption.
  do 4 (split; [reflexivity|]).
  split.
  - cbn [String.length]. lia.
  - rewrite Hlen, Nat2Z.id. cbn [substring]. apply substring_all.
Qed.

Lemma truthy_JStr s : s <> EmptyString -> truthy (JStr s) = true.
Proof.
  intros H. simpl. destruct (String.eqb_spec s EmptyString); [contradiction|reflexivity].
Qed.

Lemma obj_get_app_r k (a b : object) :
  obj_get k a = None -> obj_get k (a ++ b)%list = obj_get k b.
Proof.
  induction a as [|[k' v] a IH]; simpl; auto.
  destruct (String.eqb k' k); [discriminate | exact IH].
Qed.

(** C8 (amended). While the clock is in the range of the 32-bit seconds
    field and the serialized payload is shorter than 2^32 bytes: for every
    signal type in (0, 255], every non-empty sender and every JSON object
    payload (distinct keys) that has no [sender] key of its own, encoding
    succeeds, decoding the frame succeeds, the decoded signal type is the
    encoded one, and the decoded payload holds the sender and every entry
    of the original payload; [decodeMessage] returns what the binary
    decoder returns. *)
Theorem codec_round_trip now t sender payload :
  0 < t <= 255 ->
  0 <= now < 4294967296000 ->
  Z.of_nat (String.length
              (stringify (JObj (obj_spread [("sender", JStr sender)] payload))))
  <= 4294967295 ->
  wf_json (JObj payload) ->
  sender <> EmptyString ->
  obj_get "sender" payload = None ->
  Protocol.round_trip now t sender payload /\
  forall decodeTextMessage buffer,
    Protocol.encodeMessage now t sender payload = Some buffer ->
    Protocol.decodeMessage decodeTextMessage buffer =
    Protocol.decodeBinaryMessage buffer.
Proof.
  intros Ht Hnow Hlen Hwf Hsender Hfree.
  apply wf_obj in Hwf. destruct Hwf as [Hnd Hwf].
  assert (Hfull : obj_spread [("sender", JStr sender)] payload
                  = ("sender", JStr sender) :: payload).
  { apply (obj_spread_nodup payload [("sender", JStr sender)]).
    cbn [app map fst]. constructor; [|exact Hnd].
    now apply obj_get_None_notin. }
  rewrite Hfull in Hlen.
  assert (Hwf' : wf_json (JObj (("sender", JStr sender) :: payload))).
  { apply wf_obj. split.
    - cbn [map fst]. constructor; [now apply obj_get_None_notin | exact Hnd].
    - constructor; [exact I | exact Hwf]. }
  set (p := stringify (JObj (("sender", JStr sender) :: payload))) in *.
  assert (Hts : 0 <= now / 1000 <= 4294967295).
  { split; [apply Z.div_pos; lia|].
    assert (now / 1000 < 4294967296) by (apply Z.div_lt_upper_bound; lia).
    lia. }
  destruct (decode_frame t Protocol.PROTOCOL_VERSION
              (Z.of_nat (String.length p)) (now / 1000) p)
    as (h0 & h2 & h4 & h8 & W0 & W2 & W4 & W8 & R0 & R2 & R4 & R8 & Hl & Hs);
    try reflexivity; try (unfold Protocol.PROTOCOL_VERSION; lia).
  cbv zeta in *.
  assert (Henc : Protocol.encodeMessage now t sender payload
                 = Some (h0 ++ h2 ++ h4 ++ h8 ++ p)%string).
  { unfold Protocol.encodeMessage. rewrite Hfull. fold p.
    now rewrite W0, W2, W4, W8. }
  assert (Hdec : Protocol.decodeBinaryMessage (h0 ++ h2 ++ h4 ++ h8 ++ p)%string
                 = Some {| Protocol.signalType := t;
                           Protocol.version := Protocol.PROTOCOL_VERSION;
                           Protocol.timestamp := Finite (now / 1000);
                           Protocol.payload := ("sender", JStr sender) :: payload |}).
  { unfold Protocol.decodeBinaryMessage.
    rewrite R0, R2, R4, R8, Hl, Hs.
    replace ((t =? 0) || (t >? 255)) with false
      by (symmetry; apply orb_false_iff; split;
          [apply Z.eqb_neq | rewrite Z.gtb_ltb; apply Z.ltb_ge]; lia).
    replace (Z.of_nat (String.length p) >? Z.of_nat (String.length p) + 12 - 12)
      with false by (symmetry; rewrite Z.gtb_ltb; apply Z.ltb_ge; lia).
    unfold p at 1. rewrite (JSON_parse_stringify _ Hwf').
    cbn [Protocol.ensure_sender obj_get]. rewrite String.eqb_refl.
    now rewrite (truthy_JStr _ Hsender). }
  split.
  - eexists _, _. split; [exact Henc|]. split; [exact Hdec|].
    cbn [Protocol.signalType Protocol.payload obj_get].
    split; [reflexivity|]. split; [now rewrite String.eqb_refl|].
    intros k v Hk.
    destruct (String.eqb_spec "sender" k) as [<-|Hne]; [congruence|exact Hk].
  - intros decodeText buffer Hb. rewrite Henc in Hb. injection Hb as <-.
    unfold Protocol.decodeMessage.
    assert (Hlen12 : (12 <= String.length (h0 ++ h2 ++ h4 ++ h8 ++ p))%nat) by lia.
    replace (String.length (h0 ++ h2 ++ h4 ++ h8 ++ p) <? 2)%nat with false
      by (symmetry; apply Nat.ltb_ge; lia).
    replace (12 <=? String.length (h0 ++ h2 ++ h4 ++ h8 ++ p))%nat with true
      by (symmetry; apply Nat.leb_le; lia).
    now rewrite Hdec.
Qed.

(** C8 as stated fails: an empty sender comes back as ["unknown"], and a
    payload with its own [sender] entry overrides the sender argument. *)
Lemma codec_round_trip_counterexample :
  ~ Protocol.round_trip 1700000000000 80 EmptyString [] /\
  ~ Protocol.round_trip 1700000000000 80 "relay" [("sender", JStr "peer")].
Proof.
  split; intros (buffer & message & He & Hd & _ & Hs & _).
  - vm_compute in He. injection He as <-.
    vm_compute in Hd. injection Hd as <-.
    vm_compute in Hs. discriminate.
  - vm_compute in He. injection He as <-.
    vm_compute in Hd. injection Hd as <-.
    vm_compute in Hs. discriminate.
Qed.

Lemma codec_round_trip_witness :
  Protocol.round_trip 1700000000000 80 "synapse-relay" [("x", JNum 1)].
Proof.
  refine (proj1 (codec_round_trip 1700000000000 80 "synapse-relay"
                   [("x", JNum 1)] _ _ _ _ _ _)).
  - lia.
  - lia.
  - vm_compute. discriminate.
  - split; [|split; exact I].
    cbn [map fst]. constructor; [intros []|constructor].
  - discriminate.
  - reflexivity.
Defined.

(* ------------------------------------------------------------------ *)
(** ** Tumbler *)
(* ------------------------------------------------------------------ *)

Lemma includes_signal_In signals x :
  Tumbler.includes_signal signals x = true <-> In x signals.
Proof.
  unfold Tumbler.includes_signal. rewrite existsb_exists. split.
  - intros (y & Hy & E). apply Z.eqb_eq in E. now subst.
  - intros H. exists x. split; [exact H | apply Z.eqb_refl].
Qed.

(** The sender test has no effect: the verdict is that of the signal and
    freshness tests. *)
Lemma validateMessage_checks config now message :
  Tumbler.validateMessage config now message =
  if negb (Nat.eqb (List.length (Tumbler.allowedSignals config)) 0)
     && negb (Tumbler.includes_signal (Tumbler.allowedSignals config)
                                      (Protocol.signalType message))
  then false
  else
    let age :=
      Tumbler.age_at now (Tumbler.times_1000 (Protocol.timestamp message)) in
    if Tumbler.greater age (5 * 60 * 1000) || Tumbler.less age (-60000)
    then false else true.
Proof.
  unfold Tumbler.validateMessage.
  match goal with |- (if ?b then _ else _) = _ => destruct b end;
    reflexivity.
Qed.

(** The freshness test on a timestamp: an integer passes within the
    window, [NaN] always passes, an infinity never does. *)
Lemma freshness_test now ts :
  (if Tumbler.greater (Tumbler.age_at now (Tumbler.times_1000 ts))
                      (5 * 60 * 1000)
      || Tumbler.less (Tumbler.age_at now (Tumbler.times_1000 ts)) (-60000)
   then false else true) = true <->
  match ts with
  | Finite t => -60000 <= now - t * 1000 <= 300000
  | NaN => True
  | Infinite _ => False
  end.
Proof.
  destruct ts as [t| |[|]];
    cbn [Tumbler.times_1000 Tumbler.age_at Tumbler.greater Tumbler.less
         negb orb].
  - destruct (now - t * 1000 >? 5 * 60 * 1000) eqn:E1;
      destruct (now - t * 1000 <? -60000) eqn:E2;
      cbn [orb]; split; try discriminate; try lia; intuition lia.
  - tauto.
  - split; [discriminate|tauto].
  - split; [discriminate|tauto].
Qed.

(** C6, on every message and at the failing input.  The tumbler accepts
    a message exactly when the signal whitelist is empty or contains the
    message's signal type, and the timestamp is [NaN], or is an integer
    with [|now - timestamp*1000| <= 300000] and
    [timestamp*1000 - now <= 60000]; the verdict does not depend on the
    peer whitelist nor on the payload (hence not on the sender).  So a
    message whose timestamp is [NaN], which the text decoder makes of a
    frame whose timestamp is not numeric, is accepted at every clock
    reading: for it both comparisons of the freshness test are false. *)
Theorem validateMessage_accepts_NaN_timestamp :
  (forall config now message,
      Tumbler.validateMessage config now message = true <->
      (Tumbler.allowedSignals config = []
       \/ In (Protocol.signalType message) (Tumbler.allowedSignals config))
      /\ match Protocol.timestamp message with
         | Finite ts =>
             Z.abs (now - ts * 1000) <= 300000 /\ ts * 1000 - now <= 60000
         | NaN => True
         | Infinite _ => False
         end) /\
  (forall peers peers' signals now t v ts payload payload',
      Tumbler.validateMessage
        {| Tumbler.allowedPeers := peers; Tumbler.allowedSignals := signals |}
        now
        {| Protocol.signalType := t; Protocol.version := v;
           Protocol.timestamp := ts; Protocol.payload := payload |} =
      Tumbler.validateMessage
        {| Tumbler.allowedPeers := peers'; Tumbler.allowedSignals := signals |}
        now
        {| Protocol.signalType := t; Protocol.version := v;
           Protocol.timestamp := ts; Protocol.payload := payload' |}) /\
  (forall peers now payload,
      Tumbler.validateMessage
        {| Tumbler.allowedPeers := peers; Tumbler.allowedSignals := [4] |}
        now
        {| Protocol.signalType := 4;
           Protocol.version := Protocol.PROTOCOL_VERSION;
           Protocol.timestamp := NaN; Protocol.payload := payload |} = true).
Proof.
  split; [|split].
  - intros config now message. rewrite validateMessage_checks. cbv zeta.
    assert (Hfresh :
              match Protocol.timestamp message with
              | Finite t => -60000 <= now - t * 1000 <= 300000
              | NaN => True
              | Infinite _ => False
              end <->
              match Protocol.timestamp message with
              | Finite ts =>
                  Z.abs (now - ts * 1000) <= 300000
                  /\ ts * 1000 - now <= 60000
              | NaN => True
              | Infinite _ => False
              end)
      by (destruct (Protocol.timestamp message); [lia|tauto|tauto]).
    rewrite <- Hfresh, <- freshness_test.
    destruct (Tumbler.allowedSignals config) as [|s0 signals] eqn:Es.
    + cbn [List.length Nat.eqb negb andb]. tauto.
    + cbn [List.length Nat.eqb negb andb].
      destruct (Tumbler.includes_signal (s0 :: signals)
                  (Protocol.signalType message)) eqn:Ei; cbn [negb].
      * apply includes_signal_In in Ei. tauto.
      * split; [discriminate|].
        intros [[Hnil|Hin] _]; [discriminate|].
        apply includes_signal_In in Hin. congruence.
  - intros. now rewrite !validateMessage_checks.
  - intros. rewrite validateMessage_checks. reflexivity.
Qed.

(* ------------------------------------------------------------------ *)
(** ** Buffer manager *)
(* ------------------------------------------------------------------ *)

(** C1, at the failing input. A row buffered with [max_retries = 3] and
    retried by hand four times, every delivery failing, is left [pending]
    with [retry_count = 4]: [retryBufferedSignals] increments the count
    without bound and never marks the row [failed]. *)
Theorem manual_retry_exceeds_max_retries :
  exists counters w row,
    four_manual_retries empty_world = (Some counters, w) /\
    signal_buffer w = [row] /\
    DbSignalBuffer.retry_count row = 4 /\
    DbSignalBuffer.max_retries row = 3 /\
    DbSignalBuffer.status row = pending.
Proof.
  eexists _, _, _. split; [vm_compute; reflexivity|].
  repeat split.
Qed.

(** C2, at the failing inputs. Without ids and without a target,
    [clearBufferedSignals] deletes nothing and returns 0, whatever
    [signalType] and [maxAgeHours] say; a row of signal type 80 survives
    a clear by signal type 80. *)
Theorem clear_ignores_signal_type_and_age :
  (forall signalType maxAgeHours w,
      BufferManager.clearBufferedSignals
        {| BufferManager.bufferIds := None;
           BufferManager.targetServer := None;
           BufferManager.signalType := signalType;
           BufferManager.maxAgeHours := maxAgeHours |} w = (Some 0, w)) /\
  (let w := mkWorld [] [] [fresh_row "id-0" 80 "B" normal 1000] [] 0 0 0 [] in
   BufferManager.clearBufferedSignals
     {| BufferManager.bufferIds := None;
        BufferManager.targetServer := None;
        BufferManager.signalType := Some 80;
        BufferManager.maxAgeHours := Some 0 |} w = (Some 0, w)).
Proof.
  split; reflexivity.
Qed.

Lemma insert_sorted_In {A} (before : A -> A -> bool) x y l :
  In y (insert_sorted before x l) <-> y = x \/ In y l.
Proof.
  induction l as [|z l IH]; cbn [insert_sorted].
  - simpl. intuition.
  - destruct (before x z); simpl in *; intuition.
Qed.

Lemma order_by_In {A} (before : A -> A -> bool) y l :
  In y (order_by before l) <-> In y l.
Proof.
  unfold order_by. induction l as [|x l IH]; cbn [fold_right].
  - reflexivity.
  - rewrite insert_sorted_In, IH. simpl. intuition.
Qed.

(** The rows [getRetryableBufferedSignals] returns: the pending rows with
    retries left that have not expired, and that were never retried or
    were last retried before [retryAfter]. *)
Lemma retryable_rows_spec retryAfter now table b :
  In b (Schema.getRetryableBufferedSignals retryAfter now table) <->
  In b table /\
  DbSignalBuffer.status b = pending /\
  match DbSignalBuffer.last_retry_at b with
  | None => True
  | Some t => t < retryAfter
  end /\
  DbSignalBuffer.retry_count b < DbSignalBuffer.max_retries b /\
  match DbSignalBuffer.expires_at b with
  | None => True
  | Some e => now < e
  end.
Proof.
  unfold Schema.getRetryableBufferedSignals.
  rewrite order_by_In, filter_In. unfold Schema.retryable.
  rewrite !andb_true_iff, Z.ltb_lt.
  assert (Hs : status_eqb (DbSignalBuffer.status b) pending = true
               <-> DbSignalBuffer.status b = pending).
  { destruct (DbSignalBuffer.status b); simpl; split; congruence. }
  rewrite Hs.
  destruct (DbSignalBuffer.last_retry_at b) as [t|],
           (DbSignalBuffer.expires_at b) as [e|];
    rewrite ?Z.ltb_lt, ?Z.gtb_ltb, ?Z.ltb_lt; intuition.
Qed.

(** The backoff test of [processBuffer] for a row whose [retry_count] is
    not negative: the row is skipped exactly when less than
    [intervals[min(retry_count, 2)]] has passed since the last retry, or
    since buffering when there was none. *)
Lemma too_early_spec t b :
  0 <= DbSignalBuffer.retry_count b ->
  BufferManager.too_early t b = true <->
  t - BufferManager.lastRetry b
  < nth (Z.to_nat (Z.min (DbSignalBuffer.retry_count b) 2))
        [1000; 5000; 15000] 0.
Proof.
  intros Hrc. unfold BufferManager.too_early, BufferManager.retryInterval,
    js_index, BufferManager.RETRY_INTERVALS.
  cbn [List.length Z.of_nat Pos.of_succ_nat Pos.succ Z.sub Z.add Z.opp
       Z.pos_sub Z.succ_double Z.pred_double Pos.pred_double].
  change (3 - 1) with 2.
  replace (Z.min (DbSignalBuffer.retry_count b) 2 <? 0) with false
    by (symmetry; apply Z.ltb_ge; lia).
  assert (Hcases : Z.to_nat (Z.min (DbSignalBuffer.retry_count b) 2) = 0%nat
                   \/ Z.to_nat (Z.min (DbSignalBuffer.retry_count b) 2) = 1%nat
                   \/ Z.to_nat (Z.min (DbSignalBuffer.retry_count b) 2) = 2%nat)
    by lia.
  destruct Hcases as [-> | [-> | ->]]; cbn [nth_error nth]; apply Z.ltb_lt.
Qed.

(** C5, at the failing input. [ORDER BY priority DESC] compares the stored
    texts: of two retryable rows, the one of priority [low] is returned
    before the one of priority [high], whatever their [buffered_at]; the
    full order is urgent, normal, low, high. *)
Theorem retryable_order_is_textual :
  (forall id1 id2 t1 t2 retryAfter now,
      Schema.getRetryableBufferedSignals retryAfter now
        [fresh_row id1 80 "B" high t1; fresh_row id2 80 "B" low t2]
      = [fresh_row id2 80 "B" low t2; fresh_row id1 80 "B" high t1]) /\
  map DbSignalBuffer.priority
      (Schema.getRetryableBufferedSignals 0 0
         [fresh_row "a" 80 "B" low 1; fresh_row "b" 80 "B" normal 2;
          fresh_row "c" 80 "B" high 3; fresh_row "d" 80 "B" urgent 4])
  = [urgent; normal; low; high].
Proof.
  split; reflexivity.
Qed.

(* ------------------------------------------------------------------ *)
(** ** Computations and what they append *)
(* ------------------------------------------------------------------ *)


Section Extends.
Context {X : Type} (proj : World -> list X) (P : X -> Prop).

Lemma extends_same {A} (m : M A) :
  (forall w, proj (snd (m w)) = proj w) -> extends proj P m.
Proof.
  intros H w. exists []. rewrite H, List.app_nil_r. auto.
Qed.

Lemma extends_ret {A} (a : A) : extends proj P (ret a).
Proof. now apply extends_same. Qed.

Lemma extends_throw {A} : extends proj P (@throw A).
Proof. now apply extends_same. Qed.

Lemma extends_bind {A B} (m : M A) (k : A -> M B) :
  extends proj P m -> (forall a, extends proj P (k a)) ->
  extends proj P (bind m k).
Proof.
  intros Hm Hk w. unfold bind.
  destruct (Hm w) as (new1 & E1 & F1).
  destruct (m w) as [[a|] w1]; cbn [snd] in *.
  - destruct (Hk a w1) as (new2 & E2 & F2).
    exists (new1 ++ new2)%list. split.
    + now rewrite E2, E1, List.app_assoc.
    + apply Forall_app; auto.
  - exists new1. auto.
Qed.

Lemma extends_for_each {A S} (body : S -> A -> M S) (l : list A) :
  (forall acc x, extends proj P (body acc x)) ->
  forall acc, extends proj P (for_each l acc body).
Proof.
  intros Hb. induction l as [|x l IH]; intros acc; cbn [for_each].
  - apply extends_ret.
  - apply extends_bind; auto.
Qed.
End Extends.

Lemma extends_nothing {A X} (proj : World -> list X) (m : M A) w :
  extends proj (fun _ => False) m -> proj (snd (m w)) = proj w.
Proof.
  intros H. destruct (H w) as (new & E & F).
  destruct new as [|x new]; [now rewrite List.app_nil_r in E|].
  inversion F; contradiction.
Qed.

Ltac extends_step :=
  first
    [ apply extends_ret
    | apply extends_throw
    | apply extends_bind; [|intro]
    | apply extends_for_each; intros
    | apply extends_same; intros ?; reflexivity ].

Lemma run_buffer_other {A X} (proj : World -> list X) (P : X -> Prop)
      (f : list DbSignalBuffer.t -> A * list DbSignalBuffer.t) :
  (forall table w, proj (set_signal_buffer table w) = proj w) ->
  extends proj P (run_buffer f).
Proof.
  intros H. apply extends_same. intros w. unfold run_buffer.
  destruct (f (signal_buffer w)). apply H.
Qed.

(** The parts of [relaySignal] that leave a projection of the state
    alone, for a projection that the clock, the identifiers, the rules
    table and the tables not projected do not reach. *)
Ltac extends_rule_matches :=
  unfold RuleEngine.rule_matches;
  match goal with |- extends _ _ (if ?b then _ else _) => destruct b end;
  [apply extends_ret|];
  match goal with |- extends _ _ (if ?b then _ else _) => destruct b end;
  [apply extends_ret|];
  apply extends_bind; [apply extends_same; intros ?; reflexivity
                      |intro; apply extends_ret].

Ltac extends_matchRules :=
  let w0 := fresh "w" in
  intros w0; unfold RuleEngine.matchRules;
  match goal with
  | |- exists new, ?proj (snd (for_each ?l ?acc ?body w0)) = _ /\ Forall ?P new =>
      refine (extends_for_each proj P body l _ acc w0); intros;
      apply extends_bind; [extends_rule_matches|intro; apply extends_ret]
  end.

Ltac extends_apply_rules :=
  unfold Engine.apply_rules; apply extends_for_each; intros ? rule;
  destruct (DbRelayRule.transform rule) as [text|]; [|apply extends_ret];
  destruct (String.eqb text EmptyString); [apply extends_ret|];
  destruct (JSON_parse text) as [parsed|]; [|apply extends_throw];
  destruct (RuleEngine.entries parsed); [apply extends_ret|apply extends_throw].

Ltac extends_insertSignalRelay :=
  apply extends_same; intros ?; unfold Engine.insertSignalRelay;
  destruct (existsb _ _); reflexivity.

Ltac extends_sendToTarget_quiet :=
  unfold Engine.sendToTarget;
  match goal with
  | |- extends _ _ (match Engine.config ?e with _ => _ end) =>
      destruct (Engine.config e) as [cfg|]; [|apply extends_ret];
      destruct (negb (Engine.udpSocket e)); [apply extends_ret|]
  end;
  match goal with
  | |- extends _ _ (match ?o with _ => _ end) =>
      destruct o as [p|];
      [destruct (p =? 0); [apply extends_ret|]
      |destruct (inherited _); [|apply extends_ret]]
  end;
  (apply extends_bind;
   [unfold Engine.encodeRelayMessage;
    apply extends_bind; [apply extends_same; intros ?; reflexivity
                        |intro; apply extends_ret]
   |intro;
    first [apply extends_ret
          |destruct (Engine.valid_port _);
           [apply extends_same; intros ?; reflexivity|apply extends_ret]]]).

Ltac extends_bufferSignal_quiet :=
  unfold BufferManager.bufferSignal;
  apply extends_bind; [apply extends_same; intros ?; reflexivity|intro];
  apply extends_bind; [apply extends_same; intros ?; reflexivity|intro];
  apply extends_bind; [apply extends_same; intros ?; reflexivity|intro];
  apply extends_bind; [apply extends_same; intros ?; reflexivity|intros [table|]];
  [apply extends_bind; [apply extends_same; intros ?; reflexivity
                       |intro; apply extends_ret]
  |apply extends_throw].

(** *** The wire log of [relaySignal] *)

Lemma sendToTarget_wire rt engine target st payload pr :
  extends wire (relay_datagram st pr)
          (Engine.sendToTarget rt engine target st payload pr).
Proof.
  unfold Engine.sendToTarget.
  destruct (Engine.config engine) as [cfg|]; [|apply extends_ret].
  destruct (negb (Engine.udpSocket engine)); [apply extends_ret|].
  destruct (Engine.port_of target (Engine.peer_ports cfg)) as [p|].
  - destruct (p =? 0); [apply extends_ret|].
    unfold Engine.encodeRelayMessage.
    destruct (Engine.valid_port p).
    + intros w. eexists [_]. split; [reflexivity|].
      constructor; [|constructor]. eexists _, _. reflexivity.
    + intros w. exists []. split; [|constructor].
      cbn. now rewrite List.app_nil_r.
  - destruct (inherited target); [|apply extends_ret].
    unfold Engine.encodeRelayMessage.
    intros w. exists []. split; [|constructor].
    cbn. now rewrite List.app_nil_r.
Qed.

Lemma relaySignal_wire rt engine request :
  extends wire (relay_datagram (Engine.signal_type request)
                               (Engine.priority request))
          (Engine.relaySignal rt engine request).
Proof.
  unfold Engine.relaySignal.
  apply extends_bind; [extends_step|intro startTime].
  apply extends_bind; [extends_step|intro relayId].
  apply extends_bind; [extends_matchRules|intro rules].
  apply extends_bind; [extends_apply_rules|intro payload].
  apply extends_bind.
  { apply extends_for_each. intros acc target.
    apply extends_bind; [apply sendToTarget_wire|intro; apply extends_ret]. }
  intro results.
  apply extends_bind.
  { apply extends_for_each. intros acc [target ok].
    unfold Engine.classify. destruct ok; [apply extends_ret|].
    destruct (Engine.buffer_if_offline request); [|apply extends_ret].
    apply extends_bind; [extends_bufferSignal_quiet|intro; apply extends_ret]. }
  intro outcome.
  apply extends_bind; [extends_step|intro finished].
  apply extends_bind; [extends_step|intro relayed_at].
  apply extends_bind; [extends_insertSignalRelay|intro; apply extends_ret].
Qed.

Lemma json_object_text_not_binary k x f :
  Protocol.decodeBinaryMessage (stringify (JObj ((k, x) :: f))) = None.
Proof.
  assert (H : exists rest,
             stringify (JObj ((k, x) :: f)) = String "{" (String dquote rest)).
  { rewrite stringify_obj. destruct f as [|[k' x'] f];
      cbn [stringify_members]; unfold quote; cbn [append]; eauto. }
  destruct H as (rest & ->).
  unfold Protocol.decodeBinaryMessage.
  change (readUInt16BE (String "{" (String dquote rest)) 0) with (Some 31522).
  destruct (readUInt16BE _ 2); [|reflexivity].
  destruct (readUInt32BE _ 4); [|reflexivity].
  destruct (readUInt32BE _ 8); reflexivity.
Qed.

(** *** The rows [relaySignal] adds to the buffer *)

Lemma bufferSignal_rows rt st src tgt pl pr :
  extends signal_buffer (buffered_by_engine rt)
          (BufferManager.bufferSignal rt st src tgt pl pr None).
Proof.
  intros w. unfold BufferManager.bufferSignal, bind, uuidv4, now, read_buffer,
    write_buffer, ret, throw, Schema.insertBufferedSignal.
  cbn [signal_buffer clock_reads uuid_draws snd fst set_signal_buffer].
  destruct (existsb _ _); cbn [snd signal_buffer].
  - exists []. now rewrite List.app_nil_r.
  - eexists [_]. split; [reflexivity|].
    constructor; [|constructor].
    unfold buffered_by_engine.
    cbn [DbSignalBuffer.max_retries DbSignalBuffer.retry_count
         DbSignalBuffer.status DbSignalBuffer.last_retry_at
         DbSignalBuffer.buffered_at DbSignalBuffer.expires_at].
    do 4 (split; [reflexivity|]).
    exists (clock_reads w). split; reflexivity.
Qed.

Lemma relaySignal_rows rt engine request :
  extends signal_buffer (buffered_by_engine rt)
          (Engine.relaySignal rt engine request).
Proof.
  unfold Engine.relaySignal.
  apply extends_bind; [extends_step|intro startTime].
  apply extends_bind; [extends_step|intro relayId].
  apply extends_bind; [extends_matchRules|intro rules].
  apply extends_bind; [extends_apply_rules|intro payload].
  apply extends_bind.
  { apply extends_for_each. intros acc target.
    apply extends_bind; [extends_sendToTarget_quiet|intro; apply extends_ret]. }
  intro results.
  apply extends_bind.
  { apply extends_for_each. intros acc [target ok].
    unfold Engine.classify. destruct ok; [apply extends_ret|].
    destruct (Engine.buffer_if_offline request); [|apply extends_ret].
    apply extends_bind; [apply bufferSignal_rows|intro; apply extends_ret]. }
  intro outcome.
  apply extends_bind; [extends_step|intro finished].
  apply extends_bind; [extends_step|intro relayed_at].
  apply extends_bind; [extends_insertSignalRelay|intro; apply extends_ret].
Qed.


Lemma bind_Some {A B} (m : M A) (k : A -> M B) w b w' :
  bind m k w = (Some b, w') ->
  exists a w1, m w = (Some a, w1) /\ k a w1 = (Some b, w').
Proof.
  unfold bind. destruct (m w) as [[a|] w1]; [eauto|discriminate].
Qed.

Lemma ret_Some {A} (a b : A) w w' :
  ret a w = (Some b, w') -> a = b /\ w = w'.
Proof. unfold ret. intros [= -> ->]. auto. Qed.

(** The sends settle in the order of the targets. *)
Lemma sends_settle_in_order (send : string -> M bool) targets :
  forall (acc : list (string * bool)) w results w',
    for_each targets acc
      (fun settled target =>
         ok <- send target ;; ret (settled ++ [(target, ok)])%list) w
    = (Some results, w') ->
    map fst results = (map fst acc ++ targets)%list.
Proof.
  induction targets as [|t targets IH]; intros acc w results w' H;
    cbn [for_each] in H.
  - apply ret_Some in H. destruct H as [-> _]. now rewrite List.app_nil_r.
  - apply bind_Some in H. destruct H as (acc' & w1 & Hbody & Hrest).
    apply bind_Some in Hbody. destruct Hbody as (ok & w2 & _ & Hret).
    apply ret_Some in Hret. destruct Hret as [<- _].
    rewrite (IH _ _ _ _ Hrest), map_app. cbn [map fst].
    now rewrite <- List.app_assoc.
Qed.

Lemma classify_lists rt request payload results :
  forall acc w outcome w',
    for_each results acc (Engine.classify rt request payload) w
    = (Some outcome, w') ->
    Engine.targetsReached outcome
    = (Engine.targetsReached acc ++ reached_of results)%list /\
    Engine.targetsFailed outcome
    = (Engine.targetsFailed acc ++ failed_of results)%list.
Proof.
  unfold reached_of, failed_of.
  induction results as [|[target ok] results IH]; intros acc w outcome w' H;
    cbn [for_each] in H.
  - apply ret_Some in H. destruct H as [-> _].
    cbn [filter map]. now rewrite !List.app_nil_r.
  - apply bind_Some in H. destruct H as (acc' & w1 & Hbody & Hrest).
    apply IH in Hrest. destruct Hrest as [Hr Hf]. rewrite Hr, Hf.
    cbn [filter snd negb map fst].
    unfold Engine.classify in Hbody. destruct ok; cbn [negb map fst].
    + apply ret_Some in Hbody. destruct Hbody as [<- _].
      cbn [Engine.targetsReached Engine.targetsFailed].
      now rewrite <- List.app_assoc.
    + destruct (Engine.buffer_if_offline request).
      * apply bind_Some in Hbody. destruct Hbody as (? & ? & _ & Hret).
        apply ret_Some in Hret. destruct Hret as [<- _].
        cbn [Engine.targetsReached Engine.targetsFailed].
        now rewrite <- List.app_assoc.
      * apply ret_Some in Hbody. destruct Hbody as [<- _].
        cbn [Engine.targetsReached Engine.targetsFailed].
        now rewrite <- List.app_assoc.
Qed.

Lemma reached_failed_permutation results :
  Permutation (reached_of results ++ failed_of results) (map fst results).
Proof.
  unfold reached_of, failed_of.
  induction results as [|[t ok] results IH]; cbn [filter map fst snd negb].
  - constructor.
  - destruct ok; cbn [negb map fst app].
    + now constructor.
    + apply Permutation_sym, Permutation_cons_app, Permutation_sym, IH.
Qed.

Lemma reached_failed_disjoint results :
  NoDup (map fst results) ->
  forall t, In t (reached_of results) -> ~ In t (failed_of results).
Proof.
  unfold reached_of, failed_of.
  induction results as [|[t0 ok] results IH]; intros Hnd t Hr Hf;
    cbn [filter map fst snd negb] in *; [contradiction|].
  inversion Hnd as [|? ? Hnotin Hnd']; subst.
  assert (Hsub : forall f t', In t' (map fst (filter f results)) ->
                              In t' (map fst results)).
  { intros f t' Hin. apply in_map_iff in Hin.
    destruct Hin as ([a b] & <- & Hin). apply filter_In in Hin.
    apply in_map_iff. exists (a, b). tauto. }
  destruct ok; cbn [negb map fst] in *.
  - destruct Hr as [->|Hr].
    + apply Hnotin. eapply Hsub, Hf.
    + eapply IH; eauto.
  - destruct Hf as [->|Hf].
    + apply Hnotin. eapply Hsub, Hr.
    + eapply IH; eauto.
Qed.

(** C9 (amended). For every relay record that [relaySignal] inserts:
    [targets_reached] followed by [targets_failed] is a rearrangement of
    [target_servers] (every requested occurrence of a target lands in
    exactly one of the two lists); the two lists are disjoint whenever
    [target_servers] has no duplicate; [success] is 1 exactly when
    [targets_reached] is not empty; and the [relayed] flag of the result
    agrees with the stored [success]. *)
Theorem relay_record_partition rt engine request w result w' :
  Engine.relaySignal rt engine request w = (Some result, w') ->
  exists record,
    signal_relays w' = (signal_relays w ++ [record])%list /\
    DbSignalRelay.target_servers record
    = Engine.json_names (Engine.target_servers request) /\
    DbSignalRelay.targets_reached record
    = Some (Engine.json_names (Engine.targets_reached result)) /\
    DbSignalRelay.targets_failed record
    = Some (Engine.json_names (Engine.targets_failed result)) /\
    Permutation (Engine.targets_reached result ++ Engine.targets_failed result)
                (Engine.target_servers request) /\
    (NoDup (Engine.target_servers request) ->
     forall t, In t (Engine.targets_reached result) ->
               ~ In t (Engine.targets_failed result)) /\
    (DbSignalRelay.success record = 1 <-> Engine.targets_reached result <> []) /\
    (Engine.relayed result = true <-> DbSignalRelay.success record = 1).
Proof.
  intros H. unfold Engine.relaySignal in H.
  apply bind_Some in H. destruct H as (startTime & w1 & H1 & H).
  apply bind_Some in H. destruct H as (relayId & w2 & H2 & H).
  apply bind_Some in H. destruct H as (rules & w3 & H3 & H).
  apply bind_Some in H. destruct H as (payload & w4 & H4 & H).
  apply bind_Some in H. destruct H as (results & w5 & H5 & H).
  apply bind_Some in H. destruct H as (outcome & w6 & H6 & H).
  apply bind_Some in H. destruct H as (finished & w7 & H7 & H).
  apply bind_Some in H. destruct H as (relayed_at & w8 & H8 & H).
  apply bind_Some in H. destruct H as ([] & w9 & H9 & H).
  apply ret_Some in H. destruct H as [<- <-].
  assert (K1 : signal_relays w1 = signal_relays w).
  { replace w1 with (snd (now rt w)) by now rewrite H1. reflexivity. }
  assert (K2 : signal_relays w2 = signal_relays w1).
  { replace w2 with (snd (uuidv4 rt w1)) by now rewrite H2. reflexivity. }
  assert (K3 : signal_relays w3 = signal_relays w2).
  { replace w3 with (snd (RuleEngine.matchRules rt (Engine.signal_type request)
                            (Engine.source_server request) w2))
      by now rewrite H3.
    apply extends_nothing. extends_matchRules. }
  assert (K4 : signal_relays w4 = signal_relays w3).
  { replace w4 with (snd (Engine.apply_rules rules (Engine.payload request) w3))
      by now rewrite H4.
    apply extends_nothing. extends_apply_rules. }
  assert (K5 : signal_relays w5 = signal_relays w4).
  { match type of H5 with ?m w4 = _ =>
      replace w5 with (snd (m w4)) by now rewrite H5 end.
    apply extends_nothing. apply extends_for_each. intros acc target.
    apply extends_bind; [extends_sendToTarget_quiet|intro; apply extends_ret]. }
  assert (K6 : signal_relays w6 = signal_relays w5).
  { match type of H6 with ?m w5 = _ =>
      replace w6 with (snd (m w5)) by now rewrite H6 end.
    apply extends_nothing. apply extends_for_each. intros acc [target ok].
    unfold Engine.classify. destruct ok; [apply extends_ret|].
    destruct (Engine.buffer_if_offline request); [|apply extends_ret].
    apply extends_bind; [extends_bufferSignal_quiet|intro; apply extends_ret]. }
  assert (K7 : signal_relays w7 = signal_relays w6).
  { replace w7 with (snd (now rt w6)) by now rewrite H7. reflexivity. }
  assert (K8 : signal_relays w8 = signal_relays w7).
  { replace w8 with (snd (now rt w7)) by now rewrite H8. reflexivity. }
  unfold Engine.insertSignalRelay in H9.
  destruct (existsb _ _); [discriminate|].
  injection H9 as <-.
  pose proof (sends_settle_in_order _ _ _ _ _ _ H5) as Hfst.
  cbn [map app] in Hfst.
  destruct (classify_lists _ _ _ _ _ _ _ _ H6) as [Hr Hf].
  cbn [Engine.targetsReached Engine.targetsFailed app] in Hr, Hf.
  eexists. split.
  { cbn [set_signal_relays signal_relays].
    now rewrite K8, K7, K6, K5, K4, K3, K2, K1. }
  cbn [DbSignalRelay.target_servers DbSignalRelay.targets_reached
       DbSignalRelay.targets_failed DbSignalRelay.success
       Engine.targets_reached Engine.targets_failed Engine.relayed].
  do 3 (split; [reflexivity|]).
  rewrite Hr, Hf, <- Hfst.
  split; [apply reached_failed_permutation|].
  split; [apply reached_failed_disjoint|].
  destruct (reached_of results) as [|t l]; cbn [List.length Nat.eqb negb];
    split; split; intros; congruence.
Qed.

(** C9 as stated fails: with the same target requested twice and a socket
    whose first send succeeds and second fails, the target is both in
    [targets_reached] and in [targets_failed]. *)
Lemma relay_record_not_disjoint :
  exists result w',
    Engine.relaySignal first_send_succeeds example_engine
                       (example_request ["A"; "A"]) empty_world
    = (Some result, w') /\
    In "A" (Engine.targets_reached result) /\
    In "A" (Engine.targets_failed result).
Proof.
  eexists _, _. split; [vm_compute; reflexivity|].
  split; left; reflexivity.
Qed.

Lemma relay_record_partition_witness :
  exists result w' record,
    Engine.relaySignal first_send_succeeds example_engine
                       (example_request ["A"; "B"]) empty_world
    = (Some result, w') /\
    signal_relays w' = [record] /\
    Permutation (Engine.targets_reached result ++ Engine.targets_failed result)
                ["A"; "B"] /\
    DbSignalRelay.success record = 1.
Proof.
  eassert (H : Engine.relaySignal first_send_succeeds example_engine
                 (example_request ["A"; "B"]) empty_world = (Some _, _))
    by (vm_compute; reflexivity).
  destruct (relay_record_partition _ _ _ _ _ _ H)
    as (record & Hrec & _ & _ & _ & Hperm & _ & Hsucc & _).
  eexists _, _, record. split; [exact H|].
  split; [exact Hrec|]. split; [exact Hperm|].
  apply Hsucc. discriminate.
Defined.

(** C3, on every run and at the failing input. Every datagram that
    [relaySignal] hands to the socket is the JSON text of
    [{type, sender, payload, priority, timestamp}], which the binary
    decoder refuses; relaying signal 0x50 to the known peer A puts on the
    wire a datagram that [decodeBinaryMessage] refuses and that differs
    from the frame [encodeMessage] builds for the same signal, sender and
    payload. *)
Theorem relay_datagram_is_json_text :
  (forall rt engine request w,
      exists sent,
        wire (snd (Engine.relaySignal rt engine request w))
        = (wire w ++ sent)%list /\
        Forall (fun d =>
                  relay_datagram (Engine.signal_type request)
                                 (Engine.priority request) d /\
                  Protocol.decodeBinaryMessage (snd d) = None) sent) /\
  (exists datagram,
      wire (snd (Engine.relaySignal first_send_succeeds example_engine
                                    (example_request ["A"]) empty_world))
      = [(4001, datagram)] /\
      Protocol.decodeBinaryMessage datagram = None /\
      forall now,
        Protocol.encodeMessage now 80 "synapse-relay" [("x", JNum 1)]
        <> Some datagram).
Proof.
  split.
  - intros rt engine request w.
    destruct (relaySignal_wire rt engine request w) as (sent & E & F).
    exists sent. split; [exact E|].
    eapply Forall_impl; [|exact F].
    intros d Hd. split; [exact Hd|].
    destruct Hd as (payload & timestamp & ->).
    apply json_object_text_not_binary.
  - exists (stringify
              (JObj [("type", JNum 80);
                     ("sender", JStr "synapse-relay");
                     ("payload", JObj [("x", JNum 1)]);
                     ("priority", JStr "normal");
                     ("timestamp", JNum 1700000000001)])).
    split; [vm_compute; reflexivity|].
    split; [apply json_object_text_not_binary|].
    intros now H. unfold Protocol.encodeMessage in H.
    cbn [writeUInt16BE] in H.
    destruct (writeUInt16BE 80) eqn:E0; [|discriminate].
    vm_compute in E0. injection E0 as <-.
    destruct (writeUInt16BE Protocol.PROTOCOL_VERSION); [|discriminate].
    destruct (writeUInt32BE _); [|discriminate].
    destruct (writeUInt32BE _); [|discriminate].
    cbn [append] in H. discriminate.
Qed.

(** C10 (amended). Whatever the configuration, its [buffer_config]
    included, every row that [relaySignal] adds to the buffer has
    [max_retries = 3], [retry_count = 0], status [pending], and an
    [expires_at] that is 24 * 3600000 ms after the clock reading that
    follows the one stored in [buffered_at]; and a run does not depend on
    [buffer_config] at all. *)
Theorem buffered_rows_use_constants :
  (forall rt engine request w,
      exists rows,
        signal_buffer (snd (Engine.relaySignal rt engine request w))
        = (signal_buffer w ++ rows)%list /\
        Forall (buffered_by_engine rt) rows) /\
  (forall rt bc cfg socket request w,
      Engine.relaySignal rt
        {| Engine.config := Some (with_buffer_config bc cfg);
           Engine.udpSocket := socket |} request w =
      Engine.relaySignal rt
        {| Engine.config := Some cfg; Engine.udpSocket := socket |}
        request w).
Proof.
  split.
  - intros rt engine request w. apply relaySignal_rows.
  - reflexivity.
Qed.

(** C10 as stated fails: the clock is read once for [buffered_at] and once
    more for [expires_at]; when it advances in between, [expires_at] is
    not [buffered_at + 24 * 3600000]. *)
Lemma expiry_counts_from_second_reading :
  exists row,
    In row (signal_buffer
              (snd (Engine.relaySignal example_runtime example_engine
                                       (example_request ["A"]) empty_world)))
    /\ DbSignalBuffer.expires_at row
       <> Some (DbSignalBuffer.buffered_at row + 24 * 3600000).
Proof.
  eexists. split; [vm_compute; left; reflexivity|].
  vm_compute. discriminate.
Qed.

(* ------------------------------------------------------------------ *)
(** ** Stats aggregator *)
(* ------------------------------------------------------------------ *)

Lemma count_status_occ s table :
  Schema.count_status s table =
  Z.of_nat (count_occ status_eq_dec (map DbSignalBuffer.status table) s).
Proof.
  unfold Schema.count_status. f_equal.
  induction table as [|b table IH]; [reflexivity|].
  cbn [filter map count_occ].
  destruct (status_eq_dec (DbSignalBuffer.status b) s) as [E|E].
  - rewrite E. replace (status_eqb s s) with true by now destruct s.
    cbn [List.length]. now rewrite IH.
  - replace (status_eqb (DbSignalBuffer.status b) s) with false; [exact IH|].
    destruct (DbSignalBuffer.status b), s; try reflexivity; congruence.
Qed.

(** C4 (amended). The [buffer_stats] field of the stats query reports the
    store's live counts of three states: the number of rows of the buffer
    table whose status is pending, delivered and expired. *)
Theorem buffer_stats_reports_three_counts :
  forall rt since until groupBy includeFailures w,
    let statuses := map DbSignalBuffer.status (signal_buffer w) in
    let reported :=
      StatsAggregator.buffer_stats
        (StatsAggregator.getRelayStatistics rt since until groupBy
                                            includeFailures w) in
    StatsAggregator.pending reported
    = Z.of_nat (count_occ status_eq_dec statuses pending) /\
    StatsAggregator.delivered reported
    = Z.of_nat (count_occ status_eq_dec statuses delivered) /\
    StatsAggregator.expired reported
    = Z.of_nat (count_occ status_eq_dec statuses expired).
Proof.
  intros rt since until groupBy includeFailures w statuses reported.
  subst statuses reported.
  unfold StatsAggregator.getRelayStatistics, Schema.getBufferStats.
  cbn [StatsAggregator.buffer_stats StatsAggregator.pending
       StatsAggregator.delivered StatsAggregator.expired
       Schema.stats_pending Schema.stats_delivered Schema.stats_expired].
  repeat split; apply count_status_occ.
Qed.

(** C4 as stated fails: the result is the same for an empty buffer and
    for a buffer that holds one failed row, so nothing in it is the count
    of failed rows. *)
Lemma buffer_stats_omits_failed :
  ~ StatsAggregator.reports_failed_count example_runtime.
Proof.
  intros [read H].
  pose proof (H 0 None None true empty_world) as H0.
  pose proof (H 0 None None true
                (mkWorld [] []
                   [DbSignalBuffer.set_status failed
                      (fresh_row "id-0" 80 "B" normal 1000)]
                   [] 0 0 0 [])) as H1.
  vm_compute in H0, H1. congruence.
Qed.

(* ------------------------------------------------------------------ *)
(** ** The buffer table, operation by operation

    The operations run one after another; nothing interleaves with the
    loop of an operation. *)
(* ------------------------------------------------------------------ *)

Lemma rewrite_id_ids i f table :
  (forall b, DbSignalBuffer.id (f b) = DbSignalBuffer.id b) ->
  ids (rewrite_id i f table) = ids table.
Proof.
  intros Hf. unfold ids, rewrite_id. rewrite map_map. apply map_ext.
  intros b. destruct (Schema.has_id i b); auto.
Qed.

Lemma rewrite_id_other i f table b :
  In b table -> DbSignalBuffer.id b <> i -> In b (rewrite_id i f table).
Proof.
  intros Hin Hne. unfold rewrite_id. apply in_map_iff. exists b.
  split; [|exact Hin]. unfold Schema.has_id.
  destruct (String.eqb_spec (DbSignalBuffer.id b) i); congruence.
Qed.

Lemma rewrite_id_In i f table b' :
  In b' (rewrite_id i f table) ->
  In b' table \/
  exists b, In b table /\ DbSignalBuffer.id b = i /\ b' = f b.
Proof.
  unfold rewrite_id. intros H. apply in_map_iff in H.
  destruct H as (b & E & Hin). unfold Schema.has_id in E.
  destruct (String.eqb_spec (DbSignalBuffer.id b) i).
  - right. exists b. auto.
  - left. now subst.
Qed.

Lemma updateStatus_rewrite i s table :
  snd (Schema.updateBufferedSignalStatus i s table)
  = rewrite_id i (DbSignalBuffer.set_status s) table.
Proof. reflexivity. Qed.

Lemma increment_rewrite i t table :
  Schema.incrementBufferRetryCount i t table
  = rewrite_id i (DbSignalBuffer.bump_retry t) table.
Proof. reflexivity. Qed.

(** The state after a table statement run through [run_buffer]. *)
Lemma run_buffer_table {A} (f : list DbSignalBuffer.t -> A * list DbSignalBuffer.t) w :
  signal_buffer (snd (run_buffer f w)) = snd (f (signal_buffer w)).
Proof. unfold run_buffer. destruct (f (signal_buffer w)). reflexivity. Qed.

Lemma for_each_invariant {A S} (J : list A -> World -> Prop)
      (body : S -> A -> M S) :
  (forall acc x l w, J (x :: l) w -> J l (snd (body acc x w))) ->
  forall l acc w, J l w ->
    exists l', J l' (snd (for_each l acc body w)).
Proof.
  intros Hstep. induction l as [|x l IH]; intros acc w HJ; cbn [for_each].
  - exists []. exact HJ.
  - unfold bind. pose proof (Hstep acc x l w HJ) as H1.
    destruct (body acc x w) as [[acc'|] w1]; cbn [snd] in *.
    + apply IH. exact H1.
    + exists l. exact H1.
Qed.

(** *** Terminal rows are left alone *)

Lemma status_eqb_pending b :
  status_eqb (DbSignalBuffer.status b) pending = true <->
  DbSignalBuffer.status b = pending.
Proof. destruct (DbSignalBuffer.status b); simpl; split; congruence. Qed.

Lemma expire_keeps_terminal now table b :
  In b table -> terminal b ->
  In b (snd (Schema.expireOldBufferedSignals now table)).
Proof.
  intros Hin Ht. cbn [Schema.expireOldBufferedSignals snd].
  apply in_map_iff. exists b. split; [|exact Hin].
  unfold Schema.overdue.
  destruct (status_eqb (DbSignalBuffer.status b) pending) eqn:E; [|reflexivity].
  apply status_eqb_pending in E. contradiction.
Qed.

Lemma expire_ids now table :
  ids (snd (Schema.expireOldBufferedSignals now table)) = ids table.
Proof.
  cbn [Schema.expireOldBufferedSignals snd]. unfold ids. rewrite map_map.
  apply map_ext. intros b. destruct (Schema.overdue now b); reflexivity.
Qed.

(** In a table with distinct ids a row is the only one of its id. *)
Lemma nodup_ids_unique table b b' :
  NoDup (ids table) -> In b table -> In b' table ->
  DbSignalBuffer.id b = DbSignalBuffer.id b' -> b = b'.
Proof.
  unfold ids. induction table as [|x table IH]; intros Hnd Hb Hb' E;
    [contradiction|].
  cbn [map] in Hnd. inversion Hnd as [|? ? Hnot Hnd']; subst.
  destruct Hb as [->|Hb], Hb' as [->|Hb']; auto.
  - exfalso. apply Hnot. rewrite E. now apply in_map.
  - exfalso. apply Hnot. rewrite <- E. now apply in_map.
Qed.

(** *** Hoare triples on the final state *)

Lemma hoare_ret {A} (P : World -> Prop) (a : A) : hoare P (ret a) P.
Proof. intros w H. exact H. Qed.

Lemma hoare_throw {A} (P : World -> Prop) : hoare P (@throw A) P.
Proof. intros w H. exact H. Qed.

Lemma hoare_bind {A B} P R Q (m : M A) (k : A -> M B) :
  hoare P m R -> (forall a, hoare R (k a) Q) -> (forall w, R w -> Q w) ->
  hoare P (bind m k) Q.
Proof.
  intros Hm Hk Hthrow w HP. unfold bind. specialize (Hm w HP).
  destruct (m w) as [[a|] w1]; cbn [snd] in *; auto.
  now apply Hk.
Qed.

Lemma hoare_seq {A B} P (m : M A) (k : A -> M B) :
  hoare P m P -> (forall a, hoare P (k a) P) -> hoare P (bind m k) P.
Proof. intros Hm Hk. eapply hoare_bind; eauto. Qed.

Lemma hoare_assume {A} (P : World -> Prop) (F : Prop) (m : M A) Q :
  (forall w, P w -> F) -> (F -> hoare P m Q) -> hoare P m Q.
Proof. intros HF H w Hw. exact (H (HF w Hw) w Hw). Qed.

Lemma hoare_weaken {A} (P P' Q Q' : World -> Prop) (m : M A) :
  hoare P m Q -> (forall w, P' w -> P w) -> (forall w, Q w -> Q' w) ->
  hoare P' m Q'.
Proof. intros H HP HQ w Hw. apply HQ, H, HP, Hw. Qed.

Lemma hoare_now rt T : hoare (on_buffer T) (now rt) (on_buffer T).
Proof. intros w H. exact H. Qed.

Lemma hoare_uuidv4 rt T : hoare (on_buffer T) (uuidv4 rt) (on_buffer T).
Proof. intros w H. exact H. Qed.

Lemma hoare_write T T' f :
  (forall t, T t -> T' (f t)) ->
  hoare (on_buffer T) (write_buffer f) (on_buffer T').
Proof. intros H w Hw. apply H, Hw. Qed.

Lemma hoare_run {A} T T' (f : list DbSignalBuffer.t -> A * list DbSignalBuffer.t) :
  (forall t, T t -> T' (snd (f t))) ->
  hoare (on_buffer T) (run_buffer f) (on_buffer T').
Proof.
  intros H w Hw. unfold on_buffer. rewrite run_buffer_table. apply H, Hw.
Qed.

(** A query followed by more: the continuation runs on the state the
    query saw. *)
Lemma hoare_read {A B} T Q (q : list DbSignalBuffer.t -> A) (k : A -> M B) :
  (forall t, hoare (on_buffer (fun t' => T t' /\ t' = t)) (k (q t)) Q) ->
  hoare (on_buffer T) (bind (read_buffer q) k) Q.
Proof.
  intros H w Hw. unfold bind, read_buffer.
  apply (H (signal_buffer w)). split; [exact Hw | reflexivity].
Qed.

Lemma hoare_for_each {A S} (J : list A -> World -> Prop)
      (body : S -> A -> M S) :
  (forall acc x l, hoare (J (x :: l)) (body acc x) (J l)) ->
  forall l acc, hoare (J l) (for_each l acc body) (fun w => exists l', J l' w).
Proof.
  intros Hstep l acc w HJ.
  apply (for_each_invariant J body); [|exact HJ].
  intros acc' x l' w' H. now apply Hstep.
Qed.

(** *** Terminal rows are final *)

Lemma holds_rewrite_id b i f table :
  (forall r, DbSignalBuffer.id (f r) = DbSignalBuffer.id r) ->
  DbSignalBuffer.id b <> i ->
  holds b table -> holds b (rewrite_id i f table).
Proof.
  intros Hf Hne [Hnd Hin]. split.
  - now rewrite rewrite_id_ids.
  - now apply rewrite_id_other.
Qed.

Lemma process_one_holds rt cb acc x b :
  DbSignalBuffer.id b <> DbSignalBuffer.id x ->
  hoare (on_buffer (holds b)) (BufferManager.process_one rt cb acc x)
        (on_buffer (holds b)).
Proof.
  intros Hne. unfold BufferManager.process_one.
  destruct acc as [[retried nDelivered] nFailed].
  apply hoare_seq; [apply hoare_now|]. intros t.
  destruct (BufferManager.too_early t x); [apply hoare_ret|].
  destruct cb as [callback|]; [|apply hoare_ret].
  destruct (callback x) as [[|]|]; [| |apply hoare_throw].
  - apply hoare_seq; [|intro; apply hoare_ret].
    apply hoare_run. intros table. rewrite updateStatus_rewrite.
    now apply holds_rewrite_id.
  - apply hoare_seq; [apply hoare_now|]. intros t'.
    apply hoare_seq.
    + apply hoare_write. intros table. rewrite increment_rewrite.
      now apply holds_rewrite_id.
    + intros _.
      destruct (_ >=? _); [|apply hoare_ret].
      apply hoare_seq; [|intro; apply hoare_ret].
      apply hoare_run. intros table. rewrite updateStatus_rewrite.
      now apply holds_rewrite_id.
Qed.

Lemma flush_one_holds cb acc x b :
  DbSignalBuffer.id b <> DbSignalBuffer.id x ->
  hoare (on_buffer (holds b)) (BufferManager.flush_one cb acc x)
        (on_buffer (holds b)).
Proof.
  intros Hne. unfold BufferManager.flush_one.
  destruct acc as [[flushed nDelivered] nFailed].
  destruct cb as [callback|]; [|apply hoare_ret].
  destruct (callback x) as [[|]|]; [| |apply hoare_throw];
    (apply hoare_seq; [|intro; apply hoare_ret]);
    apply hoare_run; intros table; rewrite updateStatus_rewrite;
    now apply holds_rewrite_id.
Qed.

(** A loop over selected rows, none of which has the id of [b]. *)
Lemma loop_holds {S} (body : S -> DbSignalBuffer.t -> M S) b :
  (forall acc x, DbSignalBuffer.id b <> DbSignalBuffer.id x ->
                 hoare (on_buffer (holds b)) (body acc x) (on_buffer (holds b))) ->
  forall l acc,
    ~ In (DbSignalBuffer.id b) (ids l) ->
    hoare (on_buffer (holds b)) (for_each l acc body) (on_buffer (holds b)).
Proof.
  intros Hbody l acc Hnot.
  pose (J := fun (l : list DbSignalBuffer.t) (w : World) =>
               on_buffer (holds b) w /\ ~ In (DbSignalBuffer.id b) (ids l)).
  eapply hoare_weaken.
  - apply (hoare_for_each J body). intros acc' x l' w [Hw Hl].
    split.
    + apply Hbody; [|exact Hw]. intros E. apply Hl. left. now rewrite E.
    + intros Hin. apply Hl. now right.
  - intros w Hw. split; [exact Hw | exact Hnot].
  - intros w (l' & Hw & _). exact Hw.
Qed.

Lemma selected_not_terminal b table (selected : list DbSignalBuffer.t) :
  holds b table -> terminal b ->
  (forall x, In x selected -> In x table /\ DbSignalBuffer.status x = pending) ->
  ~ In (DbSignalBuffer.id b) (ids selected).
Proof.
  intros [Hnd Hin] Ht Hsel Hid. unfold ids in Hid.
  apply in_map_iff in Hid. destruct Hid as (x & E & Hx).
  destruct (Hsel x Hx) as [Hxt Hp].
  assert (x = b) by (eapply nodup_ids_unique; eauto). subst x.
  contradiction.
Qed.

Lemma pending_rows_spec target table x :
  In x (Schema.getPendingBufferedSignals target table) ->
  In x table /\ DbSignalBuffer.status x = pending.
Proof.
  unfold Schema.getPendingBufferedSignals.
  rewrite order_by_In, filter_In, andb_true_iff, status_eqb_pending. tauto.
Qed.

Lemma find_has_id i table r :
  find (Schema.has_id i) table = Some r ->
  In r table /\ DbSignalBuffer.id r = i.
Proof.
  intros H. apply find_some in H. destruct H as [Hin E].
  split; [exact Hin|]. now apply String.eqb_eq.
Qed.

Lemma retry_one_holds rt cb acc i b :
  terminal b ->
  hoare (on_buffer (holds b)) (BufferManager.retry_one rt cb acc i)
        (on_buffer (holds b)).
Proof.
  intros Ht. unfold BufferManager.retry_one.
  destruct acc as [[attempted nDelivered] nFailed].
  apply hoare_read. intros table.
  assert (Hback : forall w, on_buffer (fun t' => holds b t' /\ t' = table) w ->
                            on_buffer (holds b) w)
    by (unfold on_buffer; tauto).
  unfold Schema.getBufferedSignal.
  destruct (find (Schema.has_id i) table) as [r|] eqn:Ef;
    [|eapply hoare_weaken; [apply hoare_ret|exact Hback|intros ? HQ; exact HQ]].
  destruct (negb (status_eqb (DbSignalBuffer.status r) pending)) eqn:Ep;
    [eapply hoare_weaken; [apply hoare_ret|exact Hback|intros ? HQ; exact HQ]|].
  apply negb_false_iff, status_eqb_pending in Ep.
  destruct (find_has_id _ _ _ Ef) as [Hr Hi].
  (* the row read is pending, so it is not [b] and [b] has another id *)
  apply (hoare_assume _ (holds b table));
    [unfold on_buffer; intros w [H E]; rewrite <- E; exact H|].
  intros [Hnd Hin].
  assert (Hne : DbSignalBuffer.id b <> i).
  { intros E. assert (b = r) by (eapply nodup_ids_unique; eauto; congruence).
    subst r. contradiction. }
  eapply hoare_weaken with (P := on_buffer (holds b)); [|exact Hback|intros ? HQ; exact HQ].
  destruct cb as [callback|]; [|apply hoare_ret].
  destruct (callback r) as [[|]|]; [| |apply hoare_throw].
  - apply hoare_seq; [|intro; apply hoare_ret].
    apply hoare_run. intros t'. rewrite updateStatus_rewrite.
    now apply holds_rewrite_id.
  - apply hoare_seq; [apply hoare_now|]. intros t.
    apply hoare_seq; [|intro; apply hoare_ret].
    apply hoare_write. intros t'. rewrite increment_rewrite.
    now apply holds_rewrite_id.
Qed.

Lemma bufferSignal_holds rt st src tgt pl pr ttl b :
  hoare (on_buffer (holds b))
        (BufferManager.bufferSignal rt st src tgt pl pr ttl)
        (on_buffer (holds b)).
Proof.
  unfold BufferManager.bufferSignal.
  apply hoare_seq; [apply hoare_uuidv4|]. intros bufferId.
  apply hoare_seq; [apply hoare_now|]. intros t1.
  apply hoare_seq; [apply hoare_now|]. intros t2.
  apply hoare_read. intros table.
  apply (hoare_assume _ (holds b table));
    [unfold on_buffer; intros w [H E]; rewrite <- E; exact H|].
  intros [Hnd Hin].
  eapply hoare_weaken with (P := on_buffer (holds b));
    [|unfold on_buffer; tauto|intros ? HQ; exact HQ].
  unfold Schema.insertBufferedSignal.
  destruct (existsb _ table) eqn:E; [apply hoare_throw|].
  apply hoare_seq; [|intro; apply hoare_ret].
  apply hoare_write. intros _ _. split.
  - unfold ids. rewrite map_app. cbn [map DbSignalBuffer.id].
    apply NoDup_app; [exact Hnd | repeat constructor; auto | ].
    intros i Hi [<-|[]].
    unfold ids in Hi. apply in_map_iff in Hi. destruct Hi as (r & Er & Hr).
    assert (Hex : existsb (Schema.has_id bufferId) table = true).
    { apply existsb_exists. exists r. split; [exact Hr|].
      unfold Schema.has_id. rewrite Er. apply String.eqb_refl. }
    cbn [DbSignalBuffer.id] in E. congruence.
  - apply in_or_app. now left.
Qed.

(** X1. Run one after another, the operations of the buffer manager never
    touch a row that is delivered, failed or expired: in a store with
    distinct ids such a row is still there, unchanged, after
    [bufferSignal], [processBuffer], [retryBufferedSignals] and
    [flushBuffer]. *)
Theorem terminal_rows_are_final rt cb b :
  terminal b ->
  (forall st src tgt pl pr ttl,
      hoare (on_buffer (holds b))
            (BufferManager.bufferSignal rt st src tgt pl pr ttl)
            (on_buffer (holds b))) /\
  hoare (on_buffer (holds b)) (BufferManager.processBuffer rt cb)
        (on_buffer (holds b)) /\
  (forall bufferIds,
      hoare (on_buffer (holds b))
            (BufferManager.retryBufferedSignals rt cb bufferIds)
            (on_buffer (holds b))) /\
  (forall target,
      hoare (on_buffer (holds b)) (BufferManager.flushBuffer cb target)
            (on_buffer (holds b))).
Proof.
  intros Ht. split; [|split; [|split]].
  - intros. apply bufferSignal_holds.
  - unfold BufferManager.processBuffer.
    apply hoare_seq; [apply hoare_now|]. intros t0.
    apply hoare_seq.
    { apply hoare_run. intros table [Hnd Hin]. split.
      - now rewrite expire_ids.
      - now apply expire_keeps_terminal. }
    intros expired.
    apply hoare_seq; [apply hoare_now|]. intros t1.
    apply hoare_seq; [apply hoare_now|]. intros t2.
    apply hoare_read. intros table.
    apply (hoare_assume _ (holds b table));
      [unfold on_buffer; intros w [H E]; rewrite <- E; exact H|].
    intros Htab.
    eapply hoare_weaken with (P := on_buffer (holds b));
      [|unfold on_buffer; tauto|intros ? HQ; exact HQ].
    apply hoare_seq; [|intros [[? ?] ?]; apply hoare_ret].
    apply loop_holds.
    + intros acc x Hne. now apply process_one_holds.
    + eapply selected_not_terminal; eauto.
      intros x Hx. apply retryable_rows_spec in Hx. tauto.
  - intros bufferIds. unfold BufferManager.retryBufferedSignals.
    intros w Hw.
    destruct (for_each_invariant
                (fun (_ : list string) w => on_buffer (holds b) w)
                (BufferManager.retry_one rt cb)) with
      (l := bufferIds) (acc := (0, 0, 0)) (w := w) as (l' & H); auto.
    intros acc x l w'. now apply retry_one_holds.
  - intros target. unfold BufferManager.flushBuffer.
    apply hoare_read. intros table.
    apply (hoare_assume _ (holds b table));
      [unfold on_buffer; intros w [H E]; rewrite <- E; exact H|].
    intros Htab.
    eapply hoare_weaken with (P := on_buffer (holds b));
      [|unfold on_buffer; tauto|intros ? HQ; exact HQ].
    apply loop_holds.
    + intros acc x Hne. now apply flush_one_holds.
    + eapply selected_not_terminal; eauto.
      intros x Hx. now apply pending_rows_spec in Hx.
Qed.

(** *** The retry bound outside the manual retry *)

Lemma rewrite_id_bounded i f table :
  (forall r, In r table -> DbSignalBuffer.id r = i -> bounded r ->
             bounded (f r)) ->
  Forall bounded table -> Forall bounded (rewrite_id i f table).
Proof.
  intros Hf Hb. unfold rewrite_id. apply Forall_forall. intros r' Hr'.
  apply in_map_iff in Hr'. destruct Hr' as (r & E & Hr).
  rewrite Forall_forall in Hb. unfold Schema.has_id in E.
  destruct (String.eqb_spec (DbSignalBuffer.id r) i); subst r'; auto.
Qed.

Lemma selected_ok_tail x l table :
  selected_ok (x :: l) table -> selected_ok l table.
Proof.
  intros (Hs & Hnd & Hl). split; [exact Hs|]. split.
  - cbn [ids map] in Hnd. now inversion Hnd.
  - intros y Hy. apply Hl. now right.
Qed.

Lemma selected_ok_status x l s table :
  selected_ok l table -> ~ In (DbSignalBuffer.id x) (ids l) ->
  selected_ok l (rewrite_id (DbSignalBuffer.id x)
                            (DbSignalBuffer.set_status s) table).
Proof.
  intros ([Hnd Hb] & Hl & Hsel) Hx. split; [split|split].
  - now rewrite rewrite_id_ids.
  - apply rewrite_id_bounded; auto.
  - exact Hl.
  - intros y Hy. destruct (Hsel y Hy) as [Hin Hrc]. split; [|exact Hrc].
    apply rewrite_id_other; [exact Hin|].
    intros E. apply Hx. rewrite <- E. unfold ids. now apply in_map.
Qed.

Lemma selected_ok_bump x l t table :
  selected_ok (x :: l) table ->
  selected_ok l (rewrite_id (DbSignalBuffer.id x)
                            (DbSignalBuffer.bump_retry t) table).
Proof.
  intros ([Hnd Hb] & Hl & Hsel).
  destruct (Hsel x (or_introl eq_refl)) as [Hxin Hxrc].
  cbn [ids map] in Hl. inversion Hl as [|? ? Hxl Hl']; subst.
  split; [split|split].
  - now rewrite rewrite_id_ids.
  - apply rewrite_id_bounded; [|exact Hb].
    intros r Hr Er [Hr0 _].
    assert (r = x) by exact (nodup_ids_unique table r x Hnd Hr Hxin Er).
    subst r. unfold bounded. cbn [DbSignalBuffer.bump_retry DbSignalBuffer.retry_count
                         DbSignalBuffer.max_retries]. lia.
  - exact Hl'.
  - intros y Hy. destruct (Hsel y (or_intror Hy)) as [Hin Hrc].
    split; [|exact Hrc]. apply rewrite_id_other; [exact Hin|].
    intros E. apply Hxl. rewrite <- E. unfold ids. now apply in_map.
Qed.

Lemma process_one_bound rt cb acc x l :
  hoare (on_buffer (selected_ok (x :: l)))
        (BufferManager.process_one rt cb acc x)
        (on_buffer (selected_ok l)).
Proof.
  unfold BufferManager.process_one.
  destruct acc as [[retried nDelivered] nFailed].
  assert (Htail : forall w, on_buffer (selected_ok (x :: l)) w ->
                            on_buffer (selected_ok l) w)
    by (unfold on_buffer; intros w; apply selected_ok_tail).
  assert (Hfresh : forall table, selected_ok (x :: l) table ->
                                 ~ In (DbSignalBuffer.id x) (ids l)).
  { intros table (_ & Hnd & _). cbn [ids map] in Hnd. now inversion Hnd. }
  eapply hoare_bind with (R := on_buffer (selected_ok (x :: l)));
    [apply hoare_now| |exact Htail].
  intros t.
  destruct (BufferManager.too_early t x);
    [eapply hoare_weaken; [apply hoare_ret|intros ? HP; exact HP|exact Htail]|].
  destruct cb as [callback|];
    [|eapply hoare_weaken; [apply hoare_ret|intros ? HP; exact HP|exact Htail]].
  destruct (callback x) as [[|]|]; [| |eapply hoare_weaken;
                                        [apply hoare_throw|intros ? HP; exact HP
                                        |exact Htail]].
  - eapply hoare_bind with (R := on_buffer (selected_ok l));
      [|intro; apply hoare_ret|intros ? HQ; exact HQ].
    apply hoare_run. intros table Hsel. rewrite updateStatus_rewrite.
    apply selected_ok_status; [now apply selected_ok_tail in Hsel|].
    now apply (Hfresh table).
  - eapply hoare_bind with (R := on_buffer (selected_ok (x :: l)));
      [apply hoare_now| |exact Htail].
    intros t'.
    eapply hoare_bind with
      (R := on_buffer (fun table => selected_ok l table /\
                                    ~ In (DbSignalBuffer.id x) (ids l)));
      [| |unfold on_buffer; tauto].
    + apply hoare_write. intros table Hsel. rewrite increment_rewrite.
      split; [now apply selected_ok_bump | now apply (Hfresh table)].
    + intros _. destruct (_ >=? _).
      * eapply hoare_bind with (R := on_buffer (selected_ok l));
          [|intro; apply hoare_ret|intros ? HQ; exact HQ].
        apply hoare_run. intros table [Hsel Hx]. rewrite updateStatus_rewrite.
        now apply selected_ok_status.
      * eapply hoare_weaken; [apply hoare_ret|intros ? HP; exact HP
                             |unfold on_buffer; tauto].
Qed.

Lemma flush_one_bound cb acc x l :
  hoare (on_buffer (selected_ok (x :: l)))
        (BufferManager.flush_one cb acc x)
        (on_buffer (selected_ok l)).
Proof.
  unfold BufferManager.flush_one.
  destruct acc as [[flushed nDelivered] nFailed].
  assert (Htail : forall w, on_buffer (selected_ok (x :: l)) w ->
                            on_buffer (selected_ok l) w)
    by (unfold on_buffer; intros w; apply selected_ok_tail).
  assert (Hfresh : forall table, selected_ok (x :: l) table ->
                                 ~ In (DbSignalBuffer.id x) (ids l)).
  { intros table (_ & Hnd & _). cbn [ids map] in Hnd. now inversion Hnd. }
  destruct cb as [callback|];
    [|eapply hoare_weaken; [apply hoare_ret|intros ? HP; exact HP|exact Htail]].
  destruct (callback x) as [[|]|]; [| |eapply hoare_weaken;
                                        [apply hoare_throw|intros ? HP; exact HP
                                        |exact Htail]];
    (eapply hoare_bind with (R := on_buffer (selected_ok l));
     [|intro; apply hoare_ret|intros ? HQ; exact HQ]);
    apply hoare_run; intros table Hsel; rewrite updateStatus_rewrite;
    (apply selected_ok_status; [now apply selected_ok_tail in Hsel|]);
    now apply (Hfresh table).
Qed.

(** Sorting and filtering a table with distinct ids gives rows with
    distinct ids. *)
Lemma insert_sorted_perm {A} (before : A -> A -> bool) x l :
  Permutation (insert_sorted before x l) (x :: l).
Proof.
  induction l as [|y l IH]; cbn [insert_sorted]; [reflexivity|].
  destruct (before x y); [reflexivity|].
  rewrite IH. apply perm_swap.
Qed.

Lemma order_by_perm {A} (before : A -> A -> bool) l :
  Permutation (order_by before l) l.
Proof.
  unfold order_by. induction l as [|x l IH]; cbn [fold_right]; [reflexivity|].
  rewrite insert_sorted_perm. now constructor.
Qed.

Lemma ids_filter_nodup f table :
  NoDup (ids table) -> NoDup (ids (filter f table)).
Proof.
  unfold ids. induction table as [|x table IH]; intros Hnd; [constructor|].
  cbn [map] in Hnd. inversion Hnd as [|? ? Hnot Hnd']; subst.
  cbn [filter]. destruct (f x); [|auto].
  cbn [map]. constructor; [|auto].
  intros Hin. apply Hnot. apply in_map_iff in Hin.
  destruct Hin as (y & E & Hy). apply filter_In in Hy.
  apply in_map_iff. exists y. tauto.
Qed.

Lemma ids_selected_nodup before f table :
  NoDup (ids table) -> NoDup (ids (order_by before (filter f table))).
Proof.
  intros Hnd. unfold ids.
  eapply Permutation_NoDup.
  - apply Permutation_map, Permutation_sym, order_by_perm.
  - now apply ids_filter_nodup.
Qed.

(** X2. Run one after another, [bufferSignal], [processBuffer] and
    [flushBuffer] keep every row within its retry budget:
    [0 <= retry_count <= max_retries]. *)
Theorem retry_bound_outside_manual_retry rt cb :
  (forall st src tgt pl pr ttl,
      hoare (on_buffer store_ok)
            (BufferManager.bufferSignal rt st src tgt pl pr ttl)
            (on_buffer store_ok)) /\
  hoare (on_buffer store_ok) (BufferManager.processBuffer rt cb)
        (on_buffer store_ok) /\
  (forall target,
      hoare (on_buffer store_ok) (BufferManager.flushBuffer cb target)
            (on_buffer store_ok)).
Proof.
  split; [|split].
  - intros st src tgt pl pr ttl. unfold BufferManager.bufferSignal.
    apply hoare_seq; [apply hoare_uuidv4|]. intros bufferId.
    apply hoare_seq; [apply hoare_now|]. intros t1.
    apply hoare_seq; [apply hoare_now|]. intros t2.
    apply hoare_read. intros table.
    apply (hoare_assume _ (store_ok table));
      [unfold on_buffer; intros w [H E]; rewrite <- E; exact H|].
    intros [Hnd Hb].
    eapply hoare_weaken with (P := on_buffer store_ok);
      [|unfold on_buffer; tauto|intros ? HQ; exact HQ].
    unfold Schema.insertBufferedSignal.
    destruct (existsb _ table) eqn:E; [apply hoare_throw|].
    apply hoare_seq; [|intro; apply hoare_ret].
    apply hoare_write. intros _ _. split.
    + unfold ids. rewrite map_app. cbn [map DbSignalBuffer.id].
      apply NoDup_app; [exact Hnd | repeat constructor; auto | ].
      intros i Hi [<-|[]].
      unfold ids in Hi. apply in_map_iff in Hi. destruct Hi as (r & Er & Hr).
      assert (Hex : existsb (Schema.has_id bufferId) table = true).
      { apply existsb_exists. exists r. split; [exact Hr|].
        unfold Schema.has_id. rewrite Er. apply String.eqb_refl. }
      cbn [DbSignalBuffer.id] in E. congruence.
    + apply Forall_app. split; [exact Hb|].
      constructor; [|constructor]. unfold bounded, BufferManager.MAX_RETRIES.
      cbn [DbSignalBuffer.retry_count DbSignalBuffer.max_retries]. lia.
  - unfold BufferManager.processBuffer.
    apply hoare_seq; [apply hoare_now|]. intros t0.
    apply hoare_seq.
    { apply hoare_run. intros table [Hnd Hb]. split.
      - now rewrite expire_ids.
      - cbn [Schema.expireOldBufferedSignals snd].
        apply Forall_forall. intros r' Hr'. apply in_map_iff in Hr'.
        destruct Hr' as (r & E & Hr). rewrite Forall_forall in Hb.
        specialize (Hb r Hr). destruct (Schema.overdue t0 r); subst r'; auto. }
    intros expired.
    apply hoare_seq; [apply hoare_now|]. intros t1.
    apply hoare_seq; [apply hoare_now|]. intros t2.
    apply hoare_read. intros table.
    set (selected := Schema.getRetryableBufferedSignals _ _ table).
    eapply hoare_bind with (R := on_buffer store_ok);
      [|intros [[? ?] ?]; apply hoare_ret|intros ? HQ; exact HQ].
    eapply hoare_weaken.
    + apply (hoare_for_each (fun l w => on_buffer (selected_ok l) w)).
      intros acc x l. apply process_one_bound.
    + unfold on_buffer. intros w [[Hnd Hb] E]. rewrite E in *.
      split; [split; assumption|]. split.
      * now apply ids_selected_nodup.
      * intros y Hy. apply retryable_rows_spec in Hy. tauto.
    + intros w (l' & H & _). exact H.
  - intros target. unfold BufferManager.flushBuffer.
    apply hoare_read. intros table.
    eapply hoare_weaken.
    + apply (hoare_for_each
               (fun l w => on_buffer
                             (fun t => store_ok t /\ NoDup (ids l)) w)).
      intros acc x l. unfold BufferManager.flush_one.
      destruct acc as [[flushed nDelivered] nFailed].
      assert (Htail : forall w : World,
                 on_buffer (fun t => store_ok t /\ NoDup (ids (x :: l))) w ->
                 on_buffer (fun t => store_ok t /\ NoDup (ids l)) w).
      { unfold on_buffer. intros w [H Hnd]. split; [exact H|].
        cbn [ids map] in Hnd. now inversion Hnd. }
      destruct cb as [callback|];
        [|eapply hoare_weaken; [apply hoare_ret|intros ? HP; exact HP
                               |exact Htail]].
      destruct (callback x) as [[|]|];
        [| |eapply hoare_weaken; [apply hoare_throw|intros ? HP; exact HP
                                 |exact Htail]];
        (eapply hoare_bind with
           (R := on_buffer (fun t => store_ok t /\ NoDup (ids l)));
         [|intro; apply hoare_ret|intros ? HQ; exact HQ]);
        apply hoare_run; intros t [[Hnd Hb] Hl]; rewrite updateStatus_rewrite;
        (split; [split|]);
        [ now rewrite rewrite_id_ids
        | apply rewrite_id_bounded; auto
        | cbn [ids map] in Hl; now inversion Hl
        | now rewrite rewrite_id_ids
        | apply rewrite_id_bounded; auto
        | cbn [ids map] in Hl; now inversion Hl ].
    + unfold on_buffer. intros w [[Hnd Hb] E]. rewrite E in *.
      split; [split; assumption|].
      now apply ids_selected_nodup.
    + unfold on_buffer. intros w (l' & H & _). exact H.
Qed.

(** *** What [clearBufferedSignals] does delete *)

Lemma filter_length_split {A} (f : A -> bool) (l : list A) :
  (List.length (filter f l) + List.length (filter (fun x => negb (f x)) l)
   = List.length l)%nat.
Proof.
  induction l as [|x l IH]; [reflexivity|].
  cbn [filter]. destruct (f x); cbn [negb List.length]; lia.
Qed.

Lemma has_id_count i table :
  NoDup (ids table) ->
  List.length (filter (Schema.has_id i) table)
  = if existsb (Schema.has_id i) table then 1%nat else 0%nat.
Proof.
  unfold ids. induction table as [|b t IH]; intros Hnd; [reflexivity|].
  cbn [map] in Hnd. inversion Hnd as [|? ? Hnot Hnd']; subst.
  cbn [filter existsb].
  destruct (Schema.has_id i b) eqn:E; cbn [orb List.length]; [|now apply IH].
  apply String.eqb_eq in E.
  replace (filter (Schema.has_id i) t) with (@nil DbSignalBuffer.t);
    [reflexivity|].
  symmetry. clear IH Hnd Hnd'.
  induction t as [|c t IHt]; [reflexivity|].
  cbn [filter]. unfold Schema.has_id at 1.
  destruct (String.eqb_spec (DbSignalBuffer.id c) i) as [Ec|Ec].
  - exfalso. apply Hnot. left. congruence.
  - apply IHt. intros H. apply Hnot. now right.
Qed.

(** The loop of [clearBufferedSignals] over the listed ids: the rows of
    these ids are gone, the other rows are as they were, and the count
    grows by one for every id that had a row. *)
Lemma clear_ids_loop ids0 : forall cleared w,
  exists n w',
    for_each ids0 cleared
      (fun cleared id =>
         removed <- run_buffer (Schema.deleteBufferedSignal id) ;;
         ret (if removed : bool then cleared + 1 else cleared)) w
    = (Some (cleared + n), w') /\
    signal_buffer w'
    = filter (fun b => negb (existsb (String.eqb (DbSignalBuffer.id b)) ids0))
             (signal_buffer w) /\
    0 <= n <= Z.of_nat (List.length ids0) /\
    (NoDup (ids (signal_buffer w)) ->
     n = Z.of_nat (List.length (signal_buffer w))
         - Z.of_nat (List.length (signal_buffer w'))).
Proof.
  induction ids0 as [|i ids0 IH]; intros cleared w; cbn [for_each].
  - exists 0, w. split; [unfold ret; now rewrite Z.add_0_r|].
    split.
    + cbn [existsb negb]. induction (signal_buffer w) as [|b t IHt];
        [reflexivity|]. cbn [filter]. now rewrite <- IHt.
    + split; [simpl; lia|]. intros _. lia.
  - unfold bind at 1. unfold bind at 1.
    unfold run_buffer at 1. cbn [Schema.deleteBufferedSignal].
    set (w1 := set_signal_buffer
                 (filter (fun b => negb (Schema.has_id i b)) (signal_buffer w)) w).
    unfold ret at 1.
    destruct (IH (if existsb (Schema.has_id i) (signal_buffer w)
                  then cleared + 1 else cleared) w1)
      as (n & w' & Hrun & Htab & Hn & Hcount).
    exists ((if existsb (Schema.has_id i) (signal_buffer w) then 1 else 0) + n), w'.
    split.
    { rewrite Hrun. f_equal. f_equal.
      destruct (existsb (Schema.has_id i) (signal_buffer w)); lia. }
    split.
    { rewrite Htab. subst w1. cbn [set_signal_buffer signal_buffer].
      clear. induction (signal_buffer w) as [|b t IHt]; [reflexivity|].
      cbn [filter existsb]. unfold Schema.has_id at 1.
      destruct (String.eqb (DbSignalBuffer.id b) i); cbn [negb orb];
        [exact IHt|].
      cbn [filter]. destruct (existsb _ ids0); cbn [negb]; now rewrite IHt. }
    split.
    { cbn [List.length]. destruct (existsb _ _); lia. }
    intros Hnd.
    assert (Hnd1 : NoDup (ids (signal_buffer w1)))
      by (subst w1; cbn [set_signal_buffer signal_buffer];
          now apply ids_filter_nodup).
    rewrite (Hcount Hnd1). subst w1. cbn [set_signal_buffer signal_buffer].
    pose proof (filter_length_split (Schema.has_id i) (signal_buffer w)) as Hs.
    pose proof (has_id_count i (signal_buffer w) Hnd) as Hone.
    destruct (existsb (Schema.has_id i) (signal_buffer w)); lia.
Qed.

(** X3. With ids given, [clearBufferedSignals] deletes the rows of these ids,
    whatever the other filters say, and returns how many rows it
    deleted. *)
Lemma clear_by_ids_spec id0 listed target signalType maxAgeHours w :
  NoDup (ids (signal_buffer w)) ->
  exists n w',
    BufferManager.clearBufferedSignals
      {| BufferManager.bufferIds := Some (id0 :: listed);
         BufferManager.targetServer := target;
         BufferManager.signalType := signalType;
         BufferManager.maxAgeHours := maxAgeHours |} w = (Some n, w') /\
    signal_buffer w'
    = filter (fun b => negb (existsb (String.eqb (DbSignalBuffer.id b))
                                     (id0 :: listed)))
             (signal_buffer w) /\
    n = Z.of_nat (List.length (signal_buffer w))
        - Z.of_nat (List.length (signal_buffer w')).
Proof.
  intros Hnd. unfold BufferManager.clearBufferedSignals.
  cbn [BufferManager.bufferIds].
  destruct (clear_ids_loop (id0 :: listed) 0 w)
    as (n & w' & Hrun & Htab & _ & Hcount).
  exists n, w'. rewrite Hrun. auto.
Qed.

(** Without ids, a non-empty target deletes the rows buffered for that
    target and returns their number. *)
Lemma clear_by_target_spec target signalType maxAgeHours w :
  target <> EmptyString ->
  BufferManager.clearBufferedSignals
    {| BufferManager.bufferIds := None;
       BufferManager.targetServer := Some target;
       BufferManager.signalType := signalType;
       BufferManager.maxAgeHours := maxAgeHours |} w
  = (Some (Z.of_nat
             (List.length
                (filter (fun b => String.eqb (DbSignalBuffer.target_server b)
                                             target)
                        (signal_buffer w)))),
     set_signal_buffer
       (filter (fun b => negb (String.eqb (DbSignalBuffer.target_server b)
                                          target))
               (signal_buffer w)) w).
Proof.
  intros Hne. unfold BufferManager.clearBufferedSignals.
  cbn [BufferManager.bufferIds BufferManager.targetServer].
  destruct (String.eqb_spec target EmptyString); [contradiction|].
  reflexivity.
Qed.

(* ------------------------------------------------------------------ *)
(** ** Buffer manager: what [flushBuffer] leaves behind *)
(* ------------------------------------------------------------------ *)

Lemma getPending_filter target table :
  Schema.getPendingBufferedSignals target table
  = order_by Schema.by_buffered_at (filter (pending_for target) table).
Proof. reflexivity. Qed.

Lemma listed_iff (l table : list DbSignalBuffer.t) b :
  NoDup (ids table) -> In b table -> (forall x, In x l -> In x table) ->
  existsb (Schema.has_id (DbSignalBuffer.id b)) l = true <-> In b l.
Proof.
  intros Hnd Hb Hl. rewrite existsb_exists. split.
  - intros (x & Hx & E). unfold Schema.has_id in E. apply String.eqb_eq in E.
    assert (x = b) by (eapply nodup_ids_unique; eauto). now subst.
  - intros Hin. exists b. split; [exact Hin|].
    unfold Schema.has_id. apply String.eqb_refl.
Qed.

Lemma flushed_row_id cb b :
  DbSignalBuffer.id (flushed_row cb b) = DbSignalBuffer.id b.
Proof. reflexivity. Qed.

(** The loop of [flushBuffer] over rows [l] of the table, with a callback
    that resolves on each of them: the counters advance by the number of
    rows, and each row of [l] is settled in the table. *)
Lemma flush_loop callback cb (l : list DbSignalBuffer.t) :
  forall a d f w,
    resolves_on callback cb l ->
    NoDup (ids (signal_buffer w)) -> NoDup (ids l) ->
    (forall x, In x l -> In x (signal_buffer w)) ->
    exists d' f' w',
      for_each l (a, d, f) (BufferManager.flush_one (Some callback)) w
      = (Some (a + Z.of_nat (List.length l), d + d', f + f'), w') /\
      0 <= d' /\ 0 <= f' /\ d' + f' = Z.of_nat (List.length l) /\
      signal_buffer w'
      = map (fun b => if existsb (Schema.has_id (DbSignalBuffer.id b)) l
                      then flushed_row cb b else b) (signal_buffer w).
Proof.
  induction l as [|x l IH]; intros a d f w Hres Hnd Hl Hin.
  - exists 0, 0, w. cbn [for_each List.length existsb]. unfold ret.
    rewrite !Z.add_0_r. repeat split; try lia.
    symmetry. apply map_id.
  - cbn [ids map] in Hl. inversion Hl as [|? ? Hx Hl']; subst.
    inversion Hres as [|? ? Hcb Hres']; subst.
    set (s := if cb x then delivered else failed).
    set (w1 := set_signal_buffer
                 (rewrite_id (DbSignalBuffer.id x) (DbSignalBuffer.set_status s)
                             (signal_buffer w)) w).
    assert (Hstep : BufferManager.flush_one (Some callback) (a, d, f) x w
                    = (Some (a + 1, (if cb x then d + 1 else d),
                             (if cb x then f else f + 1)), w1)).
    { unfold BufferManager.flush_one, w1, s. rewrite Hcb.
      destruct (cb x); unfold bind, run_buffer, ret;
        cbn [Schema.updateBufferedSignalStatus]; reflexivity. }
    assert (Hnd1 : NoDup (ids (signal_buffer w1))).
    { unfold w1. cbn [signal_buffer set_signal_buffer].
      rewrite rewrite_id_ids; [exact Hnd|reflexivity]. }
    assert (Hin1 : forall y, In y l -> In y (signal_buffer w1)).
    { intros y Hy. unfold w1. cbn [signal_buffer set_signal_buffer].
      apply rewrite_id_other; [apply Hin; now right|].
      intros E. apply Hx. unfold ids. rewrite <- E. now apply in_map. }
    destruct (IH (a + 1) (if cb x then d + 1 else d)
                 (if cb x then f else f + 1) w1 Hres' Hnd1 Hl' Hin1)
      as (d' & f' & w' & Hrun & Hd & Hf & Hsum & Htab).
    exists (if cb x then d' + 1 else d'), (if cb x then f' else f' + 1), w'.
    split.
    { cbn [for_each]. unfold bind at 1. rewrite Hstep, Hrun.
      f_equal. f_equal.
      cbn [List.length]. rewrite Nat2Z.inj_succ.
      apply pair_equal_spec. split; [apply pair_equal_spec; split|];
        destruct (cb x); lia. }
    split; [destruct (cb x); lia|].
    split; [destruct (cb x); lia|].
    split; [cbn [List.length]; rewrite Nat2Z.inj_succ; destruct (cb x); lia|].
    rewrite Htab. unfold w1. cbn [signal_buffer set_signal_buffer].
    unfold rewrite_id. rewrite map_map. apply map_ext_in. intros b Hb.
    cbn [existsb]. unfold Schema.has_id.
    rewrite (String.eqb_sym (DbSignalBuffer.id x) (DbSignalBuffer.id b)).
    destruct (String.eqb_spec (DbSignalBuffer.id b) (DbSignalBuffer.id x))
      as [E|Hne].
    + assert (b = x).
      { apply (nodup_ids_unique (signal_buffer w)); auto.
        apply Hin. now left. }
      subst b. cbn [orb].
      replace (existsb _ l) with false; [reflexivity|].
      symmetry. apply not_true_iff_false. intros Hex.
      apply existsb_exists in Hex. destruct Hex as (y & Hy & Ey).
      apply Hx. unfold ids. apply in_map_iff. exists y. split; [|exact Hy].
      cbn [flushed_row DbSignalBuffer.set_status DbSignalBuffer.id] in Ey.
      now apply String.eqb_eq in Ey.
    + cbn [orb]. reflexivity.
Qed.

Lemma settled_rows_not_selected cb target table :
  filter (pending_for target)
         (map (fun b => if pending_for target b then flushed_row cb b else b)
              table) = [].
Proof.
  induction table as [|b t IHt]; [reflexivity|].
  cbn [map filter]. rewrite IHt.
  destruct (pending_for target b) eqn:P.
  - unfold pending_for, flushed_row. destruct (cb b); reflexivity.
  - now rewrite P.
Qed.

(** X4. With a delivery callback that resolves for every row selected
    (no promise of it rejects), [flushBuffer] settles every row it
    selects: in a store with distinct ids, each pending row (of the
    target, when one is given) becomes [delivered] or [failed] by the
    verdict of the callback, every other row is left as it is, the
    counters [delivered] and [failed] add up to [flushed], the number of
    rows selected, and no row of the selection is pending afterwards. *)
Theorem flushBuffer_settles_selection callback verdict target w :
  NoDup (ids (signal_buffer w)) ->
  resolves_on callback verdict
              (Schema.getPendingBufferedSignals target (signal_buffer w)) ->
  exists nDelivered nFailed w',
    BufferManager.flushBuffer (Some callback) target w
    = (Some (Z.of_nat (List.length
                         (Schema.getPendingBufferedSignals
                            target (signal_buffer w))),
             nDelivered, nFailed), w') /\
    nDelivered + nFailed
    = Z.of_nat (List.length
                  (Schema.getPendingBufferedSignals target (signal_buffer w))) /\
    signal_buffer w'
    = map (fun b => if pending_for target b then flushed_row verdict b else b)
          (signal_buffer w) /\
    Schema.getPendingBufferedSignals target (signal_buffer w') = [].
Proof.
  intros Hnd Hres.
  set (l := Schema.getPendingBufferedSignals target (signal_buffer w)).
  assert (Hl : NoDup (ids l)) by (now apply ids_selected_nodup).
  assert (Hin : forall x, In x l -> In x (signal_buffer w)).
  { intros x Hx. now apply pending_rows_spec in Hx. }
  destruct (flush_loop callback verdict l 0 0 0 w Hres Hnd Hl Hin)
    as (d & f & w' & Hrun & Hd & Hf & Hsum & Htab).
  assert (Htab' : signal_buffer w'
                  = map (fun b => if pending_for target b
                                  then flushed_row verdict b else b)
                        (signal_buffer w)).
  { rewrite Htab. apply map_ext_in. intros b Hb.
    destruct (existsb _ l) eqn:E.
    - apply (listed_iff l (signal_buffer w) b Hnd Hb Hin) in E.
      unfold l in E. rewrite getPending_filter, order_by_In, filter_In in E.
      destruct E as [_ ->]. reflexivity.
    - destruct (pending_for target b) eqn:P; [|reflexivity].
      exfalso. apply not_true_iff_false in E. apply E.
      apply (listed_iff l (signal_buffer w) b Hnd Hb Hin).
      unfold l. rewrite getPending_filter, order_by_In, filter_In. auto. }
  exists d, f, w'. split; [|split; [|split]].
  - unfold BufferManager.flushBuffer, bind, read_buffer. fold l.
    rewrite Hrun. reflexivity.
  - fold l. lia.
  - exact Htab'.
  - rewrite Htab', getPending_filter, settled_rows_not_selected.
    reflexivity.
Qed.

Lemma flushBuffer_settles_selection_witness :
  exists nDelivered nFailed w',
    BufferManager.flushBuffer
      (Some (fun b => Some (String.eqb (DbSignalBuffer.target_server b) "A")))
      None
      (mkWorld [] [] [fresh_row "id-0" 80 "A" normal 1000;
                      fresh_row "id-1" 80 "B" high 2000] [] 0 0 0 [])
    = (Some (2, nDelivered, nFailed), w') /\
    nDelivered + nFailed = 2 /\
    map DbSignalBuffer.status (signal_buffer w') = [delivered; failed].
Proof.
  destruct (flushBuffer_settles_selection
              (fun b => Some (String.eqb (DbSignalBuffer.target_server b) "A"))
              (fun b => String.eqb (DbSignalBuffer.target_server b) "A") None
              (mkWorld [] [] [fresh_row "id-0" 80 "A" normal 1000;
                              fresh_row "id-1" 80 "B" high 2000] [] 0 0 0 []))
    as (d & f & w' & Hrun & Hsum & Htab & _).
  - cbn. constructor; [intros [H|[]]; discriminate|].
    constructor; [intros []|constructor].
  - apply Forall_forall. intros b _. reflexivity.
  - exists d, f, w'. split; [exact Hrun|]. split; [exact Hsum|].
    rewrite Htab. reflexivity.
Defined.

(* ------------------------------------------------------------------ *)
(** ** Buffer manager: before a delivery callback is installed *)
(* ------------------------------------------------------------------ *)

(** Equality of two runs that differ in their counters only. *)
Ltac same_counters :=
  f_equal; f_equal;
  apply pair_equal_spec; split; [apply pair_equal_spec; split|];
  try reflexivity; lia.

Lemma flush_loop_no_callback (l : list DbSignalBuffer.t) :
  forall a d f w,
    for_each l (a, d, f) (BufferManager.flush_one None) w
    = (Some (a + Z.of_nat (List.length l), d, f), w).
Proof.
  induction l as [|x l IH]; intros a d f w; cbn [for_each].
  - unfold ret. cbn [List.length]. now rewrite Z.add_0_r.
  - unfold bind. cbn [BufferManager.flush_one]. unfold ret at 1.
    rewrite IH. cbn [List.length]. rewrite Nat2Z.inj_succ.
    same_counters.
Qed.

Lemma retry_loop_no_callback rt (l : list string) :
  forall a d f w,
    for_each l (a, d, f) (BufferManager.retry_one rt None) w
    = (Some (a + Z.of_nat
                   (List.length
                      (filter (fun id =>
                                 match Schema.getBufferedSignal
                                         id (signal_buffer w) with
                                 | Some b =>
                                     status_eqb (DbSignalBuffer.status b) pending
                                 | None => false
                                 end) l)), d, f), w).
Proof.
  induction l as [|id l IH]; intros a d f w; cbn [for_each filter].
  - unfold ret. cbn [List.length]. now rewrite Z.add_0_r.
  - unfold bind at 1. unfold BufferManager.retry_one.
    unfold bind at 1. unfold read_buffer at 1.
    destruct (Schema.getBufferedSignal id (signal_buffer w)) as [b|].
    + destruct (status_eqb (DbSignalBuffer.status b) pending);
        cbn [negb]; unfold ret at 1; rewrite IH; [|reflexivity].
      cbn [List.length]. rewrite Nat2Z.inj_succ. same_counters.
    + unfold ret at 1. now rewrite IH.
Qed.

(** X5. Until [setDeliveryCallback] has installed a callback, no operation
    delivers anything: [flushBuffer] and [retryBufferedSignals] leave the
    whole state as it is and report no delivery and no failure, although
    they count every pending row they went through as flushed or
    attempted. *)
Theorem no_callback_no_delivery rt :
  (forall target w,
      BufferManager.flushBuffer None target w
      = (Some (Z.of_nat (List.length
                           (Schema.getPendingBufferedSignals
                              target (signal_buffer w))), 0, 0), w)) /\
  (forall bufferIds w,
      BufferManager.retryBufferedSignals rt None bufferIds w
      = (Some (Z.of_nat
                 (List.length
                    (filter (fun id =>
                               match Schema.getBufferedSignal
                                       id (signal_buffer w) with
                               | Some b =>
                                   status_eqb (DbSignalBuffer.status b) pending
                               | None => false
                               end) bufferIds)), 0, 0), w)).
Proof.
  split.
  - intros target w. unfold BufferManager.flushBuffer, bind, read_buffer.
    now rewrite flush_loop_no_callback.
  - intros bufferIds w. unfold BufferManager.retryBufferedSignals.
    now rewrite retry_loop_no_callback.
Qed.

(* ------------------------------------------------------------------ *)
(** ** Buffer manager: [processBuffer] expires before it retries *)
(* ------------------------------------------------------------------ *)

Lemma rewrite_id_Forall (P : DbSignalBuffer.t -> Prop) i f table :
  (forall b, P b -> P (f b)) ->
  Forall P table -> Forall P (rewrite_id i f table).
Proof.
  intros Hf H. unfold rewrite_id. apply Forall_map.
  eapply Forall_impl; [|exact H].
  intros b Hb. destruct (Schema.has_id i b); auto.
Qed.

Lemma overdue_settled t0 s b :
  s <> pending -> Schema.overdue t0 (DbSignalBuffer.set_status s b) = false.
Proof. intros Hs. unfold Schema.overdue. destruct s; try reflexivity. congruence. Qed.

Lemma overdue_bump t0 t b :
  Schema.overdue t0 (DbSignalBuffer.bump_retry t b) = Schema.overdue t0 b.
Proof. reflexivity. Qed.

Lemma expire_leaves_none_overdue t0 table :
  Forall (fun b => Schema.overdue t0 b = false)
         (snd (Schema.expireOldBufferedSignals t0 table)).
Proof.
  cbn [Schema.expireOldBufferedSignals snd]. apply Forall_map.
  apply Forall_forall. intros b _.
  destruct (Schema.overdue t0 b) eqn:E; [|exact E].
  apply overdue_settled. discriminate.
Qed.

Lemma process_one_no_overdue rt cb t0 acc x :
  hoare (on_buffer (Forall (fun b => Schema.overdue t0 b = false)))
        (BufferManager.process_one rt cb acc x)
        (on_buffer (Forall (fun b => Schema.overdue t0 b = false))).
Proof.
  unfold BufferManager.process_one.
  destruct acc as [[retried nDelivered] nFailed].
  apply hoare_seq; [apply hoare_now|]. intros t.
  destruct (BufferManager.too_early t x); [apply hoare_ret|].
  destruct cb as [callback|]; [|apply hoare_ret].
  destruct (callback x) as [[|]|]; [| |apply hoare_throw].
  - apply hoare_seq; [|intro; apply hoare_ret].
    apply hoare_run. intros table H. rewrite updateStatus_rewrite.
    apply rewrite_id_Forall; [|exact H].
    intros b _. apply overdue_settled. discriminate.
  - apply hoare_seq; [apply hoare_now|]. intros t'.
    apply hoare_seq.
    + apply hoare_write. intros table H. rewrite increment_rewrite.
      apply rewrite_id_Forall; [|exact H].
      intros b Hb. now rewrite overdue_bump.
    + intros _. destruct (_ >=? _); [|apply hoare_ret].
      apply hoare_seq; [|intro; apply hoare_ret].
      apply hoare_run. intros table H. rewrite updateStatus_rewrite.
      apply rewrite_id_Forall; [|exact H].
      intros b _. apply overdue_settled. discriminate.
Qed.

(** With a callback that never rejects, the loop of [processBuffer]
    does not throw. *)
Lemma process_loop_returns rt cb (l : list DbSignalBuffer.t) :
  never_rejects cb ->
  forall acc w, exists acc' w',
    for_each l acc (BufferManager.process_one rt cb) w = (Some acc', w').
Proof.
  intros Hcb. induction l as [|x l IH]; intros acc w; cbn [for_each].
  - eexists _, _. reflexivity.
  - assert (H : exists acc1 w1,
               BufferManager.process_one rt cb acc x w = (Some acc1, w1)).
    { unfold BufferManager.process_one.
      destruct acc as [[retried nDelivered] nFailed].
      unfold bind at 1. unfold now at 1.
      destruct (BufferManager.too_early _ x); [eexists _, _; reflexivity|].
      destruct cb as [callback|]; [|eexists _, _; reflexivity].
      destruct (callback x) as [[|]|] eqn:Ecb;
        [| |exfalso; exact (Hcb x Ecb)].
      - unfold bind, run_buffer, ret.
        cbn [Schema.updateBufferedSignalStatus]. eexists _, _. reflexivity.
      - unfold bind, now, write_buffer, run_buffer, ret.
        cbn [Schema.updateBufferedSignalStatus].
        destruct (_ >=? _); eexists _, _; reflexivity. }
    destruct H as (acc1 & w1 & H). unfold bind. rewrite H. apply IH.
Qed.

(** X6. Whatever the delivery callback does, when [processBuffer] is
    done, with a result or with the rejection of the callback, no row is
    both pending and overdue at its first reading of the clock: expiry
    comes before any retry, and an expired row is never put back.  With
    a callback that never rejects, or with none, [processBuffer]
    returns, and the [expired] field of its result is the number of
    pending rows whose [expires_at] lies before that reading. *)
Theorem processBuffer_expires_overdue_rows rt cb w :
  Forall (fun b => Schema.overdue (clock rt (clock_reads w)) b = false)
         (signal_buffer (snd (BufferManager.processBuffer rt cb w))) /\
  (never_rejects cb ->
   exists result w',
     BufferManager.processBuffer rt cb w = (Some result, w') /\
     BufferManager.expired_count result
     = Z.of_nat (List.length
                   (filter (Schema.overdue (clock rt (clock_reads w)))
                           (signal_buffer w)))).
Proof.
  set (t0 := clock rt (clock_reads w)).
  assert (Hpost : Forall (fun b => Schema.overdue t0 b = false)
                         (signal_buffer
                            (snd (BufferManager.processBuffer rt cb w)))).
  { unfold BufferManager.processBuffer. unfold bind at 1. unfold now at 1.
    fold t0.
    match goal with
    | |- Forall _ (signal_buffer (snd (bind ?m ?k ?w1))) =>
        assert (H : hoare (fun _ => True) (bind m k)
                          (on_buffer (Forall (fun b => Schema.overdue t0 b = false))));
        [|exact (H w1 I)]
    end.
    eapply hoare_bind with
      (R := on_buffer (Forall (fun b => Schema.overdue t0 b = false)));
      [| |intros ? HQ; exact HQ].
    - intros w1 _. unfold on_buffer. rewrite run_buffer_table.
      apply expire_leaves_none_overdue.
    - intros expired.
      apply hoare_seq; [apply hoare_now|]. intros t1.
      apply hoare_seq; [apply hoare_now|]. intros t2.
      apply hoare_read. intros table.
      eapply hoare_weaken with
        (P := on_buffer (Forall (fun b => Schema.overdue t0 b = false)));
        [|unfold on_buffer; tauto|intros ? HQ; exact HQ].
      apply hoare_seq; [|intros [[? ?] ?]; apply hoare_ret].
      intros w2 Hw2.
      destruct (hoare_for_each
                  (fun (_ : list DbSignalBuffer.t) =>
                     on_buffer (Forall (fun b => Schema.overdue t0 b = false)))
                  (BufferManager.process_one rt cb)) with
        (l := Schema.getRetryableBufferedSignals
                (t1 - match js_index BufferManager.RETRY_INTERVALS 0 with
                      | Some i => i
                      | None => 0
                      end) t2 table)
        (acc := (0, 0, 0)) (w := w2) as (l' & H); auto.
      intros acc x l. apply process_one_no_overdue. }
  split; [exact Hpost|]. clear Hpost. intros Hcb.
  unfold BufferManager.processBuffer.
  unfold bind at 1. unfold now at 1. fold t0.
  unfold bind at 1. unfold run_buffer at 1.
  cbn [Schema.expireOldBufferedSignals signal_buffer].
  unfold bind at 1. unfold now at 1.
  unfold bind at 1. unfold now at 1.
  unfold bind at 1. unfold read_buffer at 1.
  unfold bind at 1.
  match goal with
  | |- context [for_each ?l ?acc ?body ?w1] =>
      destruct (process_loop_returns rt cb l Hcb acc w1)
        as (acc' & w' & Hloop)
  end.
  rewrite Hloop.
  destruct acc' as [[retried nDelivered] nFailed].
  unfold ret.
  eexists _, w'. split; reflexivity.
Qed.

Lemma processBuffer_expires_overdue_rows_witness :
  exists result w',
    BufferManager.processBuffer example_runtime never_delivers
                                settled_and_pending_rows
    = (Some result, w') /\
    BufferManager.expired_count result = 0 /\
    Forall (fun b => Schema.overdue 1700000000000 b = false)
           (signal_buffer w').
Proof.
  destruct (processBuffer_expires_overdue_rows
              example_runtime never_delivers settled_and_pending_rows)
    as [Hpost Hrun].
  destruct Hrun as (result & w' & Hrun & Hexpired);
    [intros b; discriminate|].
  exists result, w'. rewrite Hrun in Hpost.
  split; [exact Hrun|]. split; [exact Hexpired|exact Hpost].
Defined.

(* ------------------------------------------------------------------ *)
(** ** Buffer manager: a buffered signal is listed with its payload *)
(* ------------------------------------------------------------------ *)

(** The item of a row that can be listed. *)
Lemma toBufferItem_listable rt b w :
  listable b ->
  exists parsed,
    JSON_parse (DbSignalBuffer.payload b) = Some parsed /\
    BufferManager.toBufferItem rt b w
    = (Some {| BufferManager.item_id := DbSignalBuffer.id b;
               BufferManager.item_signal_type := DbSignalBuffer.signal_type b;
               BufferManager.item_source_server :=
                 DbSignalBuffer.source_server b;
               BufferManager.item_target_server :=
                 DbSignalBuffer.target_server b;
               BufferManager.item_payload := parsed;
               BufferManager.item_priority := DbSignalBuffer.priority b;
               BufferManager.item_buffered_at :=
                 toISOString rt (DbSignalBuffer.buffered_at b);
               BufferManager.item_retry_count := DbSignalBuffer.retry_count b;
               BufferManager.item_status := DbSignalBuffer.status b |}, w).
Proof.
  intros [Hparse Hrange]. unfold BufferManager.toBufferItem.
  destruct (JSON_parse (DbSignalBuffer.payload b)) as [parsed|];
    [|congruence].
  exists parsed. split; [reflexivity|].
  unfold bind, lift, Date_toISOString.
  replace ((- MAX_TIME_VALUE <=? DbSignalBuffer.buffered_at b)
           && (DbSignalBuffer.buffered_at b <=? MAX_TIME_VALUE)) with true
    by (symmetry; apply andb_true_iff; split; apply Z.leb_le; lia).
  reflexivity.
Qed.

Lemma map_M_items rt (l : list DbSignalBuffer.t) :
  Forall listable l ->
  forall acc w, exists items,
    for_each l acc
      (fun done b => y <- BufferManager.toBufferItem rt b ;;
                     ret (done ++ [y])%list) w
    = (Some (acc ++ items)%list, w) /\
    List.length items = List.length l /\
    forall b, In b l ->
      exists item, BufferManager.toBufferItem rt b w = (Some item, w) /\
                   In item items.
Proof.
  induction 1 as [|x l Hx Hl IH]; intros acc w.
  - exists []. cbn [for_each]. unfold ret. rewrite List.app_nil_r.
    repeat split. intros ? [].
  - cbn [for_each].
    destruct (toBufferItem_listable rt x w Hx) as (parsed & _ & Hitem).
    unfold bind at 1. unfold bind at 1. rewrite Hitem. unfold ret at 1.
    match goal with
    | |- context [for_each l ?acc1 _ w] =>
        destruct (IH acc1 w) as (items & Hrun & Hlen & Hin)
    end.
    eexists (_ :: items). rewrite Hrun. split; [|split].
    + now rewrite <- List.app_assoc.
    + cbn [List.length]. now rewrite Hlen.
    + intros b [<-|Hb].
      * eexists. split; [exact Hitem|now left].
      * destruct (Hin b Hb) as (item & Hi & Hm).
        exists item. split; [exact Hi|now right].
Qed.

(** X7. A signal buffered by [bufferSignal] is listed by [getPendingBuffers]
    for its target (and for no target): the item carries the id that
    [bufferSignal] returned, the payload as it was given, a retry count
    of 0 and the status [pending].  This holds in a store whose rows can
    all be listed, for a payload with distinct keys, an identifier not
    yet in the store and a clock within the range of time values. *)
Theorem buffered_signal_is_listed rt st src tgt payload pr ttl w :
  wf_json (JObj payload) ->
  Forall listable (signal_buffer w) ->
  ~ In (uuid rt (uuid_draws w)) (ids (signal_buffer w)) ->
  - MAX_TIME_VALUE <= clock rt (clock_reads w) <= MAX_TIME_VALUE ->
  exists id w1,
    BufferManager.bufferSignal rt st src tgt payload pr ttl w = (Some id, w1) /\
    forall target, target = None \/ target = Some tgt ->
      exists items,
        BufferManager.getPendingBuffers rt target w1 = (Some items, w1) /\
        In {| BufferManager.item_id := id;
              BufferManager.item_signal_type := st;
              BufferManager.item_source_server := src;
              BufferManager.item_target_server := tgt;
              BufferManager.item_payload := JObj payload;
              BufferManager.item_priority :=
                match pr with Some p => p | None => normal end;
              BufferManager.item_buffered_at :=
                toISOString rt (clock rt (clock_reads w));
              BufferManager.item_retry_count := 0;
              BufferManager.item_status := pending |} items.
Proof.
  intros Hwf Hrows Hfresh Hclock.
  set (row := DbSignalBuffer.mk (uuid rt (uuid_draws w)) st src tgt
                (stringify (JObj payload))
                (match pr with Some p => p | None => normal end)
                (clock rt (clock_reads w)) 0 None BufferManager.MAX_RETRIES
                (Some (clock rt (S (clock_reads w))
                       + match ttl with
                         | Some h => h
                         | None => BufferManager.DEFAULT_TTL_HOURS
                         end * 60 * 60 * 1000)) pending).
  assert (Hnew : existsb (Schema.has_id (uuid rt (uuid_draws w)))
                         (signal_buffer w) = false).
  { apply not_true_iff_false. intros H. apply existsb_exists in H.
    destruct H as (x & Hx & E). apply Hfresh. unfold ids.
    apply in_map_iff. exists x. split; [|exact Hx].
    unfold Schema.has_id in E. now apply String.eqb_eq in E. }
  eexists (uuid rt (uuid_draws w)), _. split.
  { unfold BufferManager.bufferSignal, bind, uuidv4, now, read_buffer,
      write_buffer, ret, Schema.insertBufferedSignal.
    cbn [signal_buffer clock_reads uuid_draws DbSignalBuffer.id].
    rewrite Hnew. cbn [signal_buffer set_signal_buffer]. reflexivity. }
  intros target Htarget.
  match goal with
  | |- exists items, BufferManager.getPendingBuffers rt target ?w0 = _ /\ _ =>
      set (w1 := w0)
  end.
  assert (Htab : signal_buffer w1 = (signal_buffer w ++ [row])%list)
    by reflexivity.
  set (selected := Schema.getPendingBufferedSignals target (signal_buffer w1)).
  assert (Hrow : listable row).
  { split; [|exact Hclock].
    cbn [row DbSignalBuffer.payload]. now rewrite (JSON_parse_stringify _ Hwf). }
  assert (Hsel : Forall listable selected).
  { apply Forall_forall. intros x Hx. apply pending_rows_spec in Hx.
    destruct Hx as [Hx _]. rewrite Htab in Hx. apply in_app_iff in Hx.
    destruct Hx as [Hx|[<-|[]]]; [|exact Hrow].
    revert x Hx. now apply Forall_forall. }
  destruct (map_M_items rt selected Hsel [] w1) as (items & Hrun & _ & Hin).
  exists items. split.
  - unfold BufferManager.getPendingBuffers, bind at 1, read_buffer, map_M.
    fold selected. exact Hrun.
  - destruct (Hin row) as (item & Hitem & Hmem).
    + unfold selected. rewrite getPending_filter, order_by_In, filter_In.
      split; [rewrite Htab; apply in_app_iff; right; now left|].
      unfold pending_for. cbn [row DbSignalBuffer.status status_eqb
                                 DbSignalBuffer.target_server andb].
      destruct Htarget as [->| ->]; [reflexivity|].
      destruct (String.eqb tgt EmptyString); [reflexivity|].
      apply String.eqb_refl.
    + destruct (toBufferItem_listable rt row w1 Hrow) as (parsed & Hp & Hi).
      cbn [row DbSignalBuffer.payload] in Hp.
      rewrite (JSON_parse_stringify _ Hwf) in Hp. injection Hp as <-.
      rewrite Hi in Hitem. injection Hitem as <-. exact Hmem.
Qed.

Lemma buffered_signal_is_listed_witness :
  exists id w1 items,
    BufferManager.bufferSignal example_runtime 80 "source" "B"
      [("x", JNum 1)] (Some high) None empty_world = (Some id, w1) /\
    BufferManager.getPendingBuffers example_runtime (Some "B") w1
    = (Some items, w1) /\
    In {| BufferManager.item_id := id;
          BufferManager.item_signal_type := 80;
          BufferManager.item_source_server := "source";
          BufferManager.item_target_server := "B";
          BufferManager.item_payload := JObj [("x", JNum 1)];
          BufferManager.item_priority := high;
          BufferManager.item_buffered_at := "1970-01-01T00:00:00.000Z";
          BufferManager.item_retry_count := 0;
          BufferManager.item_status := pending |} items.
Proof.
  destruct (buffered_signal_is_listed example_runtime 80 "source" "B"
              [("x", JNum 1)] (Some high) None empty_world)
    as (id & w1 & Hrun & Hlist).
  - split; [|split; exact I].
    cbn [map fst]. constructor; [intros []|constructor].
  - constructor.
  - intros [].
  - cbn. unfold MAX_TIME_VALUE. lia.
  - destruct (Hlist (Some "B")) as (items & Hitems & Hin); [now right|].
    exists id, w1, items. split; [exact Hrun|]. split; [exact Hitems|].
    exact Hin.
Defined.

(* ------------------------------------------------------------------ *)
(** ** Tool [buffer_signals]: what the action [list] returns *)
(* ------------------------------------------------------------------ *)

Lemma lift_Some {A} (o : option A) a w w' :
  lift o w = (Some a, w') -> o = Some a /\ w' = w.
Proof.
  unfold lift. destruct o; unfold ret, throw; intros [= <- <-]; auto.
Qed.

Lemma toBufferItem_Some rt b item w w' :
  BufferManager.toBufferItem rt b w = (Some item, w') ->
  w' = w /\
  BufferManager.item_id item = DbSignalBuffer.id b /\
  BufferManager.item_signal_type item = DbSignalBuffer.signal_type b /\
  BufferManager.item_target_server item = DbSignalBuffer.target_server b /\
  BufferManager.item_status item = DbSignalBuffer.status b.
Proof.
  unfold BufferManager.toBufferItem.
  destruct (JSON_parse _) as [parsed|]; [|discriminate].
  intros H. apply bind_Some in H. destruct H as (text & w1 & Hd & Hr).
  apply lift_Some in Hd. destruct Hd as [_ ->].
  apply ret_Some in Hr. destruct Hr as [<- <-]. repeat split.
Qed.

Lemma map_M_rows rt (l : list DbSignalBuffer.t) :
  forall acc items w w',
    for_each l acc
      (fun done b => y <- BufferManager.toBufferItem rt b ;;
                     ret (done ++ [y])%list) w = (Some items, w') ->
    w' = w /\
    forall P : BufferManager.BufferItem -> Prop,
      Forall P acc ->
      (forall b item w0 w1,
          In b l -> BufferManager.toBufferItem rt b w0 = (Some item, w1) ->
          P item) ->
      Forall P items.
Proof.
  induction l as [|x l IH]; intros acc items w w' H; cbn [for_each] in H.
  - apply ret_Some in H. destruct H as [<- <-]. auto.
  - apply bind_Some in H. destruct H as (acc1 & w1 & Hbody & Hrest).
    apply bind_Some in Hbody. destruct Hbody as (item & w2 & Hitem & Hret).
    apply ret_Some in Hret. destruct Hret as [<- <-].
    pose proof (toBufferItem_Some _ _ _ _ _ Hitem) as (-> & _).
    apply IH in Hrest. destruct Hrest as [-> Hall].
    split; [reflexivity|].
    intros P Hacc Hstep. apply Hall.
    + apply Forall_app. split; [exact Hacc|].
      constructor; [|constructor].
      eapply (Hstep x); [now left|exact Hitem].
    + intros b i w0 w3 Hb. apply Hstep. now right.
Qed.

(** X8. The action [list] reads and never writes: when it returns, the store
    is as it was, [affected_count] is the number of items returned, and
    every item returned is a pending row of the store, of the requested
    signal type when one is given and of the requested target when a
    non-empty one is given. *)
Theorem list_action_filters_pending_rows rt getTime cb input out w w' :
  BufferSignals.action input = BufferSignals.list_action ->
  BufferSignals.handleBufferSignals rt getTime cb input w = (Some out, w') ->
  signal_buffer w' = signal_buffer w /\
  exists items,
    BufferSignals.buffer_items out = Some items /\
    BufferSignals.affected_count out = Z.of_nat (List.length items) /\
    forall item, In item items ->
      (exists b, In b (signal_buffer w) /\
                 DbSignalBuffer.id b = BufferManager.item_id item) /\
      BufferManager.item_status item = pending /\
      (forall st, BufferSignals.signal_type input = Some st ->
                  BufferManager.item_signal_type item = st) /\
      (forall target, BufferSignals.target_server input = Some target ->
                      target <> EmptyString ->
                      BufferManager.item_target_server item = target).
Proof.
  intros Hact H. unfold BufferSignals.handleBufferSignals in H.
  rewrite Hact in H.
  apply bind_Some in H. destruct H as (listed & w1 & Hlist & H).
  unfold BufferManager.getPendingBuffers, bind at 1, read_buffer, map_M in Hlist.
  apply map_M_rows in Hlist. destruct Hlist as [-> Hall].
  set (good := fun item : BufferManager.BufferItem =>
         (exists b, In b (signal_buffer w) /\
                    DbSignalBuffer.id b = BufferManager.item_id item) /\
         BufferManager.item_status item = pending /\
         (forall target, BufferSignals.target_server input = Some target ->
                         target <> EmptyString ->
                         BufferManager.item_target_server item = target)).
  assert (Hgood : Forall good listed).
  { apply Hall; [constructor|].
    intros b item w0 w2 Hb Hitem.
    apply toBufferItem_Some in Hitem.
    destruct Hitem as (_ & Hid & _ & Htgt & Hst).
    rewrite getPending_filter, order_by_In, filter_In in Hb.
    destruct Hb as [Hb Hsel]. unfold pending_for in Hsel.
    apply andb_true_iff in Hsel. destruct Hsel as [Hp Ht].
    apply status_eqb_pending in Hp.
    split; [exists b; auto|]. split; [congruence|].
    intros target E Hne. rewrite E in Ht.
    destruct (String.eqb_spec target EmptyString); [contradiction|].
    apply String.eqb_eq in Ht. congruence. }
  set (by_type := match BufferSignals.signal_type input with
                  | Some st =>
                      filter (fun i => BufferManager.item_signal_type i =? st)
                             listed
                  | None => listed
                  end) in H.
  assert (Htype : Forall (fun item =>
                            good item /\
                            forall st, BufferSignals.signal_type input = Some st ->
                                       BufferManager.item_signal_type item = st)
                         by_type).
  { unfold by_type. destruct (BufferSignals.signal_type input) as [st|].
    - apply Forall_forall. intros item Hi. apply filter_In in Hi.
      destruct Hi as [Hi E]. split.
      + exact (proj1 (Forall_forall _ _) Hgood item Hi).
      + intros st' [= <-]. now apply Z.eqb_eq.
    - eapply Forall_impl; [|exact Hgood]. intros item Hg.
      split; [exact Hg|]. discriminate. }
  apply bind_Some in H. destruct H as (final & w2 & Hage & H).
  apply ret_Some in H. destruct H as [<- <-].
  assert (Hfinal : w2 = set_signal_buffer (signal_buffer w) w2 /\
                   forall item, In item final -> In item by_type).
  { destruct (BufferSignals.max_age_hours input) as [hours|].
    - apply bind_Some in Hage. destruct Hage as (t & w3 & Hnow & Hret).
      apply ret_Some in Hret. destruct Hret as [<- <-].
      unfold now in Hnow. injection Hnow as <- <-.
      split; [reflexivity|]. intros item Hi. now apply filter_In in Hi.
    - apply ret_Some in Hage. destruct Hage as [<- <-].
      split; [now destruct w|auto]. }
  destruct Hfinal as [Hw Hsub].
  split; [rewrite Hw; reflexivity|].
  exists final. cbn [BufferSignals.buffer_items BufferSignals.affected_count].
  split; [reflexivity|]. split; [reflexivity|].
  intros item Hi. apply Hsub in Hi.
  assert (Hitem := proj1 (Forall_forall _ _) Htype item Hi).
  destruct Hitem as [(Hrow & Hst & Htgt) Hty].
  repeat split; auto.
Qed.

Lemma list_action_filters_pending_rows_witness :
  exists out w' items,
    BufferSignals.handleBufferSignals example_runtime (fun _ => Some 0) None
      list_type_80_for_B three_pending_rows = (Some out, w') /\
    BufferSignals.buffer_items out = Some items /\
    BufferSignals.affected_count out = Z.of_nat (List.length items) /\
    Forall (fun item => BufferManager.item_signal_type item = 80 /\
                        BufferManager.item_target_server item = "B") items.
Proof.
  eassert (H : BufferSignals.handleBufferSignals example_runtime
                 (fun _ => Some 0) None list_type_80_for_B three_pending_rows
               = (Some _, _)) by (vm_compute; reflexivity).
  destruct (list_action_filters_pending_rows
              example_runtime (fun _ => Some 0) None list_type_80_for_B
              _ _ _ eq_refl H)
    as (_ & items & Hitems & Hcount & Hall).
  eexists _, _, items. split; [exact H|].
  split; [exact Hitems|]. split; [exact Hcount|].
  apply Forall_forall. intros item Hi.
  destruct (Hall item Hi) as (_ & _ & Hty & Htgt). split.
  - now apply Hty.
  - apply Htgt; [reflexivity|discriminate].
Defined.

(* ------------------------------------------------------------------ *)
(** ** Delivery engine: datagrams and buffer rows of one relay *)
(* ------------------------------------------------------------------ *)

(** A step that appends nothing to a projection leaves it as it was. *)
Lemma quiet {A X} (proj : World -> list X) (m : M A) w r w' :
  extends proj (fun _ => False) m -> m w = (r, w') -> proj w' = proj w.
Proof.
  intros H E. pose proof (extends_nothing proj m w H) as Hq.
  now rewrite E in Hq.
Qed.

Lemma sendToTarget_port rt engine target st payload pr w ok w' :
  Engine.sendToTarget rt engine target st payload pr w = (Some ok, w') ->
  (exists sent,
      wire w' = (wire w ++ sent)%list /\
      map fst sent = match send_port engine target with
                     | Some p => [p]
                     | None => []
                     end) /\
  (ok = true -> send_port engine target <> None).
Proof.
  unfold Engine.sendToTarget, send_port.
  destruct (Engine.config engine) as [cfg|];
    [|intros H; apply ret_Some in H; destruct H as [<- <-];
      split; [exists []; now rewrite List.app_nil_r|discriminate]].
  destruct (Engine.udpSocket engine); cbn [negb];
    [|intros H; apply ret_Some in H; destruct H as [<- <-];
      split; [exists []; now rewrite List.app_nil_r|discriminate]].
  destruct (Engine.port_of target (Engine.peer_ports cfg)) as [p|].
  - destruct (Z.eqb_spec p 0) as [->|Hp];
      [intros H; apply ret_Some in H; destruct H as [<- <-];
       split; [exists []; now rewrite List.app_nil_r|discriminate]|].
    unfold Engine.valid_port.
    destruct ((1 <=? p) && (p <=? 65535));
      unfold Engine.encodeRelayMessage, bind, now, ret, udp_send;
      cbn [wire fst snd]; intros [= <- <-]; cbn [wire].
    + split; [|discriminate]. eexists [_]. split; reflexivity.
    + split; [exists []; now rewrite List.app_nil_r|discriminate].
  - destruct (inherited target);
      unfold Engine.encodeRelayMessage, bind, now, ret;
      cbn [wire fst snd]; intros [= <- <-]; cbn [wire];
      (split; [exists []; now rewrite List.app_nil_r|discriminate]).
Qed.

(** The sends of [relaySignal]: one datagram per target that has a port,
    in the order of the targets. *)
Lemma sends_ports rt engine st payload pr targets :
  forall (acc : list (string * bool)) w results w',
    for_each targets acc
      (fun settled target =>
         ok <- Engine.sendToTarget rt engine target st payload pr ;;
         ret (settled ++ [(target, ok)])%list) w = (Some results, w') ->
    (exists sent,
        wire w' = (wire w ++ sent)%list /\
        map fst sent = ports_of engine targets) /\
    ((forall t, In (t, true) acc -> send_port engine t <> None) ->
     forall t, In (t, true) results -> send_port engine t <> None).
Proof.
  induction targets as [|t targets IH]; intros acc w results w' H;
    cbn [for_each] in H.
  - apply ret_Some in H. destruct H as [<- <-]. split; [|auto].
    exists []. now rewrite List.app_nil_r.
  - apply bind_Some in H. destruct H as (acc' & w1 & Hbody & Hrest).
    apply bind_Some in Hbody. destruct Hbody as (ok & w2 & Hsend & Hret).
    apply ret_Some in Hret. destruct Hret as [<- <-].
    apply sendToTarget_port in Hsend.
    destruct Hsend as [(sent1 & Hw1 & Hp1) Hok].
    apply IH in Hrest. destruct Hrest as [(sent & Hw & Hp) Hres].
    split.
    + exists (sent1 ++ sent)%list. split.
      * now rewrite Hw, Hw1, List.app_assoc.
      * rewrite map_app, Hp1, Hp. reflexivity.
    + intros Hacc. apply Hres. intros t' Hin. apply in_app_iff in Hin.
      destruct Hin as [Hin|[E|[]]]; [auto|].
      injection E as E1 E2. subst t' ok. now apply Hok.
Qed.

(** The steps of a run of [relaySignal] that returns. *)
Ltac relay_steps H :=
  unfold Engine.relaySignal in H;
  apply bind_Some in H; destruct H as (startTime & w1 & Hstart & H);
  apply bind_Some in H; destruct H as (relayId & w2 & Hid & H);
  apply bind_Some in H; destruct H as (rules & w3 & Hrules & H);
  apply bind_Some in H; destruct H as (payload & w4 & Hpayload & H);
  apply bind_Some in H; destruct H as (results & w5 & Hsends & H);
  apply bind_Some in H; destruct H as (outcome & w6 & Hclassify & H);
  apply bind_Some in H; destruct H as (finished & w7 & Hfinished & H);
  apply bind_Some in H; destruct H as (relayed_at & w8 & Hrelayed & H);
  apply bind_Some in H; destruct H as (done & w9 & Hinsert & H);
  apply ret_Some in H; destruct H as [Hresult Hw9].

Ltac quiet_by H tac :=
  match type of H with
  | ?m ?w0 = _ => eapply (quiet _ m w0); [tac|exact H]
  end.

Lemma classify_quiet_wire rt request payload results acc :
  extends wire (fun _ => False)
          (for_each results acc (Engine.classify rt request payload)).
Proof.
  apply extends_for_each. intros acc' [target ok].
  unfold Engine.classify. destruct ok; [apply extends_ret|].
  destruct (Engine.buffer_if_offline request); [|apply extends_ret].
  apply extends_bind; [extends_bufferSignal_quiet|intro; apply extends_ret].
Qed.

(** X9. [relaySignal] puts on the wire exactly one datagram for each
    requested target that has a usable port (the engine is initialised,
    the target is a key of [peer_ports], its port is from 1 to 65535),
    addressed to that port, in the order of the request, and nothing
    else; a target without a usable port is never reported as reached.
    This covers a target that is no key of [peer_ports] but names a
    member inherited from [Object.prototype], and a port that is no
    port number: the send throws, nothing goes on the wire and the
    target counts as failed. *)
Theorem relaySignal_one_datagram_per_port rt engine request w result w' :
  Engine.relaySignal rt engine request w = (Some result, w') ->
  (exists sent,
      wire w' = (wire w ++ sent)%list /\
      map fst sent = ports_of engine (Engine.target_servers request)) /\
  forall t, In t (Engine.targets_reached result) -> send_port engine t <> None.
Proof.
  intros H. relay_steps H.
  assert (E1 : wire w1 = wire w) by (quiet_by Hstart extends_step).
  assert (E2 : wire w2 = wire w1) by (quiet_by Hid extends_step).
  assert (E3 : wire w3 = wire w2) by (quiet_by Hrules extends_matchRules).
  assert (E4 : wire w4 = wire w3) by (quiet_by Hpayload extends_apply_rules).
  assert (E6 : wire w6 = wire w5)
    by (quiet_by Hclassify ltac:(apply classify_quiet_wire)).
  assert (E7 : wire w7 = wire w6) by (quiet_by Hfinished extends_step).
  assert (E8 : wire w8 = wire w7) by (quiet_by Hrelayed extends_step).
  assert (E9 : wire w9 = wire w8)
    by (quiet_by Hinsert extends_insertSignalRelay).
  pose proof (sends_ports _ _ _ _ _ _ _ _ _ _ Hsends) as [(sent & Hw & Hp) Hok].
  split.
  - exists sent. split; [|exact Hp]. congruence.
  - intros t Ht. apply Hok; [intros ? []|].
    apply classify_lists in Hclassify. destruct Hclassify as [Hr _].
    subst result. cbn [Engine.targets_reached] in Ht.
    rewrite Hr in Ht. cbn [Engine.targetsReached app] in Ht.
    unfold reached_of in Ht. apply in_map_iff in Ht.
    destruct Ht as ([t' ok] & Et & Hin). cbn [fst] in Et. subst t'.
    apply filter_In in Hin. destruct Hin as [Hin Hok']. cbn [snd] in Hok'.
    now subst ok.
Qed.

Lemma relaySignal_one_datagram_per_port_witness :
  exists result w' sent,
    Engine.relaySignal first_send_succeeds example_engine
      (example_request ["A"; "nobody"; "constructor"; "B"]) empty_world
    = (Some result, w') /\
    wire w' = sent /\ map fst sent = [4001; 4002] /\
    ~ In "nobody" (Engine.targets_reached result) /\
    ~ In "constructor" (Engine.targets_reached result).
Proof.
  eassert (H : Engine.relaySignal first_send_succeeds example_engine
                 (example_request ["A"; "nobody"; "constructor"; "B"])
                 empty_world
               = (Some _, _)) by (vm_compute; reflexivity).
  destruct (relaySignal_one_datagram_per_port _ _ _ _ _ _ H)
    as [(sent & Hw & Hp) Hreached].
  eexists _, _, sent. split; [exact H|].
  split; [exact Hw|]. split; [exact Hp|].
  split; intros Hin; now apply Hreached in Hin.
Defined.

Lemma bufferSignal_Some rt st src tgt pl pr ttl w id w1 :
  BufferManager.bufferSignal rt st src tgt pl pr ttl w = (Some id, w1) ->
  exists row,
    signal_buffer w1 = (signal_buffer w ++ [row])%list /\
    DbSignalBuffer.id row = id /\
    DbSignalBuffer.signal_type row = st /\
    DbSignalBuffer.source_server row = src /\
    DbSignalBuffer.target_server row = tgt /\
    DbSignalBuffer.payload row = stringify (JObj pl) /\
    DbSignalBuffer.priority row = match pr with Some p => p | None => normal end /\
    DbSignalBuffer.retry_count row = 0 /\
    DbSignalBuffer.status row = pending.
Proof.
  unfold BufferManager.bufferSignal, bind, uuidv4, now, read_buffer,
    write_buffer, ret, throw, Schema.insertBufferedSignal.
  cbn [signal_buffer clock_reads uuid_draws DbSignalBuffer.id].
  destruct (existsb _ _); [discriminate|].
  intros [= <- <-]. eexists. cbn [signal_buffer set_signal_buffer].
  split; [reflexivity|]. repeat split.
Qed.

Lemma classify_buffers rt request payload results :
  forall acc w outcome w',
    for_each results acc (Engine.classify rt request payload) w
    = (Some outcome, w') ->
    exists rows,
      Engine.targetsBuffered outcome
      = (Engine.targetsBuffered acc ++ map DbSignalBuffer.target_server rows)%list /\
      map DbSignalBuffer.target_server rows
      = (if Engine.buffer_if_offline request
         then failed_of results else []) /\
      signal_buffer w' = (signal_buffer w ++ rows)%list /\
      Forall (buffers_request request (stringify (JObj payload))) rows.
Proof.
  unfold failed_of.
  induction results as [|[target ok] results IH]; intros acc w outcome w' H;
    cbn [for_each] in H.
  - apply ret_Some in H. destruct H as [<- <-]. exists [].
    cbn [map filter]. rewrite !List.app_nil_r.
    destruct (Engine.buffer_if_offline request); auto.
  - apply bind_Some in H. destruct H as (acc' & w1 & Hbody & Hrest).
    apply IH in Hrest. destruct Hrest as (rows & Hb & Hm & Hw & Hall).
    unfold Engine.classify in Hbody. cbn [filter snd negb].
    destruct ok; cbn [negb].
    + apply ret_Some in Hbody. destruct Hbody as [<- <-].
      exists rows. auto.
    + destruct (Engine.buffer_if_offline request) eqn:Hflag.
      * apply bind_Some in Hbody. destruct Hbody as (id & w2 & Hbuf & Hret).
        apply ret_Some in Hret. destruct Hret as [<- <-].
        apply bufferSignal_Some in Hbuf.
        destruct Hbuf as (row & Hw2 & _ & Hst & Hsrc & Htgt & Hpl & Hpr & Hrc & Hs).
        exists (row :: rows). cbn [map fst]. split; [|split; [|split]].
        -- rewrite Hb. cbn [Engine.targetsBuffered]. rewrite Htgt.
           now rewrite <- List.app_assoc.
        -- now rewrite Htgt, Hm.
        -- rewrite Hw, Hw2. now rewrite <- List.app_assoc.
        -- constructor; [|exact Hall]. repeat split; assumption.
      * apply ret_Some in Hbody. destruct Hbody as [<- <-].
        exists rows. auto.
Qed.

Lemma sends_quiet_buffer rt engine st payload pr targets
      (acc : list (string * bool)) :
  extends signal_buffer (fun _ => False)
    (for_each targets acc
       (fun settled target =>
          ok <- Engine.sendToTarget rt engine target st payload pr ;;
          ret (settled ++ [(target, ok)])%list)).
Proof.
  apply extends_for_each. intros acc' target.
  apply extends_bind; [extends_sendToTarget_quiet|intro; apply extends_ret].
Qed.

Lemma sends_quiet_relays rt engine st payload pr targets
      (acc : list (string * bool)) :
  extends signal_relays (fun _ => False)
    (for_each targets acc
       (fun settled target =>
          ok <- Engine.sendToTarget rt engine target st payload pr ;;
          ret (settled ++ [(target, ok)])%list)).
Proof.
  apply extends_for_each. intros acc' target.
  apply extends_bind; [extends_sendToTarget_quiet|intro; apply extends_ret].
Qed.

Lemma classify_quiet_relays rt request payload results acc :
  extends signal_relays (fun _ => False)
          (for_each results acc (Engine.classify rt request payload)).
Proof.
  apply extends_for_each. intros acc' [target ok].
  unfold Engine.classify. destruct ok; [apply extends_ret|].
  destruct (Engine.buffer_if_offline request); [|apply extends_ret].
  apply extends_bind; [extends_bufferSignal_quiet|intro; apply extends_ret].
Qed.

(** X10. With [buffer_if_offline], [relaySignal] buffers every target it
    failed to reach and no other: [targets_buffered] is [targets_failed],
    and the buffer table gains one pending row per failed target, in
    that order, with the signal type, source and priority of the request
    and the payload text that the relay record holds (the payload after
    the rule transforms).  Without [buffer_if_offline] nothing is
    buffered and the buffer table is left as it was. *)
Theorem relaySignal_buffers_failed_targets rt engine request w result w' :
  Engine.relaySignal rt engine request w = (Some result, w') ->
  Engine.targets_buffered result
  = (if Engine.buffer_if_offline request
     then Engine.targets_failed result else []) /\
  exists rows record,
    signal_buffer w' = (signal_buffer w ++ rows)%list /\
    map DbSignalBuffer.target_server rows = Engine.targets_buffered result /\
    signal_relays w' = (signal_relays w ++ [record])%list /\
    Forall (buffers_request request (DbSignalRelay.payload record)) rows.
Proof.
  intros H. relay_steps H.
  assert (B1 : signal_buffer w1 = signal_buffer w)
    by (quiet_by Hstart extends_step).
  assert (B2 : signal_buffer w2 = signal_buffer w1)
    by (quiet_by Hid extends_step).
  assert (B3 : signal_buffer w3 = signal_buffer w2)
    by (quiet_by Hrules extends_matchRules).
  assert (B4 : signal_buffer w4 = signal_buffer w3)
    by (quiet_by Hpayload extends_apply_rules).
  assert (B5 : signal_buffer w5 = signal_buffer w4)
    by (quiet_by Hsends ltac:(apply sends_quiet_buffer)).
  assert (B7 : signal_buffer w7 = signal_buffer w6)
    by (quiet_by Hfinished extends_step).
  assert (B8 : signal_buffer w8 = signal_buffer w7)
    by (quiet_by Hrelayed extends_step).
  assert (B9 : signal_buffer w9 = signal_buffer w8)
    by (quiet_by Hinsert extends_insertSignalRelay).
  assert (R1 : signal_relays w1 = signal_relays w)
    by (quiet_by Hstart extends_step).
  assert (R2 : signal_relays w2 = signal_relays w1)
    by (quiet_by Hid extends_step).
  assert (R3 : signal_relays w3 = signal_relays w2)
    by (quiet_by Hrules extends_matchRules).
  assert (R4 : signal_relays w4 = signal_relays w3)
    by (quiet_by Hpayload extends_apply_rules).
  assert (R5 : signal_relays w5 = signal_relays w4)
    by (quiet_by Hsends ltac:(apply sends_quiet_relays)).
  assert (R6 : signal_relays w6 = signal_relays w5)
    by (quiet_by Hclassify ltac:(apply classify_quiet_relays)).
  assert (R7 : signal_relays w7 = signal_relays w6)
    by (quiet_by Hfinished extends_step).
  assert (R8 : signal_relays w8 = signal_relays w7)
    by (quiet_by Hrelayed extends_step).
  pose proof (classify_lists _ _ _ _ _ _ _ _ Hclassify) as [_ Hfailed].
  apply classify_buffers in Hclassify.
  destruct Hclassify as (rows & Hb & Hm & Hw6 & Hall).
  cbn [Engine.targetsBuffered Engine.targetsFailed app] in Hb, Hfailed.
  unfold Engine.insertSignalRelay in Hinsert.
  destruct (existsb _ (signal_relays w8)); [discriminate|].
  injection Hinsert as _ Hw9'.
  subst result w'. cbn [Engine.targets_buffered Engine.targets_failed].
  split.
  - rewrite Hb, Hm, Hfailed. reflexivity.
  - eexists rows, _. split; [|split; [|split]].
    + rewrite <- Hw9'. cbn [signal_buffer set_signal_relays]. congruence.
    + now rewrite Hb.
    + rewrite <- Hw9'. cbn [signal_relays set_signal_relays].
      f_equal. congruence.
    + cbn [DbSignalRelay.payload]. exact Hall.
Qed.

Lemma relaySignal_buffers_failed_targets_witness :
  exists result w' rows,
    Engine.relaySignal first_send_succeeds example_engine
      (example_request ["A"; "nobody"; "B"]) empty_world = (Some result, w') /\
    Engine.targets_buffered result = Engine.targets_failed result /\
    signal_buffer w' = rows /\
    map DbSignalBuffer.target_server rows = ["nobody"; "B"].
Proof.
  eassert (H : Engine.relaySignal first_send_succeeds example_engine
                 (example_request ["A"; "nobody"; "B"]) empty_world
               = (Some _, _)) by (vm_compute; reflexivity).
  destruct (relaySignal_buffers_failed_targets _ _ _ _ _ _ H)
    as (Hb & rows & record & Hrows & Hm & _).
  eexists _, _, rows. split; [exact H|].
  split; [exact Hb|]. split; [exact Hrows|].
  rewrite Hm. reflexivity.
Defined.

(* ------------------------------------------------------------------ *)
(** ** Delivery engine: [multicastSignal] *)
(* ------------------------------------------------------------------ *)

(** X11. [multicastSignal] addresses every configured peer that is not
    excluded, and loses none of them: the peers reached followed by the
    peers buffered are a rearrangement of the keys of [peer_ports] that
    are not in [excludeTargets], and an excluded peer is neither reached
    nor buffered.  When the engine has no configuration the result is
    empty and neither the relay history, nor the buffer, nor the wire
    changes. *)
Theorem multicastSignal_covers_peers rt engine st src pl pr excluded
        w result w' :
  Engine.multicastSignal rt engine st src pl pr (Some excluded) w
  = (Some result, w') ->
  match Engine.config engine with
  | Some cfg =>
      Permutation
        (Engine.targets_reached result ++ Engine.targets_buffered result)
        (filter (fun t => negb (existsb (String.eqb t) excluded))
                (map fst (Engine.peer_ports cfg))) /\
      forall t, In t excluded ->
                ~ In t (Engine.targets_reached result) /\
                ~ In t (Engine.targets_buffered result)
  | None =>
      Engine.relayed result = false /\
      Engine.targets_reached result = [] /\
      Engine.targets_buffered result = [] /\
      signal_relays w' = signal_relays w /\
      signal_buffer w' = signal_buffer w /\
      wire w' = wire w
  end.
Proof.
  unfold Engine.multicastSignal.
  destruct (Engine.config engine) as [cfg|] eqn:Hcfg.
  - intros H.
    set (targets := filter (fun t => negb (existsb (String.eqb t) excluded))
                           (map fst (Engine.peer_ports cfg))) in *.
    relay_steps H.
    pose proof (sends_settle_in_order _ _ _ _ _ _ Hsends) as Hfst.
    cbn [map app Engine.target_servers] in Hfst.
    pose proof (classify_lists _ _ _ _ _ _ _ _ Hclassify) as [Hr Hf].
    apply classify_buffers in Hclassify.
    destruct Hclassify as (rows & Hb & Hm & _ & _).
    cbn [Engine.targetsReached Engine.targetsFailed Engine.targetsBuffered
         Engine.buffer_if_offline app] in Hr, Hf, Hb, Hm.
    subst result. cbn [Engine.targets_reached Engine.targets_buffered].
    assert (Hperm : Permutation
                      (Engine.targetsReached outcome
                       ++ Engine.targetsBuffered outcome) targets).
    { rewrite Hr, Hb, Hm, <- Hfst. apply reached_failed_permutation. }
    split; [exact Hperm|].
    intros t Ht.
    assert (Hnot : ~ In t targets).
    { unfold targets. rewrite filter_In. intros [_ E].
      apply negb_true_iff, not_true_iff_false in E. apply E.
      apply existsb_exists. exists t. split; [exact Ht|apply String.eqb_refl]. }
    split; intros Hin; apply Hnot;
      apply (Permutation_in _ Hperm), in_app_iff; auto.
  - intros H. apply bind_Some in H. destruct H as (relayId & w1 & Hid & H).
    apply ret_Some in H. destruct H as [<- <-].
    unfold uuidv4 in Hid. injection Hid as _ <-.
    repeat split.
Qed.

Lemma multicastSignal_covers_peers_witness :
  exists result w',
    Engine.multicastSignal first_send_succeeds example_engine 80 "source"
      [("x", JNum 1)] None (Some ["B"]) empty_world = (Some result, w') /\
    Permutation
      (Engine.targets_reached result ++ Engine.targets_buffered result) ["A"] /\
    ~ In "B" (Engine.targets_reached result).
Proof.
  eassert (H : Engine.multicastSignal first_send_succeeds example_engine
                 80 "source" [("x", JNum 1)] None (Some ["B"]) empty_world
               = (Some _, _)) by (vm_compute; reflexivity).
  pose proof (multicastSignal_covers_peers _ _ _ _ _ _ _ _ _ _ H) as Hc.
  cbn [Engine.config example_engine] in Hc.
  destruct Hc as [Hperm Hex].
  eexists _, _. split; [exact H|]. split; [exact Hperm|].
  apply Hex. now left.
Defined.

(* ------------------------------------------------------------------ *)
(** ** Rule engine: what [matchRules] returns and counts *)
(* ------------------------------------------------------------------ *)

Lemma NoDup_map_filter {A B} (key : A -> B) (keep : A -> bool) rows :
  NoDup (map key rows) -> NoDup (map key (filter keep rows)).
Proof.
  intros Hnd. induction rows as [|x rows IH]; [constructor|].
  cbn [map] in Hnd. inversion Hnd as [|? ? Hnot Hnd']; subst.
  cbn [filter]. destruct (keep x); [|auto].
  cbn [map]. constructor; [|auto].
  intros Hin. apply Hnot. apply in_map_iff in Hin.
  destruct Hin as (y & E & Hy). apply filter_In in Hy.
  apply in_map_iff. exists y. tauto.
Qed.

Lemma NoDup_map_selected {A B} (f : A -> B) before (p : A -> bool) l :
  NoDup (map f l) -> NoDup (map f (order_by before (filter p l))).
Proof.
  intros Hnd. eapply Permutation_NoDup.
  - apply Permutation_map, Permutation_sym, order_by_perm.
  - now apply NoDup_map_filter.
Qed.

Lemma set_relay_rules_twice t1 t2 w :
  set_relay_rules t2 (set_relay_rules t1 w) = set_relay_rules t2 w.
Proof. reflexivity. Qed.

Lemma set_relay_rules_same w : set_relay_rules (relay_rules w) w = w.
Proof. now destruct w. Qed.

(** One test of [matchRules], with its effect on the rules table. *)
Lemma rule_matches_spec rt st src x w :
  RuleEngine.rule_matches rt st src x w
  = (Some (rule_accepts rt st src x),
     if rule_accepts rt st src x
     then set_relay_rules
            (map (fun r => if DbRelayRule.id r =? DbRelayRule.id x
                           then DbRelayRule.bump_match r else r)
                 (relay_rules w)) w
     else w).
Proof.
  unfold RuleEngine.rule_matches, rule_accepts.
  destruct (DbRelayRule.signal_pattern x =? st); cbn [negb andb];
    [|reflexivity].
  destruct (DbRelayRule.source_filter x) as [pattern|]; [|reflexivity].
  destruct (String.eqb pattern EmptyString); [reflexivity|].
  destruct (regex_test rt pattern src) as [[|]|]; reflexivity.
Qed.

Lemma match_loop rt st src (l : list DbRelayRule.t) :
  forall kept w,
    NoDup (rule_ids l) ->
    for_each l kept
      (fun kept rule =>
         hit <- RuleEngine.rule_matches rt st src rule ;;
         ret (if hit : bool then (kept ++ [rule])%list else kept)) w
    = (Some (kept ++ filter (rule_accepts rt st src) l)%list,
       set_relay_rules
         (map (fun r =>
                 if existsb (fun x => (DbRelayRule.id x =? DbRelayRule.id r)
                                      && rule_accepts rt st src x) l
                 then DbRelayRule.bump_match r else r)
              (relay_rules w)) w).
Proof.
  induction l as [|x l IH]; intros kept w Hnd.
  - cbn [for_each filter existsb]. unfold ret.
    rewrite List.app_nil_r, map_id, set_relay_rules_same. reflexivity.
  - cbn [rule_ids map] in Hnd. inversion Hnd as [|? ? Hx Hnd']; subst.
    cbn [for_each]. unfold bind at 1. unfold bind at 1.
    rewrite rule_matches_spec. unfold ret at 1.
    rewrite IH by exact Hnd'. cbn [filter existsb].
    destruct (rule_accepts rt st src x) eqn:Hacc.
    + rewrite <- List.app_assoc. cbn [app].
      rewrite set_relay_rules_twice. f_equal. f_equal.
      cbn [relay_rules set_relay_rules]. rewrite map_map.
      apply map_ext. intros r. rewrite andb_true_r.
      rewrite (Z.eqb_sym (DbRelayRule.id x) (DbRelayRule.id r)).
      destruct (Z.eqb_spec (DbRelayRule.id r) (DbRelayRule.id x)) as [E|Hne];
        cbn [orb]; [|reflexivity].
      replace (existsb _ l) with false; [reflexivity|].
      symmetry. apply not_true_iff_false. intros Hex.
      apply existsb_exists in Hex. destruct Hex as (y & Hy & Ey).
      apply andb_true_iff in Ey. destruct Ey as [Ey _].
      apply Z.eqb_eq in Ey. cbn [DbRelayRule.bump_match DbRelayRule.id] in Ey.
      apply Hx. unfold rule_ids. apply in_map_iff. exists y.
      split; [congruence|exact Hy].
    + f_equal. f_equal. apply map_ext. intros r.
      now rewrite andb_false_r.
Qed.

Lemma selected_rule_iff (l table : list DbRelayRule.t) rt st src r :
  NoDup (rule_ids table) -> In r table ->
  (forall x, In x l <-> In x table /\ DbRelayRule.enabled x = 1) ->
  existsb (fun x => (DbRelayRule.id x =? DbRelayRule.id r)
                    && rule_accepts rt st src x) l
  = (DbRelayRule.enabled r =? 1) && rule_accepts rt st src r.
Proof.
  intros Hnd Hr Hl.
  assert (Huniq : forall x, In x table -> DbRelayRule.id x = DbRelayRule.id r ->
                            x = r).
  { unfold rule_ids in Hnd. clear Hl. revert Hnd Hr.
    induction table as [|y table IH]; intros Hnd Hr x Hx E; [contradiction|].
    cbn [map] in Hnd. inversion Hnd as [|? ? Hnot Hnd']; subst.
    destruct Hx as [->|Hx], Hr as [->|Hr]; auto.
    - exfalso. apply Hnot. rewrite E. now apply in_map.
    - exfalso. apply Hnot. rewrite <- E. now apply in_map. }
  apply eq_true_iff_eq. rewrite existsb_exists, andb_true_iff, Z.eqb_eq.
  split.
  - intros (x & Hx & E). apply andb_true_iff in E. destruct E as [E Hacc].
    apply Z.eqb_eq in E. apply Hl in Hx. destruct Hx as [Hx Hen].
    assert (x = r) by auto. subst x. auto.
  - intros [Hen Hacc]. exists r. split; [apply Hl; auto|].
    now rewrite Z.eqb_refl.
Qed.

(** X12. [matchRules] returns the enabled rules whose signal pattern is the
    signal type and whose source filter, if any, matches the source or
    does not compile, highest priority first; in a rules table with
    distinct ids it adds one to the match count of each rule it returns
    and changes nothing else, in the rules table or elsewhere. *)
Theorem matchRules_selects_and_counts rt st src w :
  NoDup (rule_ids (relay_rules w)) ->
  RuleEngine.matchRules rt st src w
  = (Some (filter (rule_accepts rt st src)
                  (RuleEngine.getEnabledRelayRules (relay_rules w))),
     set_relay_rules
       (map (fun r => if (DbRelayRule.enabled r =? 1)
                         && rule_accepts rt st src r
                      then DbRelayRule.bump_match r else r)
            (relay_rules w)) w).
Proof.
  intros Hnd. unfold RuleEngine.matchRules.
  rewrite match_loop.
  - cbn [app]. f_equal. f_equal. apply map_ext_in. intros r Hr.
    rewrite (selected_rule_iff _ (relay_rules w)); auto.
    intros x. unfold RuleEngine.getEnabledRelayRules.
    rewrite order_by_In, filter_In, Z.eqb_eq. tauto.
  - unfold RuleEngine.getEnabledRelayRules, rule_ids.
    now apply NoDup_map_selected.
Qed.

Lemma matchRules_selects_and_counts_witness :
  exists w',
    RuleEngine.matchRules example_runtime 80 "source"
      (mkWorld [] [example_rule 1 80 None 0 1;
                   example_rule 2 80 None 5 0;
                   example_rule 3 81 None 9 1;
                   example_rule 4 80 (Some "^s") 7 1] [] [] 0 0 0 [])
    = (Some [example_rule 4 80 (Some "^s") 7 1; example_rule 1 80 None 0 1],
       w') /\
    map DbRelayRule.match_count (relay_rules w') = [1; 0; 0; 1].
Proof.
  eexists. split.
  - rewrite matchRules_selects_and_counts.
    + reflexivity.
    + cbn. repeat constructor; cbn; intuition discriminate.
  - reflexivity.
Defined.

(* ------------------------------------------------------------------ *)
(** ** Wire codec: frames at the edges *)
(* ------------------------------------------------------------------ *)

(** The frame [encodeMessage] returns, field by field. *)
Lemma encodeMessage_frame now t sender payload :
  0 <= t <= 65535 ->
  0 <= now < 4294967296000 ->
  Z.of_nat (String.length
              (stringify (JObj (obj_spread [("sender", JStr sender)] payload))))
  <= 4294967295 ->
  exists buffer,
    Protocol.encodeMessage now t sender payload = Some buffer /\
    readUInt16BE buffer 0 = Some t /\
    readUInt16BE buffer 2 = Some Protocol.PROTOCOL_VERSION /\
    readUInt32BE buffer 4
    = Some (Z.of_nat
              (String.length
                 (stringify
                    (JObj (obj_spread [("sender", JStr sender)] payload))))) /\
    readUInt32BE buffer 8 = Some (now / 1000) /\
    Z.of_nat (String.length buffer)
    = Z.of_nat (String.length
                  (stringify
                     (JObj (obj_spread [("sender", JStr sender)] payload))))
      + 12 /\
    substring 12 (String.length
                    (stringify
                       (JObj (obj_spread [("sender", JStr sender)] payload))))
              buffer
    = stringify (JObj (obj_spread [("sender", JStr sender)] payload)).
Proof.
  intros Ht Hnow Hlen.
  set (p := stringify (JObj (obj_spread [("sender", JStr sender)] payload)))
    in *.
  assert (Hts : 0 <= now / 1000 <= 4294967295).
  { split; [apply Z.div_pos; lia|].
    assert (now / 1000 < 4294967296) by (apply Z.div_lt_upper_bound; lia).
    lia. }
  destruct (decode_frame t Protocol.PROTOCOL_VERSION
              (Z.of_nat (String.length p)) (now / 1000) p)
    as (h0 & h2 & h4 & h8 & W0 & W2 & W4 & W8 & R0 & R2 & R4 & R8 & Hl & Hs);
    try reflexivity; try (unfold Protocol.PROTOCOL_VERSION; lia).
  cbv zeta in *. rewrite Nat2Z.id in Hs.
  exists (h0 ++ h2 ++ h4 ++ h8 ++ p)%string. split.
  - unfold Protocol.encodeMessage. fold p. now rewrite W0, W2, W4, W8.
  - auto 10.
Qed.

(** X13. [encodeMessage] writes any 16-bit signal type into the header, but
    [decodeBinaryMessage] returns [null] for the type 0 and for every
    type above 0xFF: such a frame is built and cannot be read back.  A
    signal type outside the 16 bits makes [encodeMessage] throw. *)
Theorem signal_types_encoded_but_not_decoded now t sender payload :
  0 <= now < 4294967296000 ->
  Z.of_nat (String.length
              (stringify (JObj (obj_spread [("sender", JStr sender)] payload))))
  <= 4294967295 ->
  (t = 0 \/ 255 < t <= 65535 ->
   exists buffer,
     Protocol.encodeMessage now t sender payload = Some buffer /\
     Protocol.decodeBinaryMessage buffer = None) /\
  (t < 0 \/ 65535 < t -> Protocol.encodeMessage now t sender payload = None).
Proof.
  intros Hnow Hlen. split.
  - intros Ht.
    destruct (encodeMessage_frame now t sender payload)
      as (buffer & Henc & R0 & R2 & R4 & R8 & _); try assumption; [lia|].
    exists buffer. split; [exact Henc|].
    unfold Protocol.decodeBinaryMessage. rewrite R0, R2, R4, R8.
    replace ((t =? 0) || (t >? 255)) with true; [reflexivity|].
    symmetry. apply orb_true_iff.
    destruct Ht as [->|Ht]; [now left|right].
    rewrite Z.gtb_ltb. apply Z.ltb_lt. lia.
  - intros Ht. unfold Protocol.encodeMessage, writeUInt16BE at 1.
    replace ((0 <=? t) && (t <=? 65535)) with false; [reflexivity|].
    symmetry. apply andb_false_iff.
    destruct Ht; [left; apply Z.leb_gt|right; apply Z.leb_gt]; lia.
Qed.

Lemma signal_types_encoded_but_not_decoded_witness :
  exists buffer,
    Protocol.encodeMessage 1700000000000 256 "synapse-relay" [("x", JNum 1)]
    = Some buffer /\
    Protocol.decodeBinaryMessage buffer = None.
Proof.
  apply (signal_types_encoded_but_not_decoded
           1700000000000 256 "synapse-relay" [("x", JNum 1)]).
  - lia.
  - vm_compute. discriminate.
  - right. lia.
Defined.

Lemma get_append_Some n (a b : string) c :
  String.get n a = Some c -> String.get n (a ++ b) = Some c.
Proof.
  revert n. induction a as [|x a IH]; intros n H; [destruct n; discriminate|].
  destruct n; cbn [String.get append] in *; auto.
Qed.

Lemma get_Some_lt n (a : string) c :
  String.get n a = Some c -> (n < String.length a)%nat.
Proof.
  revert n. induction a as [|x a IH]; intros n H; [destruct n; discriminate|].
  destruct n; cbn [String.get String.length] in *; [lia|].
  apply IH in H. lia.
Qed.

Lemma substring_append_l n m (a b : string) :
  (n + m <= String.length a)%nat ->
  substring n m (a ++ b) = substring n m a.
Proof.
  revert n m. induction a as [|x a IH]; intros n m H; cbn [String.length] in H.
  - assert (n = 0%nat) by lia. assert (m = 0%nat) by lia. subst.
    cbn [append]. destruct b; reflexivity.
  - destruct n; cbn [substring append].
    + destruct m; [reflexivity|]. f_equal. apply (IH 0%nat). lia.
    + apply IH. lia.
Qed.

Lemma readUInt16BE_append buffer junk offset v :
  readUInt16BE buffer offset = Some v ->
  readUInt16BE (buffer ++ junk) offset = Some v.
Proof.
  unfold readUInt16BE.
  destruct (String.get offset buffer) as [a|] eqn:Ea; [|discriminate].
  destruct (String.get (offset + 1) buffer) as [b|] eqn:Eb; [|discriminate].
  now rewrite (get_append_Some _ _ junk _ Ea), (get_append_Some _ _ junk _ Eb).
Qed.

Lemma readUInt32BE_append buffer junk offset v :
  readUInt32BE buffer offset = Some v ->
  readUInt32BE (buffer ++ junk) offset = Some v.
Proof.
  unfold readUInt32BE.
  destruct (String.get offset buffer) as [a|] eqn:Ea; [|discriminate].
  destruct (String.get (offset + 1) buffer) as [b|] eqn:Eb; [|discriminate].
  destruct (String.get (offset + 2) buffer) as [c|] eqn:Ec; [|discriminate].
  destruct (String.get (offset + 3) buffer) as [d|] eqn:Ed; [|discriminate].
  now rewrite (get_append_Some _ _ junk _ Ea), (get_append_Some _ _ junk _ Eb),
    (get_append_Some _ _ junk _ Ec), (get_append_Some _ _ junk _ Ed).
Qed.

Lemma readUInt32BE_bounds buffer offset v :
  readUInt32BE buffer offset = Some v ->
  0 <= v /\ (offset + 3 < String.length buffer)%nat.
Proof.
  unfold readUInt32BE.
  destruct (String.get offset buffer) as [a|]; [|discriminate].
  destruct (String.get (offset + 1) buffer) as [b|]; [|discriminate].
  destruct (String.get (offset + 2) buffer) as [c|]; [|discriminate].
  destruct (String.get (offset + 3) buffer) as [d|] eqn:Ed; [|discriminate].
  intros [= <-]. split; [|now apply get_Some_lt in Ed].
  unfold byte_value. lia.
Qed.

(** X14. The length field of the header, not the size of the datagram,
    delimits the payload: a frame that decodes still decodes, to the
    same message, when any bytes follow it. *)
Theorem decodeBinaryMessage_ignores_trailing_bytes buffer junk message :
  Protocol.decodeBinaryMessage buffer = Some message ->
  Protocol.decodeBinaryMessage (buffer ++ junk) = Some message.
Proof.
  unfold Protocol.decodeBinaryMessage.
  destruct (readUInt16BE buffer 0) as [t|] eqn:R0; [|discriminate].
  destruct (readUInt16BE buffer 2) as [v|] eqn:R2; [|discriminate].
  destruct (readUInt32BE buffer 4) as [len|] eqn:R4; [|discriminate].
  destruct (readUInt32BE buffer 8) as [ts|] eqn:R8; [|discriminate].
  rewrite (readUInt16BE_append _ junk _ _ R0),
    (readUInt16BE_append _ junk _ _ R2),
    (readUInt32BE_append _ junk _ _ R4),
    (readUInt32BE_append _ junk _ _ R8).
  destruct ((t =? 0) || (t >? 255)); [discriminate|].
  destruct (len >? Z.of_nat (String.length buffer) - 12) eqn:Hlen;
    [discriminate|].
  rewrite Z.gtb_ltb in Hlen. apply Z.ltb_ge in Hlen.
  apply readUInt32BE_bounds in R4. destruct R4 as [Hpos _].
  replace (len >? Z.of_nat (String.length (buffer ++ junk)) - 12) with false.
  - rewrite substring_append_l by lia. auto.
  - symmetry. rewrite Z.gtb_ltb. apply Z.ltb_ge.
    rewrite length_append. lia.
Qed.

Lemma decodeBinaryMessage_ignores_trailing_bytes_witness :
  exists message,
    Protocol.decodeBinaryMessage example_frame = Some message /\
    Protocol.decodeBinaryMessage (example_frame ++ "trailing bytes")
    = Some message.
Proof.
  eassert (Hd : Protocol.decodeBinaryMessage example_frame = Some _)
    by (vm_compute; reflexivity).
  eexists. split; [exact Hd|].
  apply decodeBinaryMessage_ignores_trailing_bytes. exact Hd.
Defined.

(* ------------------------------------------------------------------ *)
(** ** Wire codec and tumbler: a frame just built is accepted *)
(* ------------------------------------------------------------------ *)

Lemma obj_set_keys_in k v o x :
  In x (map fst (obj_set k v o)) -> x = k \/ In x (map fst o).
Proof.
  induction o as [|[k' v'] o IH]; cbn [obj_set map fst].
  - intros [<-|[]]. now left.
  - destruct (String.eqb_spec k' k) as [->|Hne]; simpl.
    + intros [E|H]; [left; now symmetry|right; now right].
    + intros [E|H]; [right; now left|].
      apply IH in H. destruct H; [now left|right; now right].
Qed.

Lemma obj_set_wf k v o :
  wf_json v -> wf_json (JObj o) -> wf_json (JObj (obj_set k v o)).
Proof.
  rewrite !wf_obj. intros Hv [Hnd Hall].
  induction o as [|[k' v'] o IH]; cbn [obj_set].
  - split; [cbn; constructor; [intros []|constructor]|].
    constructor; [exact Hv|constructor].
  - cbn [map fst] in Hnd. inversion Hnd as [|? ? Hnot Hnd']; subst.
    inversion Hall as [|? ? Hv' Hall']; subst.
    destruct (String.eqb_spec k' k) as [->|Hne].
    + split; [cbn [map fst]; constructor; assumption|].
      constructor; [exact Hv|exact Hall'].
    + destruct (IH Hnd' Hall') as [Hnd1 Hall1].
      split; [|constructor; assumption].
      cbn [map fst]. constructor; [|exact Hnd1].
      intros Hin. apply obj_set_keys_in in Hin.
      destruct Hin as [->|Hin]; [congruence|contradiction].
Qed.

Lemma obj_spread_wf b : forall acc,
  wf_json (JObj acc) -> wf_json (JObj b) -> wf_json (JObj (obj_spread acc b)).
Proof.
  unfold obj_spread.
  induction b as [|[k v] b IH]; intros acc Hacc Hb; cbn [fold_left fst snd];
    [exact Hacc|].
  apply wf_obj in Hb. destruct Hb as [Hnd Hall].
  cbn [map fst] in Hnd. inversion Hnd; subst. inversion Hall; subst.
  apply IH.
  - now apply obj_set_wf.
  - apply wf_obj. split; assumption.
Qed.

(** X15. A frame built by [encodeMessage] is read back by
    [decodeBinaryMessage] with the signal type it was given, the protocol
    version 0x0100 and the clock reading in whole seconds, whatever the
    sender; and [validateMessage] accepts it at any moment from 60 s
    before to 299 s after the moment it was built, provided its signal
    type is allowed.  This holds for signal types in (0, 255], a clock
    in the range of the seconds field and a payload with distinct keys
    whose text is shorter than 2^32 bytes. *)
Theorem encoded_frame_is_accepted config now now' t sender payload :
  0 < t <= 255 ->
  0 <= now < 4294967296000 ->
  Z.of_nat (String.length
              (stringify (JObj (obj_spread [("sender", JStr sender)] payload))))
  <= 4294967295 ->
  wf_json (JObj payload) ->
  Tumbler.allowedSignals config = [] \/ In t (Tumbler.allowedSignals config) ->
  now - 60000 <= now' <= now + 299000 ->
  exists buffer message,
    Protocol.encodeMessage now t sender payload = Some buffer /\
    Protocol.decodeBinaryMessage buffer = Some message /\
    Protocol.signalType message = t /\
    Protocol.version message = 256 /\
    Protocol.timestamp message = Finite (now / 1000) /\
    Tumbler.validateMessage config now' message = true.
Proof.
  intros Ht Hnow Hlen Hwf Hallowed Hwindow.
  destruct (encodeMessage_frame now t sender payload)
    as (buffer & Henc & R0 & R2 & R4 & R8 & Hl & Hs); try assumption; [lia|].
  assert (Hfull : wf_json (JObj (obj_spread [("sender", JStr sender)] payload))).
  { apply obj_spread_wf; [|exact Hwf].
    apply wf_obj. split; [cbn; constructor; [intros []|constructor]|].
    constructor; [exact I|constructor]. }
  assert (Hpayload : exists decoded,
             Protocol.ensure_sender
               (JObj (obj_spread [("sender", JStr sender)] payload))
             = Some decoded).
  { cbn [Protocol.ensure_sender].
    destruct (obj_get "sender" _) as [v|]; [destruct (truthy v)|]; eauto. }
  destruct Hpayload as (decoded & Hdecoded).
  exists buffer.
  exists {| Protocol.signalType := t;
            Protocol.version := Protocol.PROTOCOL_VERSION;
            Protocol.timestamp := Finite (now / 1000);
            Protocol.payload := decoded |}.
  split; [exact Henc|]. split.
  { unfold Protocol.decodeBinaryMessage. rewrite R0, R2, R4, R8, Hl.
    replace ((t =? 0) || (t >? 255)) with false
      by (symmetry; apply orb_false_iff; split;
          [apply Z.eqb_neq | rewrite Z.gtb_ltb; apply Z.ltb_ge]; lia).
    match goal with
    | |- context [?a >? ?a + 12 - 12] =>
        replace (a >? a + 12 - 12) with false
          by (symmetry; rewrite Z.gtb_ltb; apply Z.ltb_ge; lia)
    end.
    rewrite Nat2Z.id, Hs, (JSON_parse_stringify _ Hfull), Hdecoded.
    reflexivity. }
  cbn [Protocol.signalType Protocol.version Protocol.timestamp].
  do 3 (split; [reflexivity|]).
  rewrite validateMessage_checks.
  cbn [Protocol.signalType Protocol.timestamp].
  replace (negb (Nat.eqb (List.length (Tumbler.allowedSignals config)) 0)
           && negb (Tumbler.includes_signal (Tumbler.allowedSignals config) t))
    with false.
  - cbv zeta.
    cbn [Tumbler.times_1000 Tumbler.age_at Tumbler.greater Tumbler.less].
    pose proof (Z.div_mod now 1000 ltac:(lia)).
    pose proof (Z.mod_pos_bound now 1000 ltac:(lia)).
    replace (now' - now / 1000 * 1000 >? 5 * 60 * 1000) with false
      by (symmetry; rewrite Z.gtb_ltb; apply Z.ltb_ge; lia).
    replace (now' - now / 1000 * 1000 <? -60000) with false
      by (symmetry; apply Z.ltb_ge; lia).
    reflexivity.
  - symmetry. destruct Hallowed as [->|Hin]; [reflexivity|].
    apply andb_false_iff. right. apply negb_false_iff.
    now apply includes_signal_In.
Qed.

Lemma encoded_frame_is_accepted_witness :
  exists buffer message,
    Protocol.encodeMessage 1700000000999 80 "synapse-relay" [("x", JNum 1)]
    = Some buffer /\
    Protocol.decodeBinaryMessage buffer = Some message /\
    Protocol.timestamp message = Finite 1700000000 /\
    Tumbler.validateMessage
      {| Tumbler.allowedPeers := ["A"]; Tumbler.allowedSignals := [4; 80] |}
      1700000000999 message = true.
Proof.
  destruct (encoded_frame_is_accepted
              {| Tumbler.allowedPeers := ["A"];
                 Tumbler.allowedSignals := [4; 80] |}
              1700000000999 1700000000999 80 "synapse-relay" [("x", JNum 1)])
    as (buffer & message & He & Hd & _ & _ & Hts & Hv).
  - lia.
  - lia.
  - vm_compute. discriminate.
  - split; [|split; exact I].
    cbn [map fst]. constructor; [intros []|constructor].
  - right. right. now left.
  - lia.
  - exists buffer, message. split; [exact He|]. split; [exact Hd|].
    split; [rewrite Hts; reflexivity|exact Hv].
Defined.

(* ------------------------------------------------------------------ *)
(** ** Wire codec: signal names and their codes *)
(* ------------------------------------------------------------------ *)

Lemma hex_uint_ascii d :
  ascii_text (HexadecimalString.NilEmpty.string_of_uint d) = true.
Proof. induction d; cbn; auto. Qed.

Lemma toString16_ascii n : ascii_text (toString16 n) = true.
Proof.
  unfold toString16. destruct (Z.to_hex_int n) as [d|d];
    cbn [HexadecimalString.NilZero.string_of_int].
  - destruct d; try reflexivity; apply hex_uint_ascii.
  - cbn [ascii_text]. destruct d; try reflexivity; apply hex_uint_ascii.
Qed.

Lemma upper_text_ascii s : ascii_text s = true -> ascii_text (upper_text s) = true.
Proof.
  induction s as [|c s IH]; [reflexivity|].
  cbn [ascii_text upper_text]. intros H. apply andb_true_iff in H.
  destruct H as [Hc Hs]. rewrite (IH Hs), andb_true_r.
  unfold upper_ascii.
  destruct ((97 <=? N_of_ascii c) && (N_of_ascii c <=? 122))%N eqn:E;
    [|exact Hc].
  apply andb_true_iff in E. destruct E as [E1 E2].
  apply N.leb_le in E1, E2. apply N.ltb_lt.
  rewrite N_ascii_embedding; lia.
Qed.

(** X16. [getSignalName] and [mapTypeStringToNumber] are inverse to each other
    on twelve of the fourteen signal types only: the name of a signal
    type maps back to the type for the dock, heartbeat, relay, ping,
    pong, error and shutdown signals, and to 0 for BUFFER_FLUSH (0x53),
    for BUFFER_RETRY (0x54) and for every type without a name. *)
Theorem signal_name_maps_back toUpperCase signalType :
  upper_on_ascii toUpperCase ->
  Protocol.mapTypeStringToNumber
    toUpperCase (Protocol.getSignalName toUpperCase signalType)
  = if existsb (Z.eqb signalType)
               [1; 2; 3; 4; 5; 80; 81; 82; 241; 242; 240; 255]
    then signalType else 0.
Proof.
  intros Hup. unfold Protocol.getSignalName, Protocol.mapTypeStringToNumber.
  cbn [Protocol.name_of Protocol.SIGNAL_NAMES existsb].
  rewrite !(Z.eqb_sym signalType).
  repeat match goal with
         | |- context [?k =? signalType] =>
             destruct (Z.eqb_spec k signalType) as [<-|?];
             [rewrite Hup by reflexivity; reflexivity|]
         end.
  cbn [orb].
  rewrite (Hup (toString16 signalType)) by apply toString16_ascii.
  rewrite Hup.
  - cbn [append upper_text]. reflexivity.
  - cbn [append ascii_text]. apply upper_text_ascii, toString16_ascii.
Qed.

Lemma signal_name_maps_back_witness :
  Protocol.mapTypeStringToNumber upper_text
    (Protocol.getSignalName upper_text 83) = 0 /\
  Protocol.mapTypeStringToNumber upper_text
    (Protocol.getSignalName upper_text 80) = 80.
Proof.
  split.
  - apply (signal_name_maps_back upper_text 83). intros s _. reflexivity.
  - apply (signal_name_maps_back upper_text 80). intros s _. reflexivity.
Defined.

(* ------------------------------------------------------------------ *)
(** ** Wire codec: text frames are not taken for binary frames *)
(* ------------------------------------------------------------------ *)

Lemma binary_refuses_high_first_byte c0 c1 rest :
  c0 <> "000"%char ->
  Protocol.decodeBinaryMessage (String c0 (String c1 rest)) = None.
Proof.
  intros Hc0. unfold Protocol.decodeBinaryMessage.
  unfold readUInt16BE at 1. cbn [String.get Nat.add].
  destruct (readUInt16BE _ 2); [|reflexivity].
  destruct (readUInt32BE _ 4); [|reflexivity].
  destruct (readUInt32BE _ 8); [|reflexivity].
  replace (_ || _) with true; [reflexivity|].
  symmetry. apply orb_true_iff. right.
  rewrite Z.gtb_ltb. apply Z.ltb_lt.
  assert (0 < byte_value c0).
  { unfold byte_value.
    destruct (N.eq_dec (N_of_ascii c0) 0) as [E|E]; [|lia].
    exfalso. apply Hc0. rewrite <- (ascii_N_embedding c0), E. reflexivity. }
  assert (0 <= byte_value c1) by (unfold byte_value; lia).
  lia.
Qed.

(** X17. A frame built by [encodeTextMessage] is handed to the text decoder:
    whatever its length, the binary decoder does not accept it, because
    its first byte, the first character of the type (or the colon), is
    not 0.  The type must not start with the character of code 0. *)
Theorem text_frame_reaches_text_decoder decodeTextMessage now type sender
        payload :
  (forall rest, type <> String "000" rest) ->
  Protocol.decodeMessage decodeTextMessage
    (Protocol.encodeTextMessage now type sender payload)
  = decodeTextMessage (Protocol.encodeTextMessage now type sender payload).
Proof.
  intros Htype.
  assert (H : exists c0 c1 rest,
             Protocol.encodeTextMessage now type sender payload
             = String c0 (String c1 rest) /\ c0 <> "000"%char).
  { unfold Protocol.encodeTextMessage.
    destruct type as [|c0 [|c1 type]].
    - cbn [append]. destruct sender as [|c1 sender]; cbn [append];
        eexists _, _, _; (split; [reflexivity|discriminate]).
    - cbn [append]. eexists _, _, _. split; [reflexivity|].
      intros ->. now apply (Htype EmptyString).
    - cbn [append]. eexists _, _, _. split; [reflexivity|].
      intros ->. now apply (Htype (String c1 type)). }
  destruct H as (c0 & c1 & rest & -> & Hc0).
  unfold Protocol.decodeMessage.
  replace (String.length (String c0 (String c1 rest)) <? 2)%nat with false
    by (symmetry; apply Nat.ltb_ge; cbn [String.length]; lia).
  rewrite binary_refuses_high_first_byte by exact Hc0.
  now destruct (12 <=? String.length (String c0 (String c1 rest)))%nat.
Qed.

Lemma text_frame_reaches_text_decoder_witness :
  Protocol.decodeMessage (fun _ => None)
    (Protocol.encodeTextMessage 1700000000000 "HEARTBEAT" "peer"
                                (JObj [("x", JNum 1)]))
  = None.
Proof.
  rewrite text_frame_reaches_text_decoder; [reflexivity|].
  intros rest. discriminate.
Defined.

(* ------------------------------------------------------------------ *)
(** ** Tumbler: what [initTumbler] makes of the configured signals *)
(* ------------------------------------------------------------------ *)

Lemma hex_prefix_step acc c d rest :
  hex_value c = Some d ->
  hex_prefix acc (String c rest) = hex_prefix (acc * 16 + Z.of_N d) rest.
Proof. intros H. cbn [hex_prefix]. now rewrite H. Qed.

Ltac hex_digit_step :=
  cbn [HexadecimalString.NilEmpty.string_of_uint upper_text];
  erewrite hex_prefix_step by reflexivity.

Lemma hex_prefix_pos upper d : forall acc,
  hex_prefix (Z.pos acc) (hex_numeral upper d)
  = Z.pos (Pos.of_hex_uint_acc d acc).
Proof.
  unfold hex_numeral.
  induction d; intros acc; destruct upper;
    try reflexivity; hex_digit_step; cbn [Pos.of_hex_uint_acc];
    match goal with
    | |- hex_prefix ?a _ = Z.pos (Pos.of_hex_uint_acc _ ?b) =>
        replace a with (Z.pos b) by (cbn; lia); apply IHd
    end.
Qed.

Lemma hex_prefix_zero upper d :
  hex_prefix 0 (hex_numeral upper d) = Z.of_N (Pos.of_hex_uint d).
Proof.
  induction d;
    try (unfold hex_numeral; destruct upper; reflexivity);
    try (unfold hex_numeral in *; destruct upper; hex_digit_step;
         cbn [Pos.of_hex_uint Z.of_N];
         [apply (hex_prefix_pos true)|apply (hex_prefix_pos false)]).
  unfold hex_numeral in *. destruct upper; hex_digit_step;
    cbn [Pos.of_hex_uint]; exact IHd.
Qed.

Lemma parseInt16_numeral upper d :
  d <> Hexadecimal.Nil ->
  parseInt16 (hex_numeral upper d) = Some (Z.of_N (Pos.of_hex_uint d)).
Proof.
  intros Hd. rewrite <- (hex_prefix_zero upper d).
  unfold hex_numeral. destruct d; [contradiction| ..]; destruct upper;
    reflexivity.
Qed.

(** [parseInt] reads back what [toString(16)] prints, in either case. *)
Lemma parseInt16_toString16 n :
  0 < n ->
  parseInt16 (toString16 n) = Some n /\
  parseInt16 (upper_text (toString16 n)) = Some n.
Proof.
  intros Hn. destruct n as [|p|p]; try lia.
  unfold toString16. cbn [Z.to_hex_int HexadecimalString.NilZero.string_of_int].
  pose proof (HexadecimalPos.Unsigned.to_uint_nonnil p) as Hnil.
  assert (E : HexadecimalString.NilZero.string_of_uint (Pos.to_hex_uint p)
              = HexadecimalString.NilEmpty.string_of_uint (Pos.to_hex_uint p)).
  { unfold HexadecimalString.NilZero.string_of_uint.
    destruct (Pos.to_hex_uint p); [contradiction| ..]; reflexivity. }
  rewrite E.
  pose proof (parseInt16_numeral false _ Hnil) as Hl.
  pose proof (parseInt16_numeral true _ Hnil) as Hu.
  unfold hex_numeral in Hl, Hu.
  rewrite HexadecimalPos.Unsigned.of_to in Hl, Hu. auto.
Qed.

Lemma allowed_after_init peers signals n :
  In n (Tumbler.allowedSignals (Tumbler.initTumbler peers signals)) <->
  0 < n /\ exists s, In s signals /\ Tumbler.signal_number s = Some n.
Proof.
  cbn [Tumbler.initTumbler Tumbler.allowedSignals]. rewrite in_flat_map.
  split.
  - intros (s & Hs & Hin).
    destruct (Tumbler.signal_number s) as [k|] eqn:E; [|contradiction].
    destruct (k >? 0) eqn:Hk; [|contradiction].
    destruct Hin as [<-|[]].
    rewrite Z.gtb_ltb in Hk. apply Z.ltb_lt in Hk. eauto.
  - intros (Hn & s & Hs & E). exists s. split; [exact Hs|].
    rewrite E. replace (n >? 0) with true; [now left|].
    symmetry. rewrite Z.gtb_ltb. now apply Z.ltb_lt.
Qed.

(** X18. [initTumbler] allows positive signal codes only, and it understands
    a code given as the text [0x] followed by its hexadecimal digits as
    [toString(16)] prints them, in lower or in upper case, as well as a
    code given as a number: a positive code (a safe integer) written
    either way in [signals] is allowed afterwards. *)
Theorem initTumbler_reads_hexadecimal_codes peers signals n :
  0 < n <= MAX_SAFE_INTEGER ->
  In (JStr ("0x" ++ toString16 n)) signals
  \/ In (JStr ("0x" ++ upper_text (toString16 n))) signals
  \/ In (JNum n) signals ->
  In n (Tumbler.allowedSignals (Tumbler.initTumbler peers signals)) /\
  Forall (fun k => 0 < k)
         (Tumbler.allowedSignals (Tumbler.initTumbler peers signals)).
Proof.
  intros [Hn _] Hin. split.
  - apply allowed_after_init. split; [exact Hn|].
    destruct (parseInt16_toString16 n Hn) as [Hl Hu].
    destruct Hin as [Hin|[Hin|Hin]]; eexists; (split; [exact Hin|]);
      cbn [append Tumbler.signal_number]; auto.
  - apply Forall_forall. intros k Hk. now apply allowed_after_init in Hk.
Qed.

Lemma initTumbler_reads_hexadecimal_codes_witness :
  In 241 (Tumbler.allowedSignals
            (Tumbler.initTumbler ["A"] [JStr "0x04"; JStr "0xF1"; JNum 80])) /\
  Forall (fun k => 0 < k)
         (Tumbler.allowedSignals
            (Tumbler.initTumbler ["A"] [JStr "0x04"; JStr "0xF1"; JNum 80])).
Proof.
  apply (initTumbler_reads_hexadecimal_codes
           ["A"] [JStr "0x04"; JStr "0xF1"; JNum 80] 241).
  - unfold MAX_SAFE_INTEGER. lia.
  - right. left. right. left. reflexivity.
Defined.

(** X19. A signal given by its name is not understood: [initTumbler] drops
    every entry of [signals] that is a text not starting with [0x], and
    when all entries are such texts the whitelist it installs is empty,
    so that [validateMessage] accepts every signal type and decides on
    the timestamp of the message alone: an integer timestamp passes
    from 60 s ahead of the clock to 300 s behind it, a timestamp that is
    [NaN] always passes, an infinite one never. *)
Theorem signal_names_disable_the_whitelist peers signals :
  Forall (fun s => exists name,
              s = JStr name /\ prefix "0x" name = false) signals ->
  Tumbler.allowedSignals (Tumbler.initTumbler peers signals) = [] /\
  forall now message,
    Tumbler.validateMessage (Tumbler.initTumbler peers signals) now message
    = true <->
    match Protocol.timestamp message with
    | Finite ts => -60000 <= now - ts * 1000 <= 300000
    | NaN => True
    | Infinite _ => False
    end.
Proof.
  intros Hnames.
  assert (Hempty : Tumbler.allowedSignals (Tumbler.initTumbler peers signals)
                   = []).
  { cbn [Tumbler.initTumbler Tumbler.allowedSignals].
    induction Hnames as [|s signals (name & -> & Hp) _ IH]; [reflexivity|].
    cbn [flat_map]. rewrite IH, List.app_nil_r.
    destruct name as [|c0 [|c1 name]]; [reflexivity| |].
    - destruct c0 as [[] [] [] [] [] [] [] []]; reflexivity.
    - destruct c0 as [[] [] [] [] [] [] [] []]; try reflexivity;
        destruct c1 as [[] [] [] [] [] [] [] []]; try reflexivity.
      exfalso. clear IH. vm_compute in Hp. destruct name; discriminate Hp. }
  split; [exact Hempty|].
  intros now message. rewrite validateMessage_checks, Hempty.
  cbn [List.length Nat.eqb negb andb]. cbv zeta.
  apply freshness_test.
Qed.

Lemma signal_names_disable_the_whitelist_witness :
  Tumbler.allowedSignals
    (Tumbler.initTumbler ["A"] [JStr "HEARTBEAT"; JStr "PING"]) = [] /\
  Tumbler.validateMessage
    (Tumbler.initTumbler ["A"] [JStr "HEARTBEAT"; JStr "PING"])
    1700000000000
    {| Protocol.signalType := 80; Protocol.version := 256;
       Protocol.timestamp := Finite 1700000000; Protocol.payload := [] |} = true.
Proof.
  destruct (signal_names_disable_the_whitelist
              ["A"] [JStr "HEARTBEAT"; JStr "PING"]) as [He Hv].
  - repeat constructor; eexists; split; reflexivity.
  - split; [exact He|]. apply Hv. cbn. lia.
Defined.

(* ------------------------------------------------------------------ *)
(** ** Rule engine: adding, reading, updating and removing rules *)
(* ------------------------------------------------------------------ *)









Lemma find_rule_map id id' f table :
  (forall r, DbRelayRule.id (f r) = DbRelayRule.id r) ->
  find (fun r => DbRelayRule.id r =? id')
       (map (fun r => if DbRelayRule.id r =? id then f r else r) table)
  = match find (fun r => DbRelayRule.id r =? id') table with
    | Some r => Some (if id' =? id then f r else r)
    | None => None
    end.
Proof.
  intros Hf. induction table as [|x table IH]; cbn [map find]; [reflexivity|].
  destruct (Z.eqb_spec (DbRelayRule.id x) id) as [E|Hne].
  - rewrite Hf. destruct (Z.eqb_spec (DbRelayRule.id x) id') as [E'|_].
    + replace (id' =? id) with true; [reflexivity|].
      symmetry. apply Z.eqb_eq. congruence.
    + exact IH.
  - destruct (Z.eqb_spec (DbRelayRule.id x) id') as [E'|_]; [|exact IH].
    replace (id' =? id) with false; [reflexivity|].
    symmetry. apply Z.eqb_neq. congruence.
Qed.

Lemma existsb_find_rule id table :
  existsb (fun r => DbRelayRule.id r =? id) table
  = match find (fun r => DbRelayRule.id r =? id) table with
    | Some _ => true
    | None => false
    end.
Proof.
  induction table as [|x table IH]; cbn [existsb find]; [reflexivity|].
  destruct (DbRelayRule.id x =? id); [reflexivity|exact IH].
Qed.

(** X22. [updateRule] always stamps the rule: even with no field to change it
    sets [updated_at] to the clock reading and reports success when the
    rule exists; it keeps the id, the creation time and the match count,
    and leaves every other rule as it was.  For an id that is not in the
    table it reports failure and changes nothing. *)
Theorem updateRule_stamps_the_rule now ruleId updates db :
  match Schema.getRelayRule ruleId db with
  | Some r =>
      exists r',
        fst (RuleEngine.updateRule now ruleId updates db) = true /\
        Schema.getRelayRule ruleId (snd (RuleEngine.updateRule now ruleId updates db))
        = Some r' /\
        DbRelayRule.updated_at r' = Some now /\
        DbRelayRule.id r' = ruleId /\
        DbRelayRule.created_at r' = DbRelayRule.created_at r /\
        DbRelayRule.match_count r' = DbRelayRule.match_count r /\
        (updates = no_updates ->
         DbRelayRule.signal_pattern r' = DbRelayRule.signal_pattern r /\
         DbRelayRule.source_filter r' = DbRelayRule.source_filter r /\
         DbRelayRule.relay_to r' = DbRelayRule.relay_to r /\
         DbRelayRule.transform r' = DbRelayRule.transform r /\
         DbRelayRule.priority r' = DbRelayRule.priority r /\
         DbRelayRule.enabled r' = DbRelayRule.enabled r)
  | None => RuleEngine.updateRule now ruleId updates db = (false, db)
  end /\
  forall other, other <> ruleId ->
    Schema.getRelayRule other (snd (RuleEngine.updateRule now ruleId updates db))
    = Schema.getRelayRule other db.
Proof.
  unfold RuleEngine.updateRule, Schema.updateRelayRule, Schema.getRelayRule.
  cbn [fst snd Schema.rules]. split.
  - rewrite existsb_find_rule, find_rule_map by reflexivity.
    destruct (find _ (Schema.rules db)) as [r|] eqn:E.
    + rewrite Z.eqb_refl. eexists. split; [reflexivity|].
      split; [reflexivity|].
      apply find_some in E. destruct E as [_ E]. apply Z.eqb_eq in E.
      cbn [Schema.updated_rule DbRelayRule.updated_at DbRelayRule.id
           DbRelayRule.created_at DbRelayRule.match_count].
      repeat split; auto.
      all: subst updates; reflexivity.
    + destruct db as [table seq]. cbn [Schema.rules Schema.rules_sequence] in *.
      f_equal. f_equal.
      induction table as [|x table IH]; [reflexivity|].
      cbn [find map] in *.
      destruct (DbRelayRule.id x =? ruleId); [discriminate|].
      f_equal. now apply IH.
  - intros other Hne. rewrite find_rule_map by reflexivity.
    destruct (find _ (Schema.rules db)); [|reflexivity].
    destruct (Z.eqb_spec other ruleId); [contradiction|reflexivity].
Qed.

(* ------------------------------------------------------------------ *)
(** ** Stats aggregator: the rows of the hourly aggregation *)
(* ------------------------------------------------------------------ *)

Lemma agg_get_In k m a :
  StatsAggregator.agg_get k m = Some a -> In a (map snd m).
Proof.
  induction m as [|[k' a'] m IH]; cbn [StatsAggregator.agg_get map snd];
    [discriminate|].
  destruct (String.eqb k' k); [intros [= ->]; now left|].
  intros H. right. now apply IH.
Qed.

Lemma agg_set_Forall (P : StatsAggregator.Aggregation -> Prop) k a m :
  P a -> Forall P (map snd m) ->
  Forall P (map snd (StatsAggregator.agg_set k a m)).
Proof.
  intros Ha. induction m as [|[k' a'] m IH];
    cbn [StatsAggregator.agg_set map snd]; intros H.
  - constructor; [exact Ha|constructor].
  - inversion H; subst.
    destruct (String.eqb k' k); cbn [map snd]; constructor; auto.
Qed.

Lemma agg_set_sum k a m :
  sum_totals (StatsAggregator.agg_set k a m)
  = sum_totals m + StatsAggregator.agg_total_relayed a
    - match StatsAggregator.agg_get k m with
      | Some old => StatsAggregator.agg_total_relayed old
      | None => 0
      end.
Proof.
  unfold sum_totals.
  induction m as [|[k' a'] m IH];
    cbn [StatsAggregator.agg_set StatsAggregator.agg_get map fold_right snd].
  - lia.
  - destruct (String.eqb k' k); cbn [map fold_right snd]; lia.
Qed.

Lemma count_target_step relay reachedList failedList m target m' :
  StatsAggregator.count_target relay reachedList failedList m target = Some m' ->
  (Forall counted (map snd m) -> Forall counted (map snd m')) /\
  sum_totals m' = sum_totals m + 1.
Proof.
  unfold StatsAggregator.count_target.
  destruct (StatsAggregator.includes reachedList target) as [r|];
    [|discriminate].
  destruct (StatsAggregator.includes failedList target) as [f|];
    [|discriminate].
  intros [= <-]. split.
  - intros Hall. apply agg_set_Forall; [|exact Hall].
    destruct (StatsAggregator.agg_get _ m) as [a|] eqn:E.
    + apply agg_get_In in E.
      assert (Ha : counted a) by (revert a E; now apply Forall_forall).
      destruct Ha as (H1 & H2 & H3 & H4). unfold counted.
      cbn [StatsAggregator.agg_total_relayed StatsAggregator.agg_success_count
           StatsAggregator.agg_failure_count StatsAggregator.agg_buffered_count].
      destruct r, f; repeat split; lia.
    + unfold counted.
      cbn [StatsAggregator.agg_total_relayed StatsAggregator.agg_success_count
           StatsAggregator.agg_failure_count StatsAggregator.agg_buffered_count].
      destruct r, f; repeat split; lia.
  - rewrite agg_set_sum.
    destruct (StatsAggregator.agg_get _ m) as [a|];
      cbn [StatsAggregator.agg_total_relayed]; lia.
Qed.

Lemma count_targets_loop relay reachedList failedList l : forall m m',
  StatsAggregator.fold_option
    (StatsAggregator.count_target relay reachedList failedList) l m = Some m' ->
  (Forall counted (map snd m) -> Forall counted (map snd m')) /\
  sum_totals m' = sum_totals m + Z.of_nat (List.length l).
Proof.
  induction l as [|t l IH]; intros m m' H; cbn [StatsAggregator.fold_option] in H.
  - injection H as <-. cbn [List.length]. split; [auto|lia].
  - destruct (StatsAggregator.count_target _ _ _ m t) as [m1|] eqn:E;
      [|discriminate].
    apply count_target_step in E. destruct E as [E1 E2].
    apply IH in H. destruct H as [H1 H2].
    split; [auto|]. cbn [List.length]. lia.
Qed.

Lemma count_relay_step cp m relay m' :
  StatsAggregator.count_relay cp m relay = Some m' ->
  (Forall counted (map snd m) -> Forall counted (map snd m')) /\
  sum_totals m' = sum_totals m + Z.of_nat (List.length (targets_of cp relay)).
Proof.
  unfold StatsAggregator.count_relay, targets_of.
  destruct (JSON_parse (DbSignalRelay.target_servers relay)) as [targets|];
    [|discriminate].
  destruct (StatsAggregator.parse_or_empty (DbSignalRelay.targets_reached relay))
    as [reachedList|]; [|discriminate].
  destruct (StatsAggregator.parse_or_empty (DbSignalRelay.targets_failed relay))
    as [failedList|]; [|discriminate].
  destruct (StatsAggregator.iterate cp targets) as [l|]; [|discriminate].
  apply count_targets_loop.
Qed.

Lemma count_relays_loop cp history : forall m m',
  StatsAggregator.fold_option (StatsAggregator.count_relay cp) history m
  = Some m' ->
  (Forall counted (map snd m) -> Forall counted (map snd m')) /\
  sum_totals m'
  = sum_totals m + Z.of_nat (List.length (flat_map (targets_of cp) history)).
Proof.
  induction history as [|relay history IH]; intros m m' H;
    cbn [StatsAggregator.fold_option] in H.
  - injection H as <-. cbn [flat_map List.length]. split; [auto|lia].
  - destruct (StatsAggregator.count_relay cp m relay) as [m1|] eqn:E;
      [|discriminate].
    apply count_relay_step in E. destruct E as [E1 E2].
    apply IH in H. destruct H as [H1 H2].
    split; [auto|]. cbn [flat_map]. rewrite length_app. lia.
Qed.

(** The loop that stores the aggregations appends one row per
    aggregation it gets through. *)
Lemma store_aggregations_rows number_text periodStart aggs : forall db,
  exists rows,
    Schema.stats (snd (StatsAggregator.store_aggregations number_text periodStart aggs db))
    = (Schema.stats db ++ rows)%list /\
    (Forall counted aggs -> Forall (hourly_row periodStart) rows) /\
    (fst (StatsAggregator.store_aggregations number_text periodStart aggs db) = Some tt ->
     map DbRelayStats.total_relayed rows
     = map StatsAggregator.agg_total_relayed aggs).
Proof.
  induction aggs as [|agg aggs IH]; intros db;
    cbn [StatsAggregator.store_aggregations].
  - exists []. cbn [snd fst map]. rewrite List.app_nil_r. auto.
  - destruct (StatsAggregator.bind_text _) as [target_server|];
      [|exists []; cbn [snd fst]; rewrite List.app_nil_r;
        repeat split; [constructor|discriminate]].
    unfold Schema.insertRelayStats.
    destruct (_ >? Schema.MAX_ROWID);
      [exists []; cbn [snd fst]; rewrite List.app_nil_r;
       repeat split; [constructor|discriminate]|].
    match goal with
    | |- context [StatsAggregator.store_aggregations number_text periodStart aggs ?db1] =>
        destruct (IH db1) as (rows & Hrows & Hall & Htot)
    end.
    cbn [Schema.stats] in Hrows.
    eexists (_ :: rows). split; [|split].
    + rewrite Hrows, <- List.app_assoc. reflexivity.
    + intros Hc. inversion Hc as [|? ? (H1 & H2 & H3 & H4) Hc']; subst.
      constructor; [|auto].
      unfold hourly_row.
      cbn [Schema.with_stats_id StatsAggregator.stats_row
           DbRelayStats.period_start DbRelayStats.buffered_count
           DbRelayStats.total_relayed DbRelayStats.success_count
           DbRelayStats.failure_count].
      repeat split; lia.
    + intros Hok. cbn [map]. rewrite (Htot Hok). reflexivity.
Qed.

Lemma periodStart_at_spec now :
  StatsAggregator.periodStart_at now mod 3600000 = 0 /\
  now - 7200000 < StatsAggregator.periodStart_at now <= now - 3600000.
Proof.
  unfold StatsAggregator.periodStart_at. cbv zeta.
  change (60 * 60 * 1000) with 3600000.
  pose proof (Z.div_mod (now - 3600000) 3600000 ltac:(lia)).
  pose proof (Z.mod_pos_bound (now - 3600000) 3600000 ltac:(lia)).
  split; [apply Z.mod_mul; lia|lia].
Qed.

(** X23. Whatever the relay history holds and however it ends,
    [aggregateHourlyStats] only appends to the statistics table, and
    every row it appends is filed under one period start, the hour
    boundary between one and two hours before the clock reading; its
    [buffered_count] is 0 (buffered signals are never counted), its
    [total_relayed] is at least 1, and its success and failure counts
    lie between 0 and [total_relayed]. *)
Theorem hourly_rows_are_consistent code_points number_text now relays db :
  StatsAggregator.periodStart_at now mod 3600000 = 0 /\
  now - 7200000 < StatsAggregator.periodStart_at now <= now - 3600000 /\
  exists rows,
    Schema.stats
      (snd (StatsAggregator.aggregateHourlyStats code_points number_text now relays db))
    = (Schema.stats db ++ rows)%list /\
    Forall (hourly_row (StatsAggregator.periodStart_at now)) rows.
Proof.
  destruct (periodStart_at_spec now) as [Hmod Hrange].
  split; [exact Hmod|]. split; [exact Hrange|].
  unfold StatsAggregator.aggregateHourlyStats. cbv zeta.
  destruct (Schema.getSignalRelayHistory _ 10000 relays) as [|r history];
    [exists []; cbn [snd]; rewrite List.app_nil_r; split; constructor|].
  destruct (StatsAggregator.fold_option
              (StatsAggregator.count_relay code_points) (r :: history) [])
    as [aggregations|] eqn:E;
    [|exists []; cbn [snd]; rewrite List.app_nil_r; split; constructor].
  apply count_relays_loop in E. destruct E as [Hall _].
  destruct (store_aggregations_rows number_text (StatsAggregator.periodStart_at now)
              (map snd aggregations) db) as (rows & Hrows & Hrow & _).
  exists rows. split; [exact Hrows|].
  apply Hrow, Hall. constructor.
Qed.




(* ------------------------------------------------------------------ *)
(** ** Stats aggregator: running the aggregation again *)
(* ------------------------------------------------------------------ *)

Lemma largest_stats_id_app table r :
  Schema.largest_stats_id (table ++ [r])
  = Z.max (Schema.largest_stats_id table) (Z.max (DbRelayStats.id r) 0).
Proof.
  unfold Schema.largest_stats_id.
  induction table as [|x table IH]; cbn [app map fold_right]; [lia|].
  rewrite IH. lia.
Qed.

Lemma next_stats_id_after_insert row db id db' :
  Schema.insertRelayStats row db = Some (id, db') ->
  id = next_stats_id db /\ next_stats_id db' = next_stats_id db + 1 /\
  Schema.stats db' = (Schema.stats db ++ [Schema.with_stats_id id row])%list.
Proof.
  unfold Schema.insertRelayStats, next_stats_id.
  destruct (_ >? Schema.MAX_ROWID); [discriminate|].
  intros [= <- <-]. cbn [Schema.stats Schema.stats_sequence].
  split; [reflexivity|]. split; [|reflexivity].
  rewrite largest_stats_id_app. cbn [Schema.with_stats_id DbRelayStats.id].
  unfold Schema.largest_stats_id.
  assert (0 <= fold_right Z.max 0 (map DbRelayStats.id (Schema.stats db))).
  { induction (Schema.stats db); cbn [map fold_right]; lia. }
  lia.
Qed.

(** A run of the storing loop that gets through, read backwards. *)
Lemma store_aggregations_done number_text periodStart aggs : forall db db',
  StatsAggregator.store_aggregations number_text periodStart aggs db = (Some tt, db') ->
  exists rows,
    Schema.stats db' = (Schema.stats db ++ rows)%list /\
    List.length rows = List.length aggs /\
    Forall (fun agg => StatsAggregator.bind_text number_text
                         (StatsAggregator.agg_target_server agg) <> None) aggs /\
    map (Schema.with_stats_id 0) rows
    = map (fun agg =>
             StatsAggregator.stats_row periodStart agg
               match StatsAggregator.bind_text number_text
                       (StatsAggregator.agg_target_server agg) with
               | Some target_server => target_server
               | None => None
               end) aggs.
Proof.
  induction aggs as [|agg aggs IH]; intros db db';
    cbn [StatsAggregator.store_aggregations].
  - intros [= <-]. exists []. rewrite List.app_nil_r. repeat split. constructor.
  - destruct (StatsAggregator.bind_text _) as [target_server|] eqn:Eb;
      [|discriminate].
    destruct (Schema.insertRelayStats _ db) as [[id db1]|] eqn:Ei;
      [|discriminate].
    intros H. apply IH in H. destruct H as (rows & Hrows & Hlen & Hb & Hm).
    apply next_stats_id_after_insert in Ei. destruct Ei as (_ & _ & Hdb1).
    eexists (_ :: rows). split; [|split; [|split]].
    + rewrite Hrows, Hdb1, <- List.app_assoc. reflexivity.
    + cbn [List.length]. now rewrite Hlen.
    + constructor; [now rewrite Eb|exact Hb].
    + cbn [map]. rewrite Hm, Eb. reflexivity.
Qed.

(** The storing loop gets through when every target can be bound and
    row ids are left. *)
Lemma store_aggregations_room number_text periodStart aggs : forall db,
  Forall (fun agg => StatsAggregator.bind_text number_text
                       (StatsAggregator.agg_target_server agg) <> None) aggs ->
  next_stats_id db + Z.of_nat (List.length aggs) - 1 <= Schema.MAX_ROWID ->
  exists db',
    StatsAggregator.store_aggregations number_text periodStart aggs db = (Some tt, db').
Proof.
  induction aggs as [|agg aggs IH]; intros db Hb Hroom;
    cbn [StatsAggregator.store_aggregations].
  - eexists. reflexivity.
  - inversion Hb as [|? ? Hagg Hb']; subst.
    destruct (StatsAggregator.bind_text _) as [target_server|];
      [|congruence].
    destruct (Schema.insertRelayStats
                (StatsAggregator.stats_row periodStart agg target_server) db)
      as [[id db1]|] eqn:Ei.
    + apply next_stats_id_after_insert in Ei. destruct Ei as (_ & Hnext & _).
      apply IH; [exact Hb'|].
      cbn [List.length] in Hroom. lia.
    + exfalso. unfold Schema.insertRelayStats in Ei.
      fold (next_stats_id db) in Ei.
      destruct (next_stats_id db >? Schema.MAX_ROWID) eqn:E; [|discriminate].
      rewrite Z.gtb_ltb in E. apply Z.ltb_lt in E.
      cbn [List.length] in Hroom. lia.
Qed.

(** X25. [aggregateHourlyStats] is not idempotent.  Run again on the same
    relay history while the period start is the same (a second run
    within the hour), it appends the rows of the first run once more,
    under new ids: nothing records that a relay has been aggregated, and
    no row is replaced.  This holds while row ids are left for the
    second run. *)
Theorem hourly_aggregation_repeats_its_rows code_points number_text now now'
        relays db db1 :
  StatsAggregator.aggregateHourlyStats code_points number_text now relays db
  = (Some tt, db1) ->
  StatsAggregator.periodStart_at now' = StatsAggregator.periodStart_at now ->
  next_stats_id db1
  + Z.of_nat (List.length (Schema.stats db1) - List.length (Schema.stats db))
  - 1 <= Schema.MAX_ROWID ->
  exists rows rows' db2,
    Schema.stats db1 = (Schema.stats db ++ rows)%list /\
    StatsAggregator.aggregateHourlyStats code_points number_text now' relays db1
    = (Some tt, db2) /\
    Schema.stats db2 = (Schema.stats db ++ rows ++ rows')%list /\
    map (Schema.with_stats_id 0) rows' = map (Schema.with_stats_id 0) rows.
Proof.
  unfold StatsAggregator.aggregateHourlyStats. cbv zeta.
  intros Hrun Hperiod Hroom. rewrite Hperiod.
  destruct (Schema.getSignalRelayHistory _ 10000 relays) as [|r history].
  - injection Hrun as <-. exists [], [], db.
    rewrite !List.app_nil_r. repeat split.
  - destruct (StatsAggregator.fold_option
                (StatsAggregator.count_relay code_points) (r :: history) [])
      as [aggregations|]; [|discriminate].
    pose proof (store_aggregations_done _ _ _ _ _ Hrun)
      as (rows & Hrows & Hlen & Hb & Hm).
    assert (Hn : (List.length (Schema.stats db1) - List.length (Schema.stats db)
                  = List.length (map snd aggregations))%nat).
    { rewrite Hrows, length_app, Hlen. lia. }
    rewrite Hn in Hroom.
    destruct (store_aggregations_room number_text
                (StatsAggregator.periodStart_at now) _ db1 Hb Hroom)
      as (db2 & Hrun2).
    pose proof (store_aggregations_done _ _ _ _ _ Hrun2)
      as (rows' & Hrows' & _ & _ & Hm').
    exists rows, rows', db2. split; [exact Hrows|]. split; [exact Hrun2|].
    split; [now rewrite Hrows', Hrows, <- List.app_assoc|].
    now rewrite Hm, Hm'.
Qed.

Lemma hourly_aggregation_repeats_its_rows_witness :
  exists db1 db2,
    StatsAggregator.aggregateHourlyStats bytes_of string_of_Z 1700003600000
      [example_relay "r1" 1700000000000] no_stats = (Some tt, db1) /\
    StatsAggregator.aggregateHourlyStats bytes_of string_of_Z 1700003660000
      [example_relay "r1" 1700000000000] db1 = (Some tt, db2) /\
    List.length (Schema.stats db1) = 2%nat /\
    List.length (Schema.stats db2) = 4%nat.
Proof.
  eassert (H : StatsAggregator.aggregateHourlyStats
                 bytes_of string_of_Z 1700003600000
                 [example_relay "r1" 1700000000000] no_stats = (Some tt, _))
    by (vm_compute; reflexivity).
  destruct (hourly_aggregation_repeats_its_rows
              bytes_of string_of_Z 1700003600000 1700003660000 _ _ _ H)
    as (rows & rows' & db2 & Hrows & Hrun2 & Hrows2 & Hsame).
  - reflexivity.
  - vm_compute. discriminate.
  - eexists _, db2. split; [exact H|]. split; [exact Hrun2|].
    assert (Hlen : List.length rows' = List.length rows).
    { rewrite <- (length_map (Schema.with_stats_id 0) rows'), Hsame.
      apply length_map. }
    assert (H2 : List.length rows = 2%nat).
    { cbn [Schema.stats no_stats app] in Hrows. rewrite <- Hrows. reflexivity. }
    split; [reflexivity|].
    rewrite Hrows2, !length_app, Hlen, H2. reflexivity.
Defined.

(* ------------------------------------------------------------------ *)
(** ** Stats aggregator: what [getRelayStatistics] adds up *)
(* ------------------------------------------------------------------ *)

Lemma bucket_set_sum k (b : StatsAggregator.bucket) g :
  sum_bucket_counts (StatsAggregator.bucket_set k b g)
  = sum_bucket_counts g + fst (fst b)
    - match StatsAggregator.bucket_get k g with
      | Some old => fst (fst old)
      | None => 0
      end.
Proof.
  unfold sum_bucket_counts.
  induction g as [|[k' b'] g IH];
    cbn [StatsAggregator.bucket_set StatsAggregator.bucket_get map fold_right
         snd].
  - lia.
  - destruct (String.eqb k' k); cbn [map fold_right snd]; lia.
Qed.

Lemma add_to_group_sum key stat g :
  sum_bucket_counts (StatsAggregator.add_to_group key stat g)
  = sum_bucket_counts g + DbRelayStats.total_relayed stat.
Proof.
  unfold StatsAggregator.add_to_group.
  destruct (StatsAggregator.bucket_get key g) as [[[c s] l]|] eqn:E;
    rewrite bucket_set_sum, E; cbn [fst]; lia.
Qed.

Lemma column_key_not_empty rt groupBy stat :
  by_column groupBy ->
  exists key, StatsAggregator.groupKey rt (Some groupBy) stat = Some key /\
              String.eqb key EmptyString = false.
Proof.
  intros [->|[->| ->]]; cbn [StatsAggregator.groupKey]; eexists;
    (split; [reflexivity|]).
  - destruct (DbRelayStats.signal_type stat); reflexivity.
  - unfold StatsAggregator.or_unknown.
    destruct (DbRelayStats.source_server stat) as [s|]; [|reflexivity].
    destruct (String.eqb s EmptyString) eqn:E; [reflexivity|exact E].
  - unfold StatsAggregator.or_unknown.
    destruct (DbRelayStats.target_server stat) as [s|]; [|reflexivity].
    destruct (String.eqb s EmptyString) eqn:E; [reflexivity|exact E].
Qed.

Lemma accumulate_sums rt groupBy stats : forall acc,
  by_column groupBy ->
  plain_group_keys rt groupBy stats ->
  StatsAggregator.totalRelayed
    (fold_left (StatsAggregator.accumulate rt (Some groupBy)) stats acc)
  - sum_bucket_counts
      (StatsAggregator.byGroup
         (fold_left (StatsAggregator.accumulate rt (Some groupBy)) stats acc))
  = StatsAggregator.totalRelayed acc
    - sum_bucket_counts (StatsAggregator.byGroup acc).
Proof.
  induction stats as [|stat stats IH]; intros acc Hcol Hplain; cbn [fold_left];
    [reflexivity|].
  inversion Hplain as [|? ? Hstat Hrest]; subst.
  rewrite IH by assumption.
  unfold StatsAggregator.accumulate.
  destruct (column_key_not_empty rt groupBy stat Hcol) as (key & Hkey & Hne).
  rewrite Hkey, Hne, (Hstat key Hkey).
  destruct (DbRelayStats.avg_latency_ms stat);
    cbn [StatsAggregator.totalRelayed StatsAggregator.byGroup];
    rewrite add_to_group_sum; lia.
Qed.

Lemma group_output_count g :
  sum_group_counts
    (map (fun kb => (fst kb, StatsAggregator.group_output (snd kb))) g)
  = sum_bucket_counts g.
Proof.
  unfold sum_group_counts, sum_bucket_counts. rewrite map_map.
  f_equal. apply map_ext. intros [k [[c s] l]]. reflexivity.
Qed.

(** The group keys of the grouping by signal type, [signal_<n>] and
    [unknown], name no inherited member. *)
Lemma signal_type_keys_plain rt rows :
  plain_group_keys rt StatsAggregator.by_signal_type rows.
Proof.
  apply Forall_forall. intros stat _ key.
  cbn [StatsAggregator.groupKey]. intros [= <-].
  destruct (DbRelayStats.signal_type stat); reflexivity.
Qed.

(** X26. When the statistics are grouped by signal type, or by source or
    by target and no source or target of the rows read has the name of
    a member of [Object.prototype] ([constructor], [toString], ...),
    every row counted in [total_relayed] is counted in exactly one
    group: the counts of the groups add up to [total_relayed]. *)
Theorem group_counts_add_up_to_total rt since until groupBy includeFailures w :
  by_column groupBy ->
  groupBy = StatsAggregator.by_signal_type
  \/ plain_group_keys rt groupBy
       (StatsAggregator.getRelayStats since until (relay_stats w)) ->
  sum_group_counts
    (StatsAggregator.by_group
       (StatsAggregator.getRelayStatistics
          rt since until (Some groupBy) includeFailures w))
  = StatsAggregator.total_relayed
      (StatsAggregator.getRelayStatistics
         rt since until (Some groupBy) includeFailures w).
Proof.
  intros Hcol Hplain.
  assert (Hkeys : plain_group_keys rt groupBy
                    (StatsAggregator.getRelayStats since until (relay_stats w)))
    by (destruct Hplain as [->|H]; [apply signal_type_keys_plain|exact H]).
  unfold StatsAggregator.getRelayStatistics. cbv zeta.
  cbn [StatsAggregator.by_group StatsAggregator.total_relayed].
  rewrite group_output_count.
  match goal with
  | |- context [fold_left ?f ?l ?a] =>
      pose proof (accumulate_sums rt groupBy l a Hcol Hkeys) as H
  end.
  cbn [StatsAggregator.totalRelayed StatsAggregator.byGroup] in H.
  unfold sum_bucket_counts at 2 in H. cbn [map fold_right] in H. lia.
Qed.

Lemma group_counts_add_up_to_total_witness :
  sum_group_counts
    (StatsAggregator.by_group
       (StatsAggregator.getRelayStatistics
          example_runtime 0 None (Some StatsAggregator.by_target) true
          two_stats_rows)) = 8.
Proof.
  rewrite group_counts_add_up_to_total.
  - reflexivity.
  - right. right. reflexivity.
  - right. apply Forall_forall. intros stat Hin key Hkey.
    cbv in Hin. destruct Hin as [<-|[<-|[]]];
      cbn in Hkey; injection Hkey as <-; reflexivity.
Defined.

(* ------------------------------------------------------------------ *)
(** ** Buffer manager: the invariants on a store *)
(* ------------------------------------------------------------------ *)

Lemma terminal_rows_are_final_witness :
  In delivered_row
     (signal_buffer
        (snd (BufferManager.flushBuffer (Some (fun _ => Some true)) (Some "A")
                                        settled_and_pending_rows))).
Proof.
  assert (Ht : terminal delivered_row) by (intro H; discriminate H).
  destruct (terminal_rows_are_final example_runtime (Some (fun _ => Some true))
                                    delivered_row Ht)
    as (_ & _ & _ & Hflush).
  apply (Hflush (Some "A") settled_and_pending_rows).
  split.
  - cbn. constructor; [intros [H|[]]; discriminate|].
    constructor; [intros []|constructor].
  - left. reflexivity.
Defined.

Lemma clear_by_ids_spec_witness :
  exists n w',
    BufferManager.clearBufferedSignals
      {| BufferManager.bufferIds := Some ["id-1"; "id-7"];
         BufferManager.targetServer := Some "A";
         BufferManager.signalType := Some 81;
         BufferManager.maxAgeHours := None |} three_pending_rows
    = (Some n, w') /\
    n = 1 /\
    map DbSignalBuffer.id (signal_buffer w') = ["id-0"; "id-2"].
Proof.
  destruct (clear_by_ids_spec "id-1" ["id-7"] (Some "A") (Some 81) None
                              three_pending_rows)
    as (n & w' & Hrun & Htab & Hn).
  - cbn. constructor; [intros [H|[H|[]]]; discriminate|].
    constructor; [intros [H|[]]; discriminate|].
    constructor; [intros []|constructor].
  - exists n, w'. split; [exact Hrun|].
    rewrite Htab in Hn. rewrite Htab. split; [rewrite Hn|]; reflexivity.
Defined.

(* ------------------------------------------------------------------ *)
(** ** Cleanup: what it leaves for the queries *)
(* ------------------------------------------------------------------ *)

Lemma filter_of_kept {A : Type} (f g : A -> bool) (l : list A) :
  (forall x, f x = true -> g x = true) ->
  filter f (filter g l) = filter f l.
Proof.
  intros Hfg. induction l as [|x l IH]; [reflexivity|].
  cbn [filter]. destruct (g x) eqn:Eg; cbn [filter].
  - now rewrite IH.
  - destruct (f x) eqn:Ef; [|exact IH].
    apply Hfg in Ef. congruence.
Qed.

Lemma cleanupOldStats_state rt retentionDays w :
  exists w',
    StatsAggregator.cleanupOldStats rt retentionDays w = (Some tt, w') /\
    signal_relays w'
    = filter (fun r => negb (DbSignalRelay.relayed_at r
                             <? cleanup_cutoff rt retentionDays w))
             (signal_relays w) /\
    signal_buffer w'
    = filter (fun b =>
                negb (negb (status_eqb (DbSignalBuffer.status b) pending)
                      && (DbSignalBuffer.buffered_at b
                          <? cleanup_cutoff rt retentionDays w)))
             (signal_buffer w) /\
    relay_stats w'
    = filter (fun s => negb (DbRelayStats.period_start s
                             <? cleanup_cutoff rt retentionDays w))
             (relay_stats w) /\
    relay_rules w' = relay_rules w.
Proof.
  unfold StatsAggregator.cleanupOldStats, cleanupOldData, bind, now.
  cbv zeta. eexists. split; [reflexivity|]. repeat split.
Qed.

(** X27. [cleanupOldStats] does not change what the queries return for a
    window that starts at the cutoff or later: the statistics rows and
    the relay history since [since] are the same, so [getRelayStatistics]
    reports the same totals, rates and groups; and it never deletes a
    pending row of the buffer, so the pending rows and their count are
    the same, whatever their age. *)
Theorem cleanup_keeps_the_retained_window
        rt retentionDays since until limit groupBy includeFailures target w :
  cleanup_cutoff rt retentionDays w <= since ->
  exists w',
    StatsAggregator.cleanupOldStats rt retentionDays w = (Some tt, w') /\
    Schema.getSignalRelayHistory since limit (signal_relays w')
    = Schema.getSignalRelayHistory since limit (signal_relays w) /\
    Schema.getPendingBufferedSignals target (signal_buffer w')
    = Schema.getPendingBufferedSignals target (signal_buffer w) /\
    let before :=
      StatsAggregator.getRelayStatistics rt since until groupBy
                                         includeFailures w in
    let after :=
      StatsAggregator.getRelayStatistics rt since until groupBy
                                         includeFailures w' in
    StatsAggregator.total_relayed after = StatsAggregator.total_relayed before /\
    StatsAggregator.success_rate after = StatsAggregator.success_rate before /\
    StatsAggregator.avg_latency_ms after
    = StatsAggregator.avg_latency_ms before /\
    StatsAggregator.by_group after = StatsAggregator.by_group before /\
    StatsAggregator.pending (StatsAggregator.buffer_stats after)
    = StatsAggregator.pending (StatsAggregator.buffer_stats before).
Proof.
  intros Hcut.
  destruct (cleanupOldStats_state rt retentionDays w)
    as (w' & Hrun & Hrel & Hbuf & Hstats & _).
  exists w'. split; [exact Hrun|].
  assert (Hhist : forall f : DbSignalRelay.t -> bool,
             (forall r, f r = true ->
                        (DbSignalRelay.relayed_at r >=? since) = true) ->
             filter f (signal_relays w') = filter f (signal_relays w)).
  { intros f Hf. rewrite Hrel. apply filter_of_kept. intros r Hr.
    apply Hf in Hr. apply Z.geb_le in Hr.
    apply negb_true_iff, Z.ltb_ge. lia. }
  assert (Hpend : forall f : DbSignalBuffer.t -> bool,
             (forall b, f b = true ->
                        status_eqb (DbSignalBuffer.status b) pending = true) ->
             filter f (signal_buffer w') = filter f (signal_buffer w)).
  { intros f Hf. rewrite Hbuf. apply filter_of_kept. intros b Hb.
    apply Hf in Hb. now rewrite Hb. }
  assert (Hrows : StatsAggregator.getRelayStats since until (relay_stats w')
                  = StatsAggregator.getRelayStats since until (relay_stats w)).
  { unfold StatsAggregator.getRelayStats. cbv zeta. rewrite Hstats.
    f_equal. apply filter_of_kept. intros s Hs.
    apply andb_true_iff in Hs. destruct Hs as [Hs _].
    apply Z.geb_le in Hs. apply negb_true_iff, Z.ltb_ge. lia. }
  split.
  { unfold Schema.getSignalRelayHistory. cbv zeta.
    now rewrite (Hhist _ (fun r Hr => Hr)). }
  split.
  { unfold Schema.getPendingBufferedSignals. cbv zeta. f_equal.
    apply Hpend. intros b Hb. now apply andb_true_iff in Hb. }
  cbv zeta. unfold StatsAggregator.getRelayStatistics. cbv zeta.
  cbn [StatsAggregator.total_relayed StatsAggregator.success_rate
       StatsAggregator.avg_latency_ms StatsAggregator.by_group
       StatsAggregator.buffer_stats StatsAggregator.pending].
  rewrite Hrows. repeat split.
  unfold Schema.getBufferStats, Schema.count_status.
  cbn [Schema.stats_pending]. f_equal. f_equal.
  apply Hpend. auto.
Qed.

Lemma cleanup_keeps_the_retained_window_witness :
  exists w',
    StatsAggregator.cleanupOldStats example_runtime 7 old_and_recent_rows
    = (Some tt, w') /\
    map DbRelayStats.id (relay_stats w') = [2] /\
    map DbSignalBuffer.id (signal_buffer w') = ["id-0"] /\
    StatsAggregator.total_relayed
      (StatsAggregator.getRelayStatistics
         example_runtime 1699395200000 None None true w') = 5.
Proof.
  destruct (cleanup_keeps_the_retained_window
              example_runtime 7 1699395200000 None 100 None true None
              old_and_recent_rows)
    as (w' & Hrun & _ & _ & Htotal & _).
  - vm_compute. discriminate.
  - exists w'. split; [exact Hrun|].
    cbv zeta in Htotal. rewrite Htotal.
    vm_compute in Hrun. injection Hrun as <-.
    repeat split.
Defined.
